(** * Procedural grass field: blade geometry, instance packing, wind animation

    A shallow embedding of [src/utils/grass.js] (the rich grass generator with
    gusts, stiffness and phase attributes, and the simple generator that
    precedes it) together with the vertex shaders the two generators carry,
    and of the part of [src/main.js] that drives the grass: the parameter
    object of [class App] and its methods [loadStage], [recreateGrass],
    [updateWind] and [animate].

    Numbers.  JavaScript numbers and GLSL floats are modelled by [num]: a
    finite value carries the real number it denotes, and every non-finite
    value (NaN, +Infinity, -Infinity) is the single element [None], which all
    arithmetic propagates.  The code is read in two ways.  For its structure
    (what is allocated, thrown, drawn and written where) and for the
    algebraic form of what the shaders compute, arithmetic on finite values
    is exact real arithmetic: [Rich], [Simple], [App].  For the values the
    generator stores, the roundings are written out: [IEEE] is rounding to
    nearest, ties to even, on the reals; a JavaScript literal or operation is
    rounded to binary64 ([JS]), a store into a [Float32Array] to binary32
    ([fround]); [RichIEEE] and [SimpleIEEE] are the generators once more
    with these roundings and with the draws three.js makes for the
    identifiers of its objects.  The single precision arithmetic of the GPU
    is not represented.

    Randomness.  [Math.random] is the ambient source of the code; a run sees a
    sequence of draws [rand 0, rand 1, ...] and the state threaded through the
    code is the number of draws already made.

    Counts ([grassBlades], [verticesPerBlade]) are integers.  Of three.js,
    which is not part of the repository, only what the code relies on is
    represented: a [THREE.Color] is the hexadecimal number it was built from,
    the matrix of an [Object3D] is the position, rotation and scale it is
    composed from, and an [InstancedMesh] is the record of what it was given.
    Where GLSL leaves a result undefined ([pow] of a negative base,
    [inversesqrt] of a number that is not positive, [normalize] of the zero
    vector) the result is the non-finite value. *)

From Stdlib Require Import Reals Lra Lia ZArith.
From stdpp Require Import base list.

Local Open Scope R_scope.

(** ** Numbers *)

Module Num.

Definition num : Type := option R.

Definition fin (r : R) : num := Some r.

(** NaN and the infinities. *)
Definition nonfinite : num := None.

Definition finite (a : num) : Prop := exists r : R, a = Some r.

Definition lift1 (f : R -> R) (a : num) : num :=
  match a with
  | Some x => Some (f x)
  | None => None
  end.

Definition lift2 (f : R -> R -> R) (a b : num) : num :=
  match a, b with
  | Some x, Some y => Some (f x y)
  | _, _ => None
  end.

Definition add : num -> num -> num := lift2 Rplus.
Definition sub : num -> num -> num := lift2 Rminus.
Definition mul : num -> num -> num := lift2 Rmult.
Definition neg : num -> num := lift1 Ropp.

(** [x / 0] is an infinity or NaN. *)
Definition div (a b : num) : num :=
  match a, b with
  | Some x, Some y => if Req_dec_T y 0 then None else Some (x / y)%R
  | _, _ => None
  end.

Definition sin : num -> num := lift1 Rtrigo_def.sin.
Definition cos : num -> num := lift1 Rtrigo_def.cos.
Definition abs : num -> num := lift1 Rabs.
Definition floor : num -> num := lift1 (fun x => IZR (Int_part x)).
Definition min : num -> num -> num := lift2 Rmin.
Definition max : num -> num -> num := lift2 Rmax.

(** GLSL [step(edge, x)]: 0 when [x < edge], 1 otherwise. *)
Definition step : num -> num -> num :=
  lift2 (fun edge x => if Rlt_dec x edge then 0%R else 1%R).

(** GLSL [mod(x, y) = x - y * floor(x / y)]. *)
Definition mod_ (x y : num) : num := sub x (mul y (floor (div x y))).

(** GLSL [pow(x, y)]: undefined for [x < 0] and for [x = 0] with [y <= 0];
    [pow(0, y) = 0] for [y > 0]. *)
Definition pow (a b : num) : num :=
  match a, b with
  | Some x, Some y =>
      if Rlt_dec x 0 then None
      else if Req_dec_T x 0 then (if Rlt_dec 0 y then Some 0%R else None)
      else Some (Rpower x y)
  | _, _ => None
  end.

(** GLSL [inversesqrt(x)]: undefined for [x <= 0]. *)
Definition inversesqrt (a : num) : num :=
  match a with
  | Some x => if Rlt_dec 0 x then Some (/ sqrt x)%R else None
  | None => None
  end.

Definition of_Z (z : Z) : num := fin (IZR z).

End Num.

Export Num.

Coercion fin : R >-> num.

Declare Scope num_scope.
Delimit Scope num_scope with num.
Bind Scope num_scope with num.
Infix "+" := Num.add : num_scope.
Infix "-" := Num.sub : num_scope.
Infix "*" := Num.mul : num_scope.
Infix "/" := Num.div : num_scope.
Notation "- x" := (Num.neg x) : num_scope.

(** ** Exceptions, the random source, typed arrays *)

Inductive exn : Type :=
| RangeError
| ReferenceError.

Inductive result (A : Type) : Type :=
| Ok (a : A)
| Throw (e : exn).
Arguments Ok {A} a.
Arguments Throw {A} e.

(** A computation that may draw from [Math.random] and may throw: it maps the
    number of draws made so far to a value and the new number of draws. *)
Definition M (A : Type) : Type := nat -> result (A * nat).

Definition ret {A : Type} (a : A) : M A := fun n => Ok (a, n).

Definition bind {A B : Type} (m : M A) (k : A -> M B) : M B :=
  fun n =>
    match m n with
    | Ok (a, n') => k a n'
    | Throw e => Throw e
    end.

Definition throw {A : Type} (e : exn) : M A := fun _ => Throw e.

Notation "'let*' x ':=' m 'in' k" := (bind m (fun x => k))
  (at level 10, x name, m at level 100, k at level 200, only parsing).

(** [for (let i = start; i < stop; i++) body]: the body is run
    [stop - start] times (not at all when [stop <= start]). *)
Fixpoint for_loop {S : Type} (count : nat) (i : Z) (body : Z -> S -> M S)
    (s : S) : M S :=
  match count with
  | O => ret s
  | Datatypes.S k => let* s' := body i s in for_loop k (i + 1)%Z body s'
  end.

Definition for_range {S : Type} (start stop : Z) (body : Z -> S -> M S)
    (s : S) : M S :=
  for_loop (Z.to_nat (stop - start)) start body s.

(** [new Float32Array(n)], [new Uint32Array(n)]: a negative length throws a
    RangeError; the elements start at zero. *)
Definition new_array {A : Type} (zero : A) (n : Z) : M (list A) :=
  if (n <? 0)%Z then throw RangeError
  else ret (replicate (Z.to_nat n) zero).

(** [a[i] = v] on a typed array: a write outside [0 .. length-1] is ignored
    (a typed array never grows). *)
Definition store {A : Type} (a : list A) (i : Z) (v : A) : list A :=
  if (i <? 0)%Z then a else <[Z.to_nat i := v]> a.

(** [a[i]] on a typed array: [undefined] outside the bounds. *)
Definition load {A : Type} (a : list A) (i : Z) : option A :=
  if (i <? 0)%Z then None else a !! Z.to_nat i.

(** Storing the result of a read into a [Float32Array]: [undefined]
    converts to NaN. *)
Definition to_float (v : option num) : num :=
  match v with
  | Some x => x
  | None => nonfinite
  end.

(** Storing an integer into a [Uint32Array] keeps it modulo 2^32. *)
Definition to_uint32 (z : Z) : Z := (z mod 2 ^ 32)%Z.

Section Random.

Variable rand : nat -> R.

(** [Math.random()]. *)
Definition Math_random : M num := fun n => Ok (fin (rand n), S n).

End Random.

Definition Math_PI : num := fin PI.

(** ** Vectors, colours, transforms *)

Record vec3 : Type := Vec3 { vx : num; vy : num; vz : num }.

(** [new THREE.Color(hex)]. *)
Record Color : Type := mkColor { hex : Z }.

(** The state of the [THREE.Object3D] named [dummy] when [updateMatrix] is
    called: three.js composes it into the sixteen matrix elements, of which
    elements 12, 13, 14 are the position. *)
Record Object3D : Type := mkObject3D {
  obj_position : vec3;
  obj_rotation : vec3;
  obj_scale : vec3
}.

Definition zero_block : Object3D :=
  let o := Vec3 0 0 0 in mkObject3D o o o.

(** [new Float32Array(count * 16)], seen as [count] blocks of sixteen
    elements. *)
Definition new_matrix_array (count : Z) : M (list Object3D) :=
  if (count * 16 <? 0)%Z then throw RangeError
  else ret (replicate (Z.to_nat count) zero_block).

(** A destructuring default [{ field = d } = options]: the default is taken
    when the field is absent or [undefined]. *)
Definition dflt {A : Type} (d : A) (field : option A) : A :=
  match field with
  | Some v => v
  | None => d
  end.

(** A [const] binding read by its own initializer is still in its temporal
    dead zone: the read throws a ReferenceError. *)
Inductive binding (A : Type) : Type :=
| Uninitialized
| Initialized (v : A).
Arguments Uninitialized {A}.
Arguments Initialized {A} v.

Definition read_binding {A : Type} (b : binding A) : M A :=
  match b with
  | Uninitialized => throw ReferenceError
  | Initialized v => ret v
  end.

(** [{ field = init } = options] where the initializer is an expression: it
    is evaluated only when the field is absent or [undefined]. *)
Definition destructure {A : Type} (field : option A) (init : M A) : M A :=
  match field with
  | Some v => ret v
  | None => init
  end.

(** [THREE.BufferAttribute(array, 3)]: the number of vertices is the array
    length divided by the item size, and vertex [k] is made of the elements
    [3k], [3k+1], [3k+2]. *)
Definition vertex_count (array : list num) : nat := (length array / 3)%nat.

Definition vertex (array : list num) (k : nat) : option vec3 :=
  match array !! (3 * k)%nat, array !! (3 * k + 1)%nat,
        array !! (3 * k + 2)%nat with
  | Some a, Some b, Some c => Some (Vec3 a b c)
  | _, _, _ => None
  end.

(** [keeps a0 lo hi a]: the array [a] has the length of [a0] and agrees with
    it outside the index range [lo .. hi-1]. *)
Definition keeps {A : Type} (a0 : list A) (lo hi : nat) (a : list A) : Prop :=
  length a = length a0
  /\ forall k : nat, (k < lo \/ hi <= k)%nat -> a !! k = a0 !! k.

(** [filled Q j a]: the elements of [a] below index [j] satisfy [Q]. *)
Definition filled {A : Type} (Q : A -> Prop) (j : Z) (a : list A) : Prop :=
  forall (i : nat) (x : A), a !! i = Some x -> (Z.of_nat i < j)%Z -> Q x.

(** [same_from n0 m1 m2]: started after at least [n0] draws, the two
    computations give the same result, and they only ever add draws. *)
Definition same_from {A : Type} (n0 : nat) (m1 m2 : M A) : Prop :=
  forall k : nat,
    (n0 <= k)%nat ->
    m1 k = m2 k /\ forall a k', m1 k = Ok (a, k') -> (k <= k')%nat.

(** ** GLSL vectors and built-in functions *)

Module GLSL.

Definition sqrt (a : num) : num :=
  match a with
  | Some x => if Rlt_dec x 0 then None else Some (R_sqrt.sqrt x)
  | None => None
  end.

Record vec2 : Type := Vec2 { v2x : num; v2y : num }.
Record vec4 : Type := Vec4 { v4x : num; v4y : num; v4z : num; v4w : num }.

(** A [mat4] is stored by columns: [m[3]] is [col3 m]. *)
Record mat4 : Type := Mat4 { col0 : vec4; col1 : vec4; col2 : vec4; col3 : vec4 }.

Definition splat3 (s : num) : vec3 := Vec3 s s s.
Definition splat4 (s : num) : vec4 := Vec4 s s s s.

Definition map3 (f : num -> num) (a : vec3) : vec3 :=
  Vec3 (f (vx a)) (f (vy a)) (f (vz a)).
Definition zip3 (f : num -> num -> num) (a b : vec3) : vec3 :=
  Vec3 (f (vx a) (vx b)) (f (vy a) (vy b)) (f (vz a) (vz b)).
Definition map4 (f : num -> num) (a : vec4) : vec4 :=
  Vec4 (f (v4x a)) (f (v4y a)) (f (v4z a)) (f (v4w a)).
Definition zip4 (f : num -> num -> num) (a b : vec4) : vec4 :=
  Vec4 (f (v4x a) (v4x b)) (f (v4y a) (v4y b)) (f (v4z a) (v4z b))
    (f (v4w a) (v4w b)).

Definition add3 := zip3 Num.add.
Definition sub3 := zip3 Num.sub.
Definition mul3 := zip3 Num.mul.
Definition add4 := zip4 Num.add.
Definition sub4 := zip4 Num.sub.
Definition mul4 := zip4 Num.mul.

(** The operators between a vector and a scalar act on each component. *)
Definition scale3 (a : vec3) (s : num) : vec3 := mul3 a (splat3 s).
Definition scale4 (a : vec4) (s : num) : vec4 := mul4 a (splat4 s).

Definition dot3 (a b : vec3) : num :=
  (vx a * vx b + vy a * vy b + vz a * vz b)%num.
Definition dot4 (a b : vec4) : num :=
  (v4x a * v4x b + v4y a * v4y b + v4z a * v4z b + v4w a * v4w b)%num.

Definition length3 (a : vec3) : num := sqrt (dot3 a a).

(** [normalize(v) = v / length(v)]. *)
Definition normalize (a : vec3) : vec3 :=
  map3 (fun c => c / length3 a)%num a.

(** [mix(a, b, t) = a * (1 - t) + b * t]. *)
Definition mix (a b : vec3) (t : num) : vec3 :=
  add3 (scale3 a (1 - t)%num) (scale3 b t).

Definition mat4_mul_vec4 (m : mat4) (v : vec4) : vec4 :=
  add4 (add4 (add4 (scale4 (col0 m) (v4x v)) (scale4 (col1 m) (v4y v)))
          (scale4 (col2 m) (v4z v)))
    (scale4 (col3 m) (v4w v)).

Definition mat4_mul (m n : mat4) : mat4 :=
  Mat4 (mat4_mul_vec4 m (col0 n)) (mat4_mul_vec4 m (col1 n))
    (mat4_mul_vec4 m (col2 n)) (mat4_mul_vec4 m (col3 n)).

(** Swizzles. *)
Definition xxx (c : vec2) : vec3 := Vec3 (v2x c) (v2x c) (v2x c).
Definition yyy (c : vec2) : vec3 := Vec3 (v2y c) (v2y c) (v2y c).
Definition yzx (a : vec3) : vec3 := Vec3 (vy a) (vz a) (vx a).
Definition zxy (a : vec3) : vec3 := Vec3 (vz a) (vx a) (vy a).
Definition xyz (a : vec4) : vec3 := Vec3 (v4x a) (v4y a) (v4z a).
Definition yyy4 (d : vec4) : vec3 := Vec3 (v4y d) (v4y d) (v4y d).
Definition wyz (d : vec4) : vec3 := Vec3 (v4w d) (v4y d) (v4z d).
Definition xzx (d : vec4) : vec3 := Vec3 (v4x d) (v4z d) (v4x d).
Definition xzyw (a : vec4) : vec4 := Vec4 (v4x a) (v4z a) (v4y a) (v4w a).
Definition xxyy (a : vec4) : vec4 := Vec4 (v4x a) (v4x a) (v4y a) (v4y a).
Definition zzww (a : vec4) : vec4 := Vec4 (v4z a) (v4z a) (v4w a) (v4w a).

(** The noise function that both vertex shaders declare. *)
Definition snoise (v : vec3) : num :=
  let C := Vec2 (1.0 / 6.0)%num (1.0 / 3.0)%num in
  let D := Vec4 0.0 0.5 1.0 2.0 in
  let i := map3 Num.floor (add3 v (splat3 (dot3 v (yyy C)))) in
  let x0 := add3 (sub3 v i) (splat3 (dot3 i (xxx C))) in
  let g := zip3 Num.step (yzx x0) x0 in
  let l := sub3 (splat3 1.0) g in
  let i1 := zip3 Num.min g (zxy l) in
  let i2 := zip3 Num.max g (zxy l) in
  let x1 := add3 (sub3 x0 i1) (xxx C) in
  let x2 := add3 (sub3 x0 i2) (yyy C) in
  let x3 := sub3 x0 (yyy4 D) in
  let i := map3 (fun c => Num.mod_ c 289.0) i in
  let p :=
    map4 (fun c => Num.mod_ c 289.0)
      (add4 (add4 (splat4 (vz i)) (Vec4 0.0 (vz i1) (vz i2) 1.0))
         (Vec4 0.0 (vx i1) (vx i2) 1.0)) in
  let n_ := (1.0 / 7.0)%num in
  let ns := sub3 (scale3 (wyz D) n_) (xzx D) in
  let j :=
    sub4 p
      (scale4 (map4 Num.floor (scale4 (scale4 p (vz ns)) (vz ns))) 49.0) in
  let x_ := map4 Num.floor (scale4 j (vz ns)) in
  let y_ := map4 Num.floor (sub4 j (scale4 x_ 7.0)) in
  let x := add4 (scale4 x_ (vx ns)) (Vec4 0.0 1.0 2.0 3.0) in
  let y := add4 (scale4 y_ (vx ns)) (Vec4 0.0 1.0 2.0 3.0) in
  let h := sub4 (sub4 (splat4 1.0) (map4 Num.abs x)) (map4 Num.abs y) in
  let b0 := Vec4 (v4x x) (v4y x) (v4x y) (v4y y) in
  let b1 := Vec4 (v4z x) (v4w x) (v4z y) (v4w y) in
  let s0 := add4 (scale4 (map4 Num.floor b0) 2.0) (splat4 1.0) in
  let s1 := add4 (scale4 (map4 Num.floor b1) 2.0) (splat4 1.0) in
  let sh := map4 Num.neg (zip4 Num.step h (splat4 0.0)) in
  let a0 := add4 (xzyw b0) (mul4 (xzyw s0) (xxyy sh)) in
  let a1 := add4 (xzyw b1) (mul4 (xzyw s1) (zzww sh)) in
  let p0 := Vec3 (v4x a0) (v4y a0) (v4x h) in
  let p1 := Vec3 (v4z a0) (v4w a0) (v4y h) in
  let p2 := Vec3 (v4x a1) (v4y a1) (v4z h) in
  let p3 := Vec3 (v4z a1) (v4w a1) (v4w h) in
  let norm :=
    map4 Num.inversesqrt
      (Vec4 (dot3 p0 p0) (dot3 p1 p1) (dot3 p2 p2) (dot3 p3 p3)) in
  let p0 := scale3 p0 (v4x norm) in
  let p1 := scale3 p1 (v4y norm) in
  let p2 := scale3 p2 (v4z norm) in
  let p3 := scale3 p3 (v4w norm) in
  let m :=
    zip4 Num.max
      (sub4 (splat4 0.6)
         (Vec4 (dot3 x0 x0) (dot3 x1 x1) (dot3 x2 x2) (dot3 x3 x3)))
      (splat4 0.0) in
  let m := mul4 m m in
  (42.0
   * dot4 (mul4 m m)
       (Vec4 (dot3 p0 x0) (dot3 p1 x1) (dot3 p2 x2) (dot3 p3 x3)))%num.

End GLSL.

Import GLSL.

(** ** The rich generator (gusts, stiffness, phase offsets) *)

Module Rich.

Record options : Type := mkOptions {
  bladeHeight : option num;
  bladeHeightVariation : option num;
  bladeWidth : option num;
  grassBlades : option Z;
  grassPatchSize : option num;
  windSpeed : option num;
  windDirectionX : option num;
  windDirectionY : option num;
  windDirectionZ : option num;
  windIntensity : option num;
  windTurbulence : option num;
  grassColorTop : option Z;
  grassColorBottom : option Z;
  verticesPerBlade : option Z;
  windGustFrequency : option num;
  windGustIntensity : option num;
  microMovement : option num;
  wavePropagation : option num
}.

(** [createGrassMesh()] and [createGrassMesh({})]. *)
Definition no_options : options :=
  mkOptions None None None None None None None None None None None None
    None None None None None None.

Record uniforms : Type := mkUniforms {
  uTime : num;
  uWindSpeed : num;
  uWindDirection : vec3;
  uColorBottom : Color;
  uColorTop : Color;
  uWindNoiseFactor : num;
  uWindTurbulence : num;
  uWindIntensity : num;
  uBladeHeight : num;
  uBladeWidth : num;
  uGustFrequency : num;
  uGustIntensity : num;
  uMicroMovement : num;
  uWavePropagation : num
}.

Record geometry : Type := mkGeometry {
  geo_position : list num;
  geo_index : list Z;
  geo_aBladeHeight : list num;
  geo_aStiffness : list num;
  geo_aPhaseOffset : list num
}.

(** The instanced mesh returned by [createGrassMesh]; the last two fields
    are the variables of [createGrassMesh] that [updateWind] closes over. *)
Record mesh : Type := mkMesh {
  mesh_geometry : geometry;
  mesh_uniforms : uniforms;
  mesh_count : Z;
  mesh_instanceMatrix : list Object3D;
  closure_windGustFrequency : num;
  closure_windGustIntensity : num
}.

(** The options of [updateWind(time, options)]. *)
Record wind_options : Type := mkWindOptions {
  upd_windSpeed : option num;
  upd_windDirection : option vec3;
  upd_windIntensity : option num;
  upd_windTurbulence : option num;
  upd_gustFrequency : option num;
  upd_gustIntensity : option num;
  upd_microMovement : option num;
  upd_wavePropagation : option num
}.

Section WithRandom.

Variable rand : nat -> R.

(** [bladeHeightVariation] is the variable of the enclosing
    [createGrassMesh] that the arrow function closes over. *)
Definition generateBladeVertices (bladeHeightVariation : num)
    (baseBladeHeight bladeWidth : num) (verticesCount : Z)
    : M (list num) :=
  let* r := Math_random rand in
  let actualBladeHeight :=
    (baseBladeHeight
     * (1 - bladeHeightVariation / 2 + r * bladeHeightVariation))%num in
  let* vertices := new_array (fin 0) (verticesCount * 3)%Z in
  let vertices := store vertices 0%Z (- bladeWidth / 2)%num in
  let vertices := store vertices 1%Z (fin 0) in
  let vertices := store vertices 2%Z (fin 0) in
  let vertices :=
    store vertices ((verticesCount - 1) * 3)%Z (bladeWidth / 2)%num in
  let vertices :=
    store vertices ((verticesCount - 1) * 3 + 1)%Z actualBladeHeight in
  let vertices :=
    store vertices ((verticesCount - 1) * 3 + 2)%Z (fin 0) in
  for_range 1%Z (verticesCount - 1)%Z
    (fun i vertices =>
       let t := (of_Z i / of_Z (verticesCount - 1))%num in
       let curveFactor :=
         (Num.sin (Math_PI * t) * actualBladeHeight * 0.25)%num in
       let* r1 := Math_random rand in
       let vertices :=
         store vertices (i * 3)%Z
           ((r1 - 0.5) * bladeWidth * (1 - Num.abs (t - 0.5) * 2))%num in
       let vertices :=
         store vertices (i * 3 + 1)%Z
           (t * actualBladeHeight + curveFactor)%num in
       let* r2 := Math_random rand in
       let vertices :=
         store vertices (i * 3 + 2)%Z ((r2 - 0.5) * 0.05)%num in
       ret vertices)
    vertices.

Definition generateBladeIndices (verticesCount : Z) : M (list Z) :=
  let* indices := new_array 0%Z ((verticesCount - 2) * 3)%Z in
  for_range 0%Z (verticesCount - 2)%Z
    (fun i indices =>
       let indices := store indices (i * 3)%Z (to_uint32 0) in
       let indices := store indices (i * 3 + 1)%Z (to_uint32 (i + 1)) in
       let indices := store indices (i * 3 + 2)%Z (to_uint32 (i + 2)) in
       ret indices)
    indices.

Definition createGrassMesh (options : options) : M mesh :=
  let bladeHeight := dflt (fin 15) (bladeHeight options) in
  let bladeHeightVariation :=
    dflt (fin 0.4) (bladeHeightVariation options) in
  let bladeWidth := dflt (fin 0.5) (bladeWidth options) in
  let grassBlades := dflt 100000%Z (grassBlades options) in
  let grassPatchSize := dflt (fin 200) (grassPatchSize options) in
  let windSpeed := dflt (fin 3.0) (windSpeed options) in
  let windDirectionX := dflt (fin 1) (windDirectionX options) in
  let windDirectionY := dflt (fin 0) (windDirectionY options) in
  let windDirectionZ := dflt (fin 1) (windDirectionZ options) in
  let windIntensity := dflt (fin 1.4) (windIntensity options) in
  let windTurbulence := dflt (fin 0.7) (windTurbulence options) in
  let grassColorTop := dflt 0x7f7f19%Z (grassColorTop options) in
  let grassColorBottom := dflt 0x0c3302%Z (grassColorBottom options) in
  let verticesPerBlade := dflt 3%Z (verticesPerBlade options) in
  let windGustFrequency := dflt (fin 0.15) (windGustFrequency options) in
  let windGustIntensity := dflt (fin 0.35) (windGustIntensity options) in
  let microMovement := dflt (fin 0.2) (microMovement options) in
  let wavePropagation := dflt (fin 0.05) (wavePropagation options) in
  let windDirection :=
    Vec3 windDirectionX windDirectionY windDirectionZ in
  let* bladeHeights := new_array (fin 0) grassBlades in
  let* bladeStiffness := new_array (fin 0) grassBlades in
  let* filled :=
    for_range 0%Z grassBlades
      (fun i (arrays : list num * list num) =>
         let (bladeHeights, bladeStiffness) := arrays in
         let* r1 := Math_random rand in
         let bladeHeights :=
           store bladeHeights i
             (bladeHeight
              * (1 - bladeHeightVariation / 2
                 + r1 * bladeHeightVariation))%num in
         let* r2 := Math_random rand in
         let bladeStiffness :=
           store bladeStiffness i (0.7 + r2 * 0.6)%num in
         ret (bladeHeights, bladeStiffness))
      (bladeHeights, bladeStiffness) in
  let (bladeHeights, bladeStiffness) := filled in
  let* vertices :=
    generateBladeVertices bladeHeightVariation bladeHeight bladeWidth
      verticesPerBlade in
  let* indices := generateBladeIndices verticesPerBlade in
  let* instanceBladeHeights := new_array (fin 0) grassBlades in
  let* instanceBladeStiffness := new_array (fin 0) grassBlades in
  let* instancePhaseOffsets := new_array (fin 0) grassBlades in
  let* attributes :=
    for_range 0%Z grassBlades
      (fun i (arrays : list num * list num * list num) =>
         let '(heights, stiffness, phases) := arrays in
         let heights :=
           store heights i (to_float (load bladeHeights i)) in
         let stiffness :=
           store stiffness i (to_float (load bladeStiffness i)) in
         let* r := Math_random rand in
         let phases := store phases i (r * Math_PI * 2)%num in
         ret (heights, stiffness, phases))
      (instanceBladeHeights, instanceBladeStiffness,
       instancePhaseOffsets) in
  let '(instanceBladeHeights, instanceBladeStiffness,
        instancePhaseOffsets) := attributes in
  let geometry :=
    mkGeometry vertices indices instanceBladeHeights
      instanceBladeStiffness instancePhaseOffsets in
  let uniforms :=
    {| uTime := fin 0;
       uWindSpeed := windSpeed;
       uWindDirection := windDirection;
       uColorBottom := mkColor grassColorBottom;
       uColorTop := mkColor grassColorTop;
       uWindNoiseFactor := fin 1.0;
       uWindTurbulence := windTurbulence;
       uWindIntensity := windIntensity;
       uBladeHeight := bladeHeight;
       uBladeWidth := bladeWidth;
       uGustFrequency := windGustFrequency;
       uGustIntensity := windGustIntensity;
       uMicroMovement := microMovement;
       uWavePropagation := wavePropagation |} in
  let* instanceMatrix := new_matrix_array grassBlades in
  let* instanceMatrix :=
    for_range 0%Z grassBlades
      (fun i instanceMatrix =>
         let* r1 := Math_random rand in
         let x := ((r1 - 0.5) * grassPatchSize)%num in
         let* r2 := Math_random rand in
         let z := ((r2 - 0.5) * grassPatchSize)%num in
         let* r3 := Math_random rand in
         let* r4 := Math_random rand in
         let* r5 := Math_random rand in
         let dummy :=
           {| obj_position := Vec3 x 0 z;
              obj_rotation :=
                Vec3 ((r3 - 0.5) * 0.5)%num (r4 * Math_PI * 2)%num
                  ((r5 - 0.5) * 0.5)%num;
              obj_scale := Vec3 1 1 1 |} in
         ret (store instanceMatrix i dummy))
      instanceMatrix in
  ret {| mesh_geometry := geometry;
         mesh_uniforms := uniforms;
         mesh_count := grassBlades;
         mesh_instanceMatrix := instanceMatrix;
         closure_windGustFrequency := windGustFrequency;
         closure_windGustIntensity := windGustIntensity |}.

(** [instancedMesh.updateWind]: [windGustFrequency] and
    [windGustIntensity] are the variables of the enclosing
    [createGrassMesh]; the initializers of [microMovement] and
    [wavePropagation] read the binding that is being declared. *)
Definition updateWind (windGustFrequency windGustIntensity : num)
    (time : num) (options : wind_options) (u : uniforms) : M uniforms :=
  let* windSpeed := destructure (upd_windSpeed options) (ret (fin 3.0)) in
  let* windDirection :=
    destructure (upd_windDirection options) (ret (Vec3 1 0 1)) in
  let* windIntensity :=
    destructure (upd_windIntensity options) (ret (fin 0.5)) in
  let* windTurbulence :=
    destructure (upd_windTurbulence options) (ret (fin 0.7)) in
  let* gustFrequency :=
    destructure (upd_gustFrequency options) (ret windGustFrequency) in
  let* gustIntensity :=
    destructure (upd_gustIntensity options) (ret windGustIntensity) in
  let* microMovement :=
    destructure (upd_microMovement options)
      (read_binding Uninitialized) in
  let* wavePropagation :=
    destructure (upd_wavePropagation options)
      (read_binding Uninitialized) in
  let* r := Math_random rand in
  ret {| uTime := time;
         uWindSpeed := windSpeed;
         uWindDirection := windDirection;
         uColorBottom := uColorBottom u;
         uColorTop := uColorTop u;
         uWindNoiseFactor := (0.5 + r * 0.5)%num;
         uWindTurbulence := windTurbulence;
         uWindIntensity := windIntensity;
         uBladeHeight := uBladeHeight u;
         uBladeWidth := uBladeWidth u;
         uGustFrequency := gustFrequency;
         uGustIntensity := gustIntensity;
         uMicroMovement := microMovement;
         uWavePropagation := wavePropagation |}.

(** [mesh.updateWind(time, options)] on the mesh that
    [createGrassMesh] returned. *)
Definition mesh_updateWind (m : mesh) (time : num)
    (options : wind_options) : M mesh :=
  let* u :=
    updateWind (closure_windGustFrequency m)
      (closure_windGustIntensity m) time options (mesh_uniforms m) in
  ret {| mesh_geometry := mesh_geometry m;
         mesh_uniforms := u;
         mesh_count := mesh_count m;
         mesh_instanceMatrix := mesh_instanceMatrix m;
         closure_windGustFrequency := closure_windGustFrequency m;
         closure_windGustIntensity := closure_windGustIntensity m |}.

End WithRandom.

(** The vertex shader of the material.  [rgb] is the conversion three.js
    applies when it uploads a [THREE.Color] uniform as a [vec3]. *)

Module Shader.

Record vertex_inputs : Type := mkVertexInputs {
position : vec3;
instanceMatrix : mat4;
aBladeHeight : num;
aStiffness : num;
aPhaseOffset : num
}.

Record vertex_outputs : Type := mkVertexOutputs {
vColor : vec3;
gl_Position : vec4
}.

Section VertexShader.

Variable rgb : Color -> vec3.
Variables projectionMatrix modelViewMatrix : mat4.
Variable u : uniforms.
Variable a : vertex_inputs.

Definition t : num := (vy (position a) / aBladeHeight a)%num.

Definition instancePos : vec3 := xyz (col3 (instanceMatrix a)).

Definition windTime : num := (uTime u * uWindSpeed u)%num.

Definition noise1 : num :=
snoise (Vec3 (vx instancePos * 0.15)%num (vz instancePos * 0.15)%num
          (windTime * 0.3)%num).
Definition noise2 : num :=
snoise (Vec3 (vx instancePos * 0.1)%num (vz instancePos * 0.1)%num
          (windTime * 0.2)%num).
Definition noise3 : num :=
snoise (Vec3 (vx instancePos * 0.05)%num (vz instancePos * 0.05)%num
          (windTime * 0.1)%num).

Definition heightRatio : num := (aBladeHeight a / uBladeHeight u)%num.

Definition scaledPosition : vec3 :=
Vec3 (vx (position a)) (vy (position a) * heightRatio)%num
  (vz (position a)).

Definition heightFactor : num :=
Num.pow (vy scaledPosition / aBladeHeight a)%num 2.0.

Definition windVector : vec3 := normalize (uWindDirection u).

Definition spatialWave : num :=
(Num.sin (vx instancePos * uWavePropagation u
          + vz instancePos * uWavePropagation u
          + windTime * 0.5) * 0.5 + 0.5)%num.

Definition gustTime : num := (windTime * uGustFrequency u)%num.

Definition gust : num :=
(Num.pow (Num.sin gustTime * 0.5 + 0.5) 3.0 * uGustIntensity u)%num.

Definition individualPhase : num :=
(Num.sin (windTime * 0.7 + aPhaseOffset a) * uMicroMovement u)%num.

(** [float windIntensity = ( ... ) * uWindTurbulence * uWindIntensity;] *)
Definition windIntensity_initial : num :=
((Num.sin (windTime + noise1 * 2.0 + vx instancePos * 0.01) * 0.5
  + Num.cos (windTime * 0.5 + noise2 * 2.0 + vz instancePos * 0.01)
    * 0.3
  + Num.sin (windTime * 0.2 + noise3 * 1.0) * 0.2
  + gust
  + spatialWave * 0.3
  + individualPhase)
 * uWindTurbulence u * uWindIntensity u)%num.

(** [windIntensity *= (1.0 / aStiffness);] *)
Definition windIntensity_final : num :=
(windIntensity_initial * (1.0 / aStiffness a))%num.

Definition sway : num :=
(windIntensity_final * heightFactor
 * (1.0 + uWindNoiseFactor u * (noise1 + noise2)))%num.

Definition worldPos : vec4 :=
let worldPos :=
  mat4_mul_vec4 (instanceMatrix a)
    (Vec4 (vx scaledPosition) (vy scaledPosition) (vz scaledPosition)
       1.0) in
let worldPos :=
  Vec4 (v4x worldPos + vx windVector * sway * 2.0)%num (v4y worldPos)
    (v4z worldPos) (v4w worldPos) in
let worldPos :=
  Vec4 (v4x worldPos) (v4y worldPos)
    (v4z worldPos + vz windVector * sway * 2.0)%num (v4w worldPos) in
Vec4 (v4x worldPos)
  (v4y worldPos + Num.abs sway * 0.1 * vy scaledPosition)%num
  (v4z worldPos) (v4w worldPos).

Definition main : vertex_outputs :=
{| vColor := mix (rgb (uColorBottom u)) (rgb (uColorTop u)) t;
   gl_Position :=
     mat4_mul_vec4 (mat4_mul projectionMatrix modelViewMatrix)
       worldPos |}.

End VertexShader.

End Shader.

End Rich.

(** ** The simple generator *)

Module Simple.

Record options : Type := mkOptions {
  bladeHeight : option num;
  bladeWidth : option num;
  grassBlades : option Z;
  grassPatchSize : option num;
  windSpeed : option num;
  windDirectionX : option num;
  windDirectionY : option num;
  windDirectionZ : option num;
  windIntensity : option num;
  windTurbulence : option num;
  grassColorTop : option Z;
  grassColorBottom : option Z;
  verticesPerBlade : option Z
}.

Definition no_options : options :=
  mkOptions None None None None None None None None None None None None
    None.

Record uniforms : Type := mkUniforms {
  uTime : num;
  uWindSpeed : num;
  uWindDirection : vec3;
  uColorBottom : Color;
  uColorTop : Color;
  uWindNoiseFactor : num;
  uWindTurbulence : num;
  uWindIntensity : num;
  uBladeHeight : num;
  uBladeWidth : num
}.

Record geometry : Type := mkGeometry {
  geo_position : list num;
  geo_index : list Z
}.

Record mesh : Type := mkMesh {
  mesh_geometry : geometry;
  mesh_uniforms : uniforms;
  mesh_count : Z;
  mesh_instanceMatrix : list Object3D
}.

Record wind_options : Type := mkWindOptions {
  upd_windSpeed : option num;
  upd_windDirection : option vec3;
  upd_windIntensity : option num;
  upd_windTurbulence : option num
}.

Section WithRandom.

Variable rand : nat -> R.

Definition generateBladeVertices (bladeHeight bladeWidth : num)
    (verticesCount : Z) : M (list num) :=
  let* vertices := new_array (fin 0) (verticesCount * 3)%Z in
  let vertices := store vertices 0%Z (- bladeWidth / 2)%num in
  let vertices := store vertices 1%Z (fin 0) in
  let vertices := store vertices 2%Z (fin 0) in
  let vertices :=
    store vertices ((verticesCount - 1) * 3)%Z (bladeWidth / 2)%num in
  let vertices :=
    store vertices ((verticesCount - 1) * 3 + 1)%Z bladeHeight in
  let vertices :=
    store vertices ((verticesCount - 1) * 3 + 2)%Z (fin 0) in
  for_range 1%Z (verticesCount - 1)%Z
    (fun i vertices =>
       let t := (of_Z i / of_Z (verticesCount - 1))%num in
       let curveFactor :=
         (Num.sin (Math_PI * t) * bladeHeight * 0.2)%num in
       let* r1 := Math_random rand in
       let vertices :=
         store vertices (i * 3)%Z
           ((r1 - 0.5) * bladeWidth * (1 - Num.abs (t - 0.5) * 2))%num in
       let vertices :=
         store vertices (i * 3 + 1)%Z
           (t * bladeHeight + curveFactor)%num in
       let* r2 := Math_random rand in
       let vertices :=
         store vertices (i * 3 + 2)%Z ((r2 - 0.5) * 0.05)%num in
       ret vertices)
    vertices.

Definition generateBladeIndices (verticesCount : Z) : M (list Z) :=
  let* indices := new_array 0%Z ((verticesCount - 1) * 6)%Z in
  for_range 0%Z (verticesCount - 1)%Z
    (fun i indices =>
       let indices := store indices (i * 6)%Z (to_uint32 i) in
       let indices := store indices (i * 6 + 1)%Z (to_uint32 (i + 1)) in
       let indices :=
         store indices (i * 6 + 2)%Z (to_uint32 (verticesCount + i)) in
       let indices := store indices (i * 6 + 3)%Z (to_uint32 i) in
       let indices :=
         store indices (i * 6 + 4)%Z (to_uint32 (verticesCount + i)) in
       let indices :=
         store indices (i * 6 + 5)%Z
           (to_uint32 (verticesCount + i + 1)) in
       ret indices)
    indices.

Definition createGrassMesh (options : options) : M mesh :=
  let bladeHeight := dflt (fin 15) (bladeHeight options) in
  let bladeWidth := dflt (fin 0.1) (bladeWidth options) in
  let grassBlades := dflt 500000%Z (grassBlades options) in
  let grassPatchSize := dflt (fin 200) (grassPatchSize options) in
  let windSpeed := dflt (fin 3.0) (windSpeed options) in
  let windDirectionX := dflt (fin 1) (windDirectionX options) in
  let windDirectionY := dflt (fin 0) (windDirectionY options) in
  let windDirectionZ := dflt (fin 1) (windDirectionZ options) in
  let windIntensity := dflt (fin 0.5) (windIntensity options) in
  let windTurbulence := dflt (fin 0.7) (windTurbulence options) in
  let grassColorTop := dflt 0x7f7f19%Z (grassColorTop options) in
  let grassColorBottom := dflt 0x0c3302%Z (grassColorBottom options) in
  let verticesPerBlade := dflt 3%Z (verticesPerBlade options) in
  let windDirection :=
    Vec3 windDirectionX windDirectionY windDirectionZ in
  let* vertices :=
    generateBladeVertices bladeHeight bladeWidth verticesPerBlade in
  let* indices := generateBladeIndices verticesPerBlade in
  let geometry := mkGeometry vertices indices in
  let uniforms :=
    {| uTime := fin 0;
       uWindSpeed := windSpeed;
       uWindDirection := windDirection;
       uColorBottom := mkColor grassColorBottom;
       uColorTop := mkColor grassColorTop;
       uWindNoiseFactor := fin 1.0;
       uWindTurbulence := windTurbulence;
       uWindIntensity := windIntensity;
       uBladeHeight := bladeHeight;
       uBladeWidth := bladeWidth |} in
  let* instanceMatrix := new_matrix_array grassBlades in
  let* instanceMatrix :=
    for_range 0%Z grassBlades
      (fun i instanceMatrix =>
         let* r1 := Math_random rand in
         let x := ((r1 - 0.5) * grassPatchSize)%num in
         let* r2 := Math_random rand in
         let z := ((r2 - 0.5) * grassPatchSize)%num in
         let* r3 := Math_random rand in
         let* r4 := Math_random rand in
         let* r5 := Math_random rand in
         let dummy :=
           {| obj_position := Vec3 x 0 z;
              obj_rotation :=
                Vec3 ((r3 - 0.5) * 0.5)%num (r4 * Math_PI * 2)%num
                  ((r5 - 0.5) * 0.5)%num;
              obj_scale := Vec3 1 1 1 |} in
         ret (store instanceMatrix i dummy))
      instanceMatrix in
  ret {| mesh_geometry := geometry;
         mesh_uniforms := uniforms;
         mesh_count := grassBlades;
         mesh_instanceMatrix := instanceMatrix |}.

Definition updateWind (time : num) (options : wind_options)
    (u : uniforms) : M uniforms :=
  let* windSpeed := destructure (upd_windSpeed options) (ret (fin 5.5)) in
  let* windDirection :=
    destructure (upd_windDirection options) (ret (Vec3 1 0 1)) in
  let* windIntensity :=
    destructure (upd_windIntensity options) (ret (fin 1.0)) in
  let* windTurbulence :=
    destructure (upd_windTurbulence options) (ret (fin 0.8)) in
  let* r := Math_random rand in
  ret {| uTime := time;
         uWindSpeed := windSpeed;
         uWindDirection := windDirection;
         uColorBottom := uColorBottom u;
         uColorTop := uColorTop u;
         uWindNoiseFactor := (0.5 + r * 0.5)%num;
         uWindTurbulence := windTurbulence;
         uWindIntensity := windIntensity;
         uBladeHeight := uBladeHeight u;
         uBladeWidth := uBladeWidth u |}.

End WithRandom.

(** The vertex shader of the material. *)

Module Shader.

Record vertex_inputs : Type := mkVertexInputs {
position : vec3;
instanceMatrix : mat4
}.

Record vertex_outputs : Type := mkVertexOutputs {
vColor : vec3;
gl_Position : vec4
}.

Section VertexShader.

Variable rgb : Color -> vec3.
Variables projectionMatrix modelViewMatrix : mat4.
Variable u : uniforms.
Variable a : vertex_inputs.

Definition t : num := (vy (position a) / uBladeHeight u)%num.

Definition instancePos : vec3 := xyz (col3 (instanceMatrix a)).

Definition windTime : num := (uTime u * uWindSpeed u)%num.

Definition noise1 : num :=
snoise (Vec3 (vx instancePos * 0.15)%num (vz instancePos * 0.15)%num
          (windTime * 0.3)%num).
Definition noise2 : num :=
snoise (Vec3 (vx instancePos * 0.1)%num (vz instancePos * 0.1)%num
          (windTime * 0.2)%num).

Definition heightFactor : num :=
Num.pow (vy (position a) / uBladeHeight u)%num 1.5.

Definition windVector : vec3 := normalize (uWindDirection u).

Definition windIntensity : num :=
((Num.sin (windTime + noise1 * 2.0) * 0.7
  + Num.cos (windTime * 1.5 + noise2 * 2.0) * 0.5)
 * uWindTurbulence u * uWindIntensity u)%num.

Definition sway : num :=
(windIntensity * heightFactor
 * (1.0 + uWindNoiseFactor u * (noise1 + noise2)))%num.

Definition worldPos : vec4 :=
let worldPos :=
  mat4_mul_vec4 (instanceMatrix a)
    (Vec4 (vx (position a)) (vy (position a)) (vz (position a)) 1.0) in
let worldPos :=
  Vec4 (v4x worldPos + vx windVector * sway * 2.0)%num (v4y worldPos)
    (v4z worldPos) (v4w worldPos) in
Vec4 (v4x worldPos) (v4y worldPos)
  (v4z worldPos + vz windVector * sway * 2.0)%num (v4w worldPos).

Definition main : vertex_outputs :=
{| vColor := mix (rgb (uColorBottom u)) (rgb (uColorTop u)) t;
   gl_Position :=
     mat4_mul_vec4 (mat4_mul projectionMatrix modelViewMatrix)
       worldPos |}.

End VertexShader.

End Shader.

End Simple.

(** ** Finite inputs, and the wind signal as the specification words it *)

Definition finite3 (v : vec3) : Prop :=
  finite (vx v) /\ finite (vy v) /\ finite (vz v).

Module RichInputs.

(** A finite wind state. *)
Definition finite_uniforms (u : Rich.uniforms) : Prop :=
  finite (Rich.uTime u) /\ finite (Rich.uWindSpeed u)
  /\ finite3 (Rich.uWindDirection u)
  /\ finite (Rich.uWindNoiseFactor u) /\ finite (Rich.uWindTurbulence u)
  /\ finite (Rich.uWindIntensity u) /\ finite (Rich.uBladeHeight u)
  /\ finite (Rich.uGustFrequency u) /\ finite (Rich.uGustIntensity u)
  /\ finite (Rich.uMicroMovement u) /\ finite (Rich.uWavePropagation u).

(** A vertex with a finite position, instance position and attributes. *)
Definition finite_inputs (a : Rich.Shader.vertex_inputs) : Prop :=
  finite3 (Rich.Shader.position a)
  /\ finite3 (xyz (col3 (Rich.Shader.instanceMatrix a)))
  /\ finite (Rich.Shader.aBladeHeight a)
  /\ finite (Rich.Shader.aStiffness a)
  /\ finite (Rich.Shader.aPhaseOffset a).

(** The same vertex of a blade of another stiffness. *)
Definition with_stiffness (a : Rich.Shader.vertex_inputs) (stiffness : num)
    : Rich.Shader.vertex_inputs :=
  {| Rich.Shader.position := Rich.Shader.position a;
     Rich.Shader.instanceMatrix := Rich.Shader.instanceMatrix a;
     Rich.Shader.aBladeHeight := Rich.Shader.aBladeHeight a;
     Rich.Shader.aStiffness := stiffness;
     Rich.Shader.aPhaseOffset := Rich.Shader.aPhaseOffset a |}.

End RichInputs.

Module SimpleInputs.

Definition finite_uniforms (u : Simple.uniforms) : Prop :=
  finite (Simple.uTime u) /\ finite (Simple.uWindSpeed u)
  /\ finite3 (Simple.uWindDirection u)
  /\ finite (Simple.uWindNoiseFactor u) /\ finite (Simple.uWindTurbulence u)
  /\ finite (Simple.uWindIntensity u) /\ finite (Simple.uBladeHeight u).

Definition finite_inputs (a : Simple.Shader.vertex_inputs) : Prop :=
  finite3 (Simple.Shader.position a)
  /\ finite3 (xyz (col3 (Simple.Shader.instanceMatrix a))).

End SimpleInputs.

(** The raw wind signal in the words of the specification: the weighted sum
    of the three waves (the third one optional), the gust, the spatial wave
    and the individual phase, multiplied by turbulence times intensity. *)
Definition spec_raw_wind (windTime noise1 noise2 : num) (noise3 : option num)
    (worldX worldZ gust spatialWave individualPhase turbulence intensity
       : num) : num :=
  let primary :=
    (Num.sin (windTime + noise1 * 2 + worldX * 0.01) * 0.5)%num in
  let secondary :=
    (Num.cos (windTime * 0.5 + noise2 * 2 + worldZ * 0.01) * 0.3)%num in
  let waves :=
    match noise3 with
    | Some n3 =>
        (primary + secondary + Num.sin (windTime * 0.2 + n3) * 0.2)%num
    | None => (primary + secondary)%num
    end in
  ((waves + gust + spatialWave * 0.3 + individualPhase)
   * (turbulence * intensity))%num.

(** The raw wind signal of the simple shader, written the same way. *)
Definition simple_raw_wind (windTime noise1 noise2 turbulence intensity : num)
    : num :=
  ((Num.sin (windTime + noise1 * 2) * 0.7
    + Num.cos (windTime * 1.5 + noise2 * 2) * 0.5)
   * (turbulence * intensity))%num.

(** ** Wind states that differ in the clock only *)

(** The same uniforms at another time and wind speed. *)
Module RichClock.

Definition at_time (time speed : num) (u : Rich.uniforms) : Rich.uniforms :=
  {| Rich.uTime := time;
     Rich.uWindSpeed := speed;
     Rich.uWindDirection := Rich.uWindDirection u;
     Rich.uColorBottom := Rich.uColorBottom u;
     Rich.uColorTop := Rich.uColorTop u;
     Rich.uWindNoiseFactor := Rich.uWindNoiseFactor u;
     Rich.uWindTurbulence := Rich.uWindTurbulence u;
     Rich.uWindIntensity := Rich.uWindIntensity u;
     Rich.uBladeHeight := Rich.uBladeHeight u;
     Rich.uBladeWidth := Rich.uBladeWidth u;
     Rich.uGustFrequency := Rich.uGustFrequency u;
     Rich.uGustIntensity := Rich.uGustIntensity u;
     Rich.uMicroMovement := Rich.uMicroMovement u;
     Rich.uWavePropagation := Rich.uWavePropagation u |}.

End RichClock.

Module SimpleClock.

Definition at_time (time speed : num) (u : Simple.uniforms)
    : Simple.uniforms :=
  {| Simple.uTime := time;
     Simple.uWindSpeed := speed;
     Simple.uWindDirection := Simple.uWindDirection u;
     Simple.uColorBottom := Simple.uColorBottom u;
     Simple.uColorTop := Simple.uColorTop u;
     Simple.uWindNoiseFactor := Simple.uWindNoiseFactor u;
     Simple.uWindTurbulence := Simple.uWindTurbulence u;
     Simple.uWindIntensity := Simple.uWindIntensity u;
     Simple.uBladeHeight := Simple.uBladeHeight u;
     Simple.uBladeWidth := Simple.uBladeWidth u |}.

End SimpleClock.

(** ** Meshes the shader can draw *)

Module RichMesh.

(** What the vertex shader divides by is there and not zero: the base
    height is positive, every instance has a positive height and stiffness,
    and the blade does not reach under its base; the rest is finite. *)
Definition well_formed (m : Rich.mesh) : Prop :=
  (exists H : R,
      Rich.uBladeHeight (Rich.mesh_uniforms m) = fin H /\ 0 < H)
  /\ finite (Rich.closure_windGustFrequency m)
  /\ finite (Rich.closure_windGustIntensity m)
  /\ Forall (fun x => exists r : R, x = fin r /\ 0 < r)
       (Rich.geo_aBladeHeight (Rich.mesh_geometry m))
  /\ Forall (fun x => exists r : R, x = fin r /\ 0 < r)
       (Rich.geo_aStiffness (Rich.mesh_geometry m))
  /\ Forall finite (Rich.geo_aPhaseOffset (Rich.mesh_geometry m))
  /\ Forall (fun d => finite3 (obj_position d)) (Rich.mesh_instanceMatrix m)
  /\ forall (k : nat) (p : vec3),
      vertex (Rich.geo_position (Rich.mesh_geometry m)) k = Some p ->
      finite3 p /\ exists y : R, vy p = fin y /\ 0 <= y.

(** The inputs of one run of the vertex shader on the mesh: vertex [k] of
    the blade with the attributes of instance [i], and an instance matrix
    whose translation is the position of that instance. *)
Definition invocation (m : Rich.mesh) (a : Rich.Shader.vertex_inputs)
    : Prop :=
  exists (i k : nat) (d : Object3D),
    vertex (Rich.geo_position (Rich.mesh_geometry m)) k
    = Some (Rich.Shader.position a)
    /\ Rich.geo_aBladeHeight (Rich.mesh_geometry m) !! i
       = Some (Rich.Shader.aBladeHeight a)
    /\ Rich.geo_aStiffness (Rich.mesh_geometry m) !! i
       = Some (Rich.Shader.aStiffness a)
    /\ Rich.geo_aPhaseOffset (Rich.mesh_geometry m) !! i
       = Some (Rich.Shader.aPhaseOffset a)
    /\ Rich.mesh_instanceMatrix m !! i = Some d
    /\ xyz (col3 (Rich.Shader.instanceMatrix a)) = obj_position d.

End RichMesh.

(** ** The application (src/main.js) *)

(** The part of [class App] that drives the grass: the parameter object of
    [addDatGUI], and the methods [loadStage], [recreateGrass], [updateWind]
    and [animate] as far as they touch [this.grass], [this.time] and
    [this.grassParams].  The scene, the camera, the renderer and the GUI
    widgets are three.js and dat.GUI objects and are left out.  The
    generator is the rich one, whose options [grassParams] spells out. *)
Module App.

(** [this.grassParams]. *)
Record grassParams : Type := mkGrassParams {
  bladeHeight : num;
  bladeHeightVariation : num;
  bladeWidth : num;
  grassBlades : Z;
  windSpeed : num;
  windIntensity : num;
  windTurbulence : num;
  windDirectionX : num;
  windDirectionY : num;
  windDirectionZ : num;
  grassColorBottom : Z;
  grassColorTop : Z;
  windGustFrequency : num;
  windGustIntensity : num;
  microMovement : num;
  wavePropagation : num
}.

(** The object literal of [addDatGUI]. *)
Definition initial_grassParams : grassParams :=
  {| bladeHeight := fin 15;
     bladeHeightVariation := fin 0.4;
     bladeWidth := fin 0.5;
     grassBlades := 100000%Z;
     windSpeed := fin 3.0;
     windIntensity := fin 1.4;
     windTurbulence := fin 0.7;
     windDirectionX := fin 1;
     windDirectionY := fin 0;
     windDirectionZ := fin 1;
     grassColorBottom := 0x0c3302%Z;
     grassColorTop := 0x7f7f19%Z;
     windGustFrequency := fin 0.15;
     windGustIntensity := fin 0.35;
     microMovement := fin 0.2;
     wavePropagation := fin 0.05 |}.

(** [this.grassParams] read as the options of [createGrassMesh]: it has
    every key of the destructuring pattern but [grassPatchSize] and
    [verticesPerBlade]. *)
Definition as_options (p : grassParams) : Rich.options :=
  {| Rich.bladeHeight := Some (bladeHeight p);
     Rich.bladeHeightVariation := Some (bladeHeightVariation p);
     Rich.bladeWidth := Some (bladeWidth p);
     Rich.grassBlades := Some (grassBlades p);
     Rich.grassPatchSize := None;
     Rich.windSpeed := Some (windSpeed p);
     Rich.windDirectionX := Some (windDirectionX p);
     Rich.windDirectionY := Some (windDirectionY p);
     Rich.windDirectionZ := Some (windDirectionZ p);
     Rich.windIntensity := Some (windIntensity p);
     Rich.windTurbulence := Some (windTurbulence p);
     Rich.grassColorTop := Some (grassColorTop p);
     Rich.grassColorBottom := Some (grassColorBottom p);
     Rich.verticesPerBlade := None;
     Rich.windGustFrequency := Some (windGustFrequency p);
     Rich.windGustIntensity := Some (windGustIntensity p);
     Rich.microMovement := Some (microMovement p);
     Rich.wavePropagation := Some (wavePropagation p) |}.

(** [this.grassParams] read as the options of [mesh.updateWind]: it has the
    keys [windSpeed], [windIntensity], [windTurbulence], [microMovement] and
    [wavePropagation] of the pattern, and no key named [windDirection],
    [gustFrequency] or [gustIntensity]. *)
Definition as_wind_options (p : grassParams) : Rich.wind_options :=
  {| Rich.upd_windSpeed := Some (windSpeed p);
     Rich.upd_windDirection := None;
     Rich.upd_windIntensity := Some (windIntensity p);
     Rich.upd_windTurbulence := Some (windTurbulence p);
     Rich.upd_gustFrequency := None;
     Rich.upd_gustIntensity := None;
     Rich.upd_microMovement := Some (microMovement p);
     Rich.upd_wavePropagation := Some (wavePropagation p) |}.

(** [this.grass], [this.time] and [this.grassParams] once the constructor
    and the first call of [animate] have run. *)
Record state : Type := mkState {
  grass : Rich.mesh;
  time : num;
  params : grassParams
}.

(** The wind parameters [animate] hands to the mesh are finite. *)
Definition finite_wind (p : grassParams) : Prop :=
  finite (windSpeed p) /\ finite (windIntensity p)
  /\ finite (windTurbulence p) /\ finite (microMovement p)
  /\ finite (wavePropagation p).

Section WithRandom.

Variable rand : nat -> R.

(** [loadStage]: [this.addDatGUI(); this.grass = createGrassMesh()]. *)
Definition loadStage : M (Rich.mesh * grassParams) :=
  let grassParams := initial_grassParams in
  let* grass := Rich.createGrassMesh rand Rich.no_options in
  ret (grass, grassParams).

(** [recreateGrass]. *)
Definition recreateGrass (this : state) : M state :=
  let* newGrassMesh :=
    Rich.createGrassMesh rand (as_options (params this)) in
  ret {| grass := newGrassMesh;
         time := time this;
         params := params this |}.

(** [updateWind]; [this.grass] is a mesh, so the test succeeds. *)
Definition updateWind (this : state) : M state :=
  let windDirection :=
    Vec3 (windDirectionX (params this)) (windDirectionY (params this))
      (windDirectionZ (params this)) in
  let* grass :=
    Rich.mesh_updateWind rand (grass this) (time this)
      {| Rich.upd_windSpeed := Some (windSpeed (params this));
         Rich.upd_windDirection := Some windDirection;
         Rich.upd_windIntensity := Some (windIntensity (params this));
         Rich.upd_windTurbulence := Some (windTurbulence (params this));
         Rich.upd_gustFrequency := Some (windGustFrequency (params this));
         Rich.upd_gustIntensity := Some (windGustIntensity (params this));
         Rich.upd_microMovement := Some (microMovement (params this));
         Rich.upd_wavePropagation :=
           Some (wavePropagation (params this)) |} in
  ret {| grass := grass; time := time this; params := params this |}.

(** [animate], up to the call of the renderer; [elapsed] is the value of
    [clock.getElapsedTime()]. *)
Definition animate (elapsed : num) (this : state) : M state :=
  let time := elapsed in
  let* grass :=
    Rich.mesh_updateWind rand (grass this) time
      (as_wind_options (params this)) in
  ret {| grass := grass; time := time; params := params this |}.

End WithRandom.

End App.

(** ** Binary floating point *)

Module IEEE.

(** A binary format: the number of significant bits, the exponent of the
    last bit of the smallest subnormal, and the exponent of the first power
    of two that is too large. *)
Record format : Type := mkFormat { prec : Z; emin : Z; emax : Z }.

Definition binary64 : format := mkFormat 53 (-1074) 1024.
Definition binary32 : format := mkFormat 24 (-149) 128.

Definition pow2 (e : Z) : R := powerRZ 2 e.

(** [floor (log2 x)] for a positive [x]. *)
Definition ilog2 (x : R) : Z := Int_part (ln x / ln 2).

(** The nearest integer, ties to the even one. *)
Definition nearest_even (t : R) : Z :=
  let f := Int_part t in
  let d := t - IZR f in
  if Rlt_dec d (1 / 2) then f
  else if Rlt_dec (1 / 2) d then (f + 1)%Z
  else if Z.even f then f else (f + 1)%Z.

(** The exponent of the last bit of the numbers of the format around
    [x]. *)
Definition cexp (f : format) (x : R) : Z :=
  Z.max (ilog2 (Rabs x) - (prec f - 1)) (emin f).

(** Rounding to nearest, ties to even, as if the exponent were not bounded
    above. *)
Definition round_unbounded (f : format) (x : R) : R :=
  if Req_dec_T x 0 then 0
  else IZR (nearest_even (x / pow2 (cexp f x))) * pow2 (cexp f x).

(** Rounding to the format: a result of magnitude [2 ^ emax] or more is an
    infinity. *)
Definition round (f : format) (x : R) : num :=
  let y := round_unbounded f x in
  if Rlt_dec (Rabs y) (pow2 (emax f)) then Some y else None.

End IEEE.

(** ** JavaScript numbers and [Float32Array] elements, with their roundings *)

Declare Scope js_scope.
Delimit Scope js_scope with js.

(** A JavaScript number is a binary64 value: a decimal literal denotes the
    nearest one, and every arithmetic operation returns the nearest one to
    the exact result.  The non-finite value stands for NaN and for both
    infinities, so an operation on it gives it back; the one operation of
    JavaScript that leads from an infinity to a finite number, a division
    by it, does not occur: the divisors of the code are the literal 2 and
    the loop bound [verticesCount - 1]. *)
Module JS.

Definition number (x : R) : num := IEEE.round IEEE.binary64 x.

Definition add (a b : num) : num :=
  match a, b with
  | Some x, Some y => number (x + y)
  | _, _ => None
  end.

Definition sub (a b : num) : num :=
  match a, b with
  | Some x, Some y => number (x - y)
  | _, _ => None
  end.

Definition mul (a b : num) : num :=
  match a, b with
  | Some x, Some y => number (x * y)
  | _, _ => None
  end.

Definition div (a b : num) : num :=
  match a, b with
  | Some x, Some y => if Req_dec_T y 0 then None else number (x / y)
  | _, _ => None
  end.

(** [Math.PI]. *)
Definition Math_PI : num := number PI.

(** An integer loop counter or count, as a number. *)
Definition of_Z (z : Z) : num := number (IZR z).

Arguments add (a b)%_js.
Arguments sub (a b)%_js.
Arguments mul (a b)%_js.
Arguments div (a b)%_js.

End JS.

Infix "+" := JS.add : js_scope.
Infix "-" := JS.sub : js_scope.
Infix "*" := JS.mul : js_scope.
Infix "/" := JS.div : js_scope.
Notation "- x" := (Num.neg x) : js_scope.

(** Writing a number into a [Float32Array] rounds it to binary32; reading
    the element back gives that value. *)
Definition fround (a : num) : num :=
  match a with
  | Some x => IEEE.round IEEE.binary32 x
  | None => None
  end.

Definition store_float32 (a : list num) (i : Z) (v : num) : list num :=
  store a i (fround v).

(** *** The rich generator, roundings written out *)

(** The code of [createGrassMesh] and its two closures once more, with
    every literal, every operation and every store into a [Float32Array]
    rounded as the engine rounds it.  [Math_sin] is the engine's
    [Math.sin], which ECMAScript leaves implementation-approximated. *)
Module RichIEEE.

Section WithRandom.

Variable rand : nat -> R.
Variable Math_sin : num -> num.

(** three.js gives every geometry, material and object it constructs an
    identifier drawn with [Math.random]; [uuid_draws] is the number of
    draws one identifier takes. *)
Variable uuid_draws : nat.

Definition THREE_object : M unit :=
  fun n => Ok (tt, (n + uuid_draws)%nat).

Definition actualBladeHeight (baseBladeHeight bladeHeightVariation r : num)
    : num :=
  (baseBladeHeight
   * (JS.number 1 - bladeHeightVariation / JS.number 2
      + r * bladeHeightVariation))%js.

Definition generateBladeVertices (bladeHeightVariation : num)
    (baseBladeHeight bladeWidth : num) (verticesCount : Z)
    : M (list num) :=
  let* r := Math_random rand in
  let actualBladeHeight :=
    actualBladeHeight baseBladeHeight bladeHeightVariation r in
  let* vertices := new_array (fin 0) (verticesCount * 3)%Z in
  let vertices :=
    store_float32 vertices 0%Z (- bladeWidth / JS.number 2)%js in
  let vertices := store_float32 vertices 1%Z (JS.number 0) in
  let vertices := store_float32 vertices 2%Z (JS.number 0) in
  let vertices :=
    store_float32 vertices ((verticesCount - 1) * 3)%Z
      (bladeWidth / JS.number 2)%js in
  let vertices :=
    store_float32 vertices ((verticesCount - 1) * 3 + 1)%Z
      actualBladeHeight in
  let vertices :=
    store_float32 vertices ((verticesCount - 1) * 3 + 2)%Z (JS.number 0) in
  for_range 1%Z (verticesCount - 1)%Z
    (fun i vertices =>
       let t := (JS.of_Z i / JS.of_Z (verticesCount - 1))%js in
       let curveFactor :=
         (Math_sin (JS.Math_PI * t)%js * actualBladeHeight
          * JS.number 0.25)%js in
       let* r1 := Math_random rand in
       let vertices :=
         store_float32 vertices (i * 3)%Z
           ((r1 - JS.number 0.5) * bladeWidth
            * (JS.number 1
               - Num.abs (t - JS.number 0.5)%js * JS.number 2))%js in
       let vertices :=
         store_float32 vertices (i * 3 + 1)%Z
           (t * actualBladeHeight + curveFactor)%js in
       let* r2 := Math_random rand in
       let vertices :=
         store_float32 vertices (i * 3 + 2)%Z
           ((r2 - JS.number 0.5) * JS.number 0.05)%js in
       ret vertices)
    vertices.

(** The three loops of [createGrassMesh] that fill the instance attributes
    and the instance matrices.  Of the sixteen elements of an instance
    matrix the record keeps the three that are the position, as the
    [Float32Array] holds them; [obj_rotation] and [obj_scale] are the numbers
    handed to three.js, which composes the other elements from them. *)
Definition createGrassMesh (options : Rich.options) : M Rich.mesh :=
  let bladeHeight := dflt (JS.number 15) (Rich.bladeHeight options) in
  let bladeHeightVariation :=
    dflt (JS.number 0.4) (Rich.bladeHeightVariation options) in
  let bladeWidth := dflt (JS.number 0.5) (Rich.bladeWidth options) in
  let grassBlades := dflt 100000%Z (Rich.grassBlades options) in
  let grassPatchSize :=
    dflt (JS.number 200) (Rich.grassPatchSize options) in
  let windSpeed := dflt (JS.number 3.0) (Rich.windSpeed options) in
  let windDirectionX := dflt (JS.number 1) (Rich.windDirectionX options) in
  let windDirectionY := dflt (JS.number 0) (Rich.windDirectionY options) in
  let windDirectionZ := dflt (JS.number 1) (Rich.windDirectionZ options) in
  let windIntensity := dflt (JS.number 1.4) (Rich.windIntensity options) in
  let windTurbulence :=
    dflt (JS.number 0.7) (Rich.windTurbulence options) in
  let grassColorTop := dflt 0x7f7f19%Z (Rich.grassColorTop options) in
  let grassColorBottom :=
    dflt 0x0c3302%Z (Rich.grassColorBottom options) in
  let verticesPerBlade := dflt 3%Z (Rich.verticesPerBlade options) in
  let windGustFrequency :=
    dflt (JS.number 0.15) (Rich.windGustFrequency options) in
  let windGustIntensity :=
    dflt (JS.number 0.35) (Rich.windGustIntensity options) in
  let microMovement := dflt (JS.number 0.2) (Rich.microMovement options) in
  let wavePropagation :=
    dflt (JS.number 0.05) (Rich.wavePropagation options) in
  let windDirection :=
    Vec3 windDirectionX windDirectionY windDirectionZ in
  let* bladeHeights := new_array (fin 0) grassBlades in
  let* bladeStiffness := new_array (fin 0) grassBlades in
  let* filled :=
    for_range 0%Z grassBlades
      (fun i (arrays : list num * list num) =>
         let (bladeHeights, bladeStiffness) := arrays in
         let* r1 := Math_random rand in
         let bladeHeights :=
           store_float32 bladeHeights i
             (actualBladeHeight bladeHeight bladeHeightVariation r1) in
         let* r2 := Math_random rand in
         let bladeStiffness :=
           store_float32 bladeStiffness i
             (JS.number 0.7 + r2 * JS.number 0.6)%js in
         ret (bladeHeights, bladeStiffness))
      (bladeHeights, bladeStiffness) in
  let (bladeHeights, bladeStiffness) := filled in
  let* vertices :=
    generateBladeVertices bladeHeightVariation bladeHeight bladeWidth
      verticesPerBlade in
  let* indices := Rich.generateBladeIndices verticesPerBlade in
  let* geometry_id := THREE_object in
  let* instanceBladeHeights := new_array (fin 0) grassBlades in
  let* instanceBladeStiffness := new_array (fin 0) grassBlades in
  let* instancePhaseOffsets := new_array (fin 0) grassBlades in
  let* attributes :=
    for_range 0%Z grassBlades
      (fun i (arrays : list num * list num * list num) =>
         let '(heights, stiffness, phases) := arrays in
         let heights :=
           store_float32 heights i (to_float (load bladeHeights i)) in
         let stiffness :=
           store_float32 stiffness i (to_float (load bladeStiffness i)) in
         let* r := Math_random rand in
         let phases :=
           store_float32 phases i (r * JS.Math_PI * JS.number 2)%js in
         ret (heights, stiffness, phases))
      (instanceBladeHeights, instanceBladeStiffness,
       instancePhaseOffsets) in
  let '(instanceBladeHeights, instanceBladeStiffness,
        instancePhaseOffsets) := attributes in
  let geometry :=
    Rich.mkGeometry vertices indices instanceBladeHeights
      instanceBladeStiffness instancePhaseOffsets in
  let uniforms :=
    {| Rich.uTime := JS.number 0;
       Rich.uWindSpeed := windSpeed;
       Rich.uWindDirection := windDirection;
       Rich.uColorBottom := mkColor grassColorBottom;
       Rich.uColorTop := mkColor grassColorTop;
       Rich.uWindNoiseFactor := JS.number 1.0;
       Rich.uWindTurbulence := windTurbulence;
       Rich.uWindIntensity := windIntensity;
       Rich.uBladeHeight := bladeHeight;
       Rich.uBladeWidth := bladeWidth;
       Rich.uGustFrequency := windGustFrequency;
       Rich.uGustIntensity := windGustIntensity;
       Rich.uMicroMovement := microMovement;
       Rich.uWavePropagation := wavePropagation |} in
  let* material_id := THREE_object in
  let* mesh_id := THREE_object in
  let* dummy_id := THREE_object in
  let* instanceMatrix := new_matrix_array grassBlades in
  let* instanceMatrix :=
    for_range 0%Z grassBlades
      (fun i instanceMatrix =>
         let* r1 := Math_random rand in
         let x := ((r1 - JS.number 0.5) * grassPatchSize)%js in
         let* r2 := Math_random rand in
         let z := ((r2 - JS.number 0.5) * grassPatchSize)%js in
         let* r3 := Math_random rand in
         let* r4 := Math_random rand in
         let* r5 := Math_random rand in
         let dummy :=
           {| obj_position := Vec3 x (JS.number 0) z;
              obj_rotation :=
                Vec3 ((r3 - JS.number 0.5) * JS.number 0.5)%js
                  (r4 * JS.Math_PI * JS.number 2)%js
                  ((r5 - JS.number 0.5) * JS.number 0.5)%js;
              obj_scale := Vec3 (JS.number 1) (JS.number 1) (JS.number 1) |} in
         let block :=
           {| obj_position :=
                Vec3 (fround (vx (obj_position dummy)))
                  (fround (vy (obj_position dummy)))
                  (fround (vz (obj_position dummy)));
              obj_rotation := obj_rotation dummy;
              obj_scale := obj_scale dummy |} in
         ret (store instanceMatrix i block))
      instanceMatrix in
  ret {| Rich.mesh_geometry := geometry;
         Rich.mesh_uniforms := uniforms;
         Rich.mesh_count := grassBlades;
         Rich.mesh_instanceMatrix := instanceMatrix;
         Rich.closure_windGustFrequency := windGustFrequency;
         Rich.closure_windGustIntensity := windGustIntensity |}.

(** [updateWind(time, options)] of the returned mesh. *)
Definition updateWind (windGustFrequency windGustIntensity : num)
    (time : num) (options : Rich.wind_options) (u : Rich.uniforms)
    : M Rich.uniforms :=
  let* windSpeed :=
    destructure (Rich.upd_windSpeed options) (ret (JS.number 3.0)) in
  let* windDirection :=
    destructure (Rich.upd_windDirection options)
      (ret (Vec3 (JS.number 1) (JS.number 0) (JS.number 1))) in
  let* windIntensity :=
    destructure (Rich.upd_windIntensity options) (ret (JS.number 0.5)) in
  let* windTurbulence :=
    destructure (Rich.upd_windTurbulence options) (ret (JS.number 0.7)) in
  let* gustFrequency :=
    destructure (Rich.upd_gustFrequency options) (ret windGustFrequency) in
  let* gustIntensity :=
    destructure (Rich.upd_gustIntensity options) (ret windGustIntensity) in
  let* microMovement :=
    destructure (Rich.upd_microMovement options)
      (read_binding Uninitialized) in
  let* wavePropagation :=
    destructure (Rich.upd_wavePropagation options)
      (read_binding Uninitialized) in
  let* r := Math_random rand in
  ret {| Rich.uTime := time;
         Rich.uWindSpeed := windSpeed;
         Rich.uWindDirection := windDirection;
         Rich.uColorBottom := Rich.uColorBottom u;
         Rich.uColorTop := Rich.uColorTop u;
         Rich.uWindNoiseFactor := (JS.number 0.5 + r * JS.number 0.5)%js;
         Rich.uWindTurbulence := windTurbulence;
         Rich.uWindIntensity := windIntensity;
         Rich.uBladeHeight := Rich.uBladeHeight u;
         Rich.uBladeWidth := Rich.uBladeWidth u;
         Rich.uGustFrequency := gustFrequency;
         Rich.uGustIntensity := gustIntensity;
         Rich.uMicroMovement := microMovement;
         Rich.uWavePropagation := wavePropagation |}.

End WithRandom.

End RichIEEE.

(** *** The simple generator, roundings written out *)

Module SimpleIEEE.

Section WithRandom.

Variable rand : nat -> R.
Variable Math_sin : num -> num.

Definition generateBladeVertices (bladeHeight bladeWidth : num)
    (verticesCount : Z) : M (list num) :=
  let* vertices := new_array (fin 0) (verticesCount * 3)%Z in
  let vertices :=
    store_float32 vertices 0%Z (- bladeWidth / JS.number 2)%js in
  let vertices := store_float32 vertices 1%Z (JS.number 0) in
  let vertices := store_float32 vertices 2%Z (JS.number 0) in
  let vertices :=
    store_float32 vertices ((verticesCount - 1) * 3)%Z
      (bladeWidth / JS.number 2)%js in
  let vertices :=
    store_float32 vertices ((verticesCount - 1) * 3 + 1)%Z bladeHeight in
  let vertices :=
    store_float32 vertices ((verticesCount - 1) * 3 + 2)%Z (JS.number 0) in
  for_range 1%Z (verticesCount - 1)%Z
    (fun i vertices =>
       let t := (JS.of_Z i / JS.of_Z (verticesCount - 1))%js in
       let curveFactor :=
         (Math_sin (JS.Math_PI * t)%js * bladeHeight * JS.number 0.2)%js in
       let* r1 := Math_random rand in
       let vertices :=
         store_float32 vertices (i * 3)%Z
           ((r1 - JS.number 0.5) * bladeWidth
            * (JS.number 1
               - Num.abs (t - JS.number 0.5)%js * JS.number 2))%js in
       let vertices :=
         store_float32 vertices (i * 3 + 1)%Z
           (t * bladeHeight + curveFactor)%js in
       let* r2 := Math_random rand in
       let vertices :=
         store_float32 vertices (i * 3 + 2)%Z
           ((r2 - JS.number 0.5) * JS.number 0.05)%js in
       ret vertices)
    vertices.

(** [updateWind(time, options)] of the returned mesh. *)
Definition updateWind (time : num) (options : Simple.wind_options)
    (u : Simple.uniforms) : M Simple.uniforms :=
  let* windSpeed :=
    destructure (Simple.upd_windSpeed options) (ret (JS.number 5.5)) in
  let* windDirection :=
    destructure (Simple.upd_windDirection options)
      (ret (Vec3 (JS.number 1) (JS.number 0) (JS.number 1))) in
  let* windIntensity :=
    destructure (Simple.upd_windIntensity options) (ret (JS.number 1.0)) in
  let* windTurbulence :=
    destructure (Simple.upd_windTurbulence options)
      (ret (JS.number 0.8)) in
  let* r := Math_random rand in
  ret {| Simple.uTime := time;
         Simple.uWindSpeed := windSpeed;
         Simple.uWindDirection := windDirection;
         Simple.uColorBottom := Simple.uColorBottom u;
         Simple.uColorTop := Simple.uColorTop u;
         Simple.uWindNoiseFactor := (JS.number 0.5 + r * JS.number 0.5)%js;
         Simple.uWindTurbulence := windTurbulence;
         Simple.uWindIntensity := windIntensity;
         Simple.uBladeHeight := Simple.uBladeHeight u;
         Simple.uBladeWidth := Simple.uBladeWidth u |}.

End WithRandom.

End SimpleIEEE.

(** * Properties *)

(** ** Running computations *)

Lemma bind_ok {A B : Type} (m : M A) (k : A -> M B) (n n' : nat) (a : A) :
  m n = Ok (a, n') -> bind m k n = k a n'.
Proof. intros H. unfold bind. rewrite H. reflexivity. Qed.

Lemma bind_throw {A B : Type} (m : M A) (k : A -> M B) (n : nat) (e : exn) :
  m n = Throw e -> bind m k n = Throw e.
Proof. intros H. unfold bind. rewrite H. reflexivity. Qed.

Lemma new_array_ok {A : Type} (zero : A) (len : Z) (n : nat) :
  (0 <= len)%Z ->
  new_array zero len n = Ok (replicate (Z.to_nat len) zero, n).
Proof.
  intros H. unfold new_array.
  destruct (Z.ltb_spec len 0); [lia | reflexivity].
Qed.

Lemma new_array_throw {A : Type} (zero : A) (len : Z) (n : nat) :
  (len < 0)%Z -> new_array zero len n = Throw RangeError.
Proof.
  intros H. unfold new_array.
  destruct (Z.ltb_spec len 0); [reflexivity | lia].
Qed.

Lemma new_matrix_array_ok (count : Z) (n : nat) :
  (0 <= count)%Z ->
  new_matrix_array count n = Ok (replicate (Z.to_nat count) zero_block, n).
Proof.
  intros H. unfold new_matrix_array.
  destruct (Z.ltb_spec (count * 16) 0); [lia | reflexivity].
Qed.

Lemma length_store {A : Type} (a : list A) (i : Z) (v : A) :
  length (store a i v) = length a.
Proof. unfold store. destruct (i <? 0)%Z; [reflexivity | apply length_insert]. Qed.

Lemma Forall_store {A : Type} (P : A -> Prop) (a : list A) (i : Z) (v : A) :
  Forall P a -> P v -> Forall P (store a i v).
Proof.
  intros Ha Hv. unfold store.
  destruct (i <? 0)%Z; [assumption | now apply Forall_insert].
Qed.

Lemma lookup_store_eq {A : Type} (a : list A) (i : Z) (v : A) :
  (0 <= i < Z.of_nat (length a))%Z ->
  store a i v !! Z.to_nat i = Some v.
Proof.
  intros H. unfold store.
  destruct (Z.ltb_spec i 0); [lia |].
  apply list_lookup_insert_eq. lia.
Qed.

Lemma lookup_store_ne {A : Type} (a : list A) (i : Z) (v : A) (k : nat) :
  (i <> Z.of_nat k)%Z ->
  store a i v !! k = a !! k.
Proof.
  intros H. unfold store.
  destruct (Z.ltb_spec i 0); [reflexivity |].
  apply list_lookup_insert_ne. lia.
Qed.

(** A loop whose body keeps an invariant and never throws runs to the end
    and establishes the invariant at the exit index. *)
Lemma for_loop_inv {S : Type} (P : Z -> S -> nat -> Prop)
    (body : Z -> S -> M S) (count : nat) :
  forall (i : Z) (s : S) (n : nat),
    P i s n ->
    (forall j s n,
        (i <= j < i + Z.of_nat count)%Z -> P j s n ->
        exists s' n', body j s n = Ok (s', n') /\ P (j + 1)%Z s' n') ->
    exists s' n',
      for_loop count i body s n = Ok (s', n')
      /\ P (i + Z.of_nat count)%Z s' n'.
Proof.
  induction count as [| count IH]; intros i s n HP Hbody.
  - exists s, n. split; [reflexivity |].
    now replace (i + Z.of_nat 0)%Z with i by lia.
  - destruct (Hbody i s n) as (s1 & n1 & Hrun & HP1); [lia | assumption |].
    destruct (IH (i + 1)%Z s1 n1 HP1) as (s2 & n2 & Hrest & HP2).
    { intros j s' n' Hj. apply Hbody. lia. }
    exists s2, n2. split.
    + cbn [for_loop]. rewrite (bind_ok _ _ _ _ _ Hrun). exact Hrest.
    + now replace (i + Z.of_nat (Datatypes.S count))%Z
        with (i + 1 + Z.of_nat count)%Z by lia.
Qed.

Lemma for_range_inv {S : Type} (P : Z -> S -> nat -> Prop)
    (body : Z -> S -> M S) (start stop : Z) (s : S) (n : nat) :
  (start <= stop)%Z ->
  P start s n ->
  (forall j s n,
      (start <= j < stop)%Z -> P j s n ->
      exists s' n', body j s n = Ok (s', n') /\ P (j + 1)%Z s' n') ->
  exists s' n', for_range start stop body s n = Ok (s', n') /\ P stop s' n'.
Proof.
  intros Hle HP Hbody. unfold for_range.
  destruct (for_loop_inv P body (Z.to_nat (stop - start)) start s n HP)
    as (s' & n' & Hrun & HP').
  { intros j s0 n0 Hj. apply Hbody. lia. }
  exists s', n'. split; [exact Hrun |].
  now replace (start + Z.of_nat (Z.to_nat (stop - start)))%Z with stop
    in HP' by lia.
Qed.

Lemma to_uint32_range (z bound : Z) :
  (0 <= z < bound)%Z -> (0 <= to_uint32 z < bound)%Z.
Proof.
  intros H. unfold to_uint32.
  pose proof (Z.mod_pos_bound z (2 ^ 32) ltac:(lia)).
  pose proof (Z.mod_le z (2 ^ 32) ltac:(lia) ltac:(lia)). lia.
Qed.

(** Step over an allocation whose length is known to be non-negative. *)
Ltac run_new_array :=
  match goal with
  | |- context [bind (new_array ?z ?len) ?k ?n] =>
      rewrite (bind_ok (new_array z len) k n n _
                 (new_array_ok z len n ltac:(lia)))
  end.

(** Run the code on concrete sizes, leaving the arithmetic on numbers
    as it is written. *)
Ltac run_js :=
  cbv -[Num.add Num.sub Num.mul Num.div Num.neg Num.sin Num.cos Num.abs
        Num.pow Num.of_Z Math_PI fin IZR Q2R].

(** ** Blade indices *)

(** The triangle fan of the rich generator: [(verticesCount - 2) * 3]
    indices, each of them the index of a generated vertex. *)
Lemma rich_generateBladeIndices_fan (verticesCount : Z) (n : nat) :
  (2 <= verticesCount)%Z ->
  exists indices,
    Rich.generateBladeIndices verticesCount n = Ok (indices, n)
    /\ length indices = Z.to_nat ((verticesCount - 2) * 3)
    /\ Forall (fun v => 0 <= v < verticesCount)%Z indices.
Proof.
  intros Hvc. unfold Rich.generateBladeIndices.
  run_new_array.
  set (len := Z.to_nat ((verticesCount - 2) * 3)).
  destruct (for_range_inv
              (fun (_ : Z) (a : list Z) (k : nat) =>
                 k = n /\ length a = len
                 /\ Forall (fun v => 0 <= v < verticesCount)%Z a)
              (fun i indices =>
                 let indices := store indices (i * 3)%Z (to_uint32 0) in
                 let indices :=
                   store indices (i * 3 + 1)%Z (to_uint32 (i + 1)) in
                 let indices :=
                   store indices (i * 3 + 2)%Z (to_uint32 (i + 2)) in
                 ret indices)
              0%Z (verticesCount - 2)%Z (replicate len 0%Z) n)
    as (indices & n' & Hrun & -> & Hlen & Hall).
  - lia.
  - repeat split.
    + apply length_replicate.
    + apply Forall_replicate. lia.
  - intros j a k Hj (-> & Hlen & Hall).
    cbv beta zeta delta [ret].
    eexists _, _. split; [reflexivity |].
    repeat split.
    + now rewrite !length_store.
    + repeat apply Forall_store; try assumption;
        apply to_uint32_range; lia.
  - exists indices. auto.
Qed.

(** The strip of the simple generator has [(verticesCount - 1) * 6]
    indices. *)
Lemma simple_generateBladeIndices_length (verticesCount : Z) (n : nat) :
  (1 <= verticesCount)%Z ->
  exists indices,
    Simple.generateBladeIndices verticesCount n = Ok (indices, n)
    /\ length indices = Z.to_nat ((verticesCount - 1) * 6).
Proof.
  intros Hvc. unfold Simple.generateBladeIndices.
  run_new_array.
  set (len := Z.to_nat ((verticesCount - 1) * 6)).
  match goal with
  | |- context [for_range ?lo ?hi ?body ?s0 n] =>
      destruct (for_range_inv
                  (fun (_ : Z) (a : list Z) (k : nat) =>
                     k = n /\ length a = len) body lo hi s0 n)
        as (indices & n' & Hrun & -> & Hlen)
  end.
  - lia.
  - split; [reflexivity | apply length_replicate].
  - intros j a k Hj (-> & Hlen).
    cbv beta zeta delta [ret].
    eexists _, _. split; [reflexivity |].
    split; [reflexivity |]. now rewrite !length_store.
  - exists indices. auto.
Qed.

(** C4 (the claim holds for the fan, the strip breaks it).  At the default
    blade of the simple generator, [verticesPerBlade = 3], the vertex array
    holds three vertices while the index list is
    [0 1 3  0 3 4  1 2 4  1 4 5]: the indices 3, 4 and 5 name vertices of a
    second row that [generateBladeVertices] never generates. *)
Theorem simple_generateBladeIndices_out_of_range (rand : nat -> R) (n : nat) :
  exists vertices n',
    Simple.generateBladeVertices rand 15 0.1 3 n = Ok (vertices, n')
    /\ vertex_count vertices = 3%nat
    /\ Simple.generateBladeIndices 3 n'
       = Ok ([0; 1; 3; 0; 3; 4; 1; 2; 4; 1; 4; 5]%Z, n')
    /\ vertex vertices 3 = None
    /\ vertex vertices 4 = None
    /\ vertex vertices 5 = None.
Proof.
  eexists _, _. split; [run_js; reflexivity |].
  repeat split.
Qed.

(** ** updateWind *)

(** C10.  In the rich generator, [updateWind] throws a ReferenceError as soon
    as [microMovement] or [wavePropagation] is missing from its options, and
    completes (after one draw for the noise factor) when both are there. *)
Theorem rich_updateWind_reference_error (rand : nat -> R)
    (windGustFrequency windGustIntensity time : num)
    (options : Rich.wind_options) (u : Rich.uniforms) (n : nat) :
  (Rich.upd_microMovement options = None
   \/ Rich.upd_wavePropagation options = None ->
   Rich.updateWind rand windGustFrequency windGustIntensity time options u n
   = Throw ReferenceError)
  /\ (is_Some (Rich.upd_microMovement options) ->
      is_Some (Rich.upd_wavePropagation options) ->
      exists u',
        Rich.updateWind rand windGustFrequency windGustIntensity time
          options u n
        = Ok (u', S n)).
Proof.
  destruct options as [ws wd wi wt gf gi mm wp]. cbn [Rich.upd_microMovement
    Rich.upd_wavePropagation]. split.
  - intros H. unfold Rich.updateWind. cbn.
    destruct ws, wd, wi, wt, gf, gi, mm, wp; cbn;
      solve [reflexivity | destruct H; discriminate].
  - intros [m ->] [w ->]. unfold Rich.updateWind. cbn.
    destruct ws, wd, wi, wt, gf, gi; cbn; eexists; reflexivity.
Qed.

Lemma rich_updateWind_reference_error_witness :
  Rich.updateWind (fun _ => 0) 0.15 0.35 1
    (Rich.mkWindOptions (Some (fin 2)) None None None None None None None)
    (Rich.mkUniforms 0 3 (Vec3 1 0 1) (mkColor 0) (mkColor 0) 1 0.7 1.4 15
       0.5 0.15 0.35 0.2 0.05) 0%nat
  = Throw ReferenceError
  /\ exists u',
      Rich.updateWind (fun _ => 0) 0.15 0.35 1
        (Rich.mkWindOptions (Some (fin 2)) None None None None None
           (Some (fin 0.2)) (Some (fin 0.05)))
        (Rich.mkUniforms 0 3 (Vec3 1 0 1) (mkColor 0) (mkColor 0) 1 0.7 1.4
           15 0.5 0.15 0.35 0.2 0.05) 0%nat
      = Ok (u', 1%nat).
Proof.
  split.
  - apply (rich_updateWind_reference_error (fun _ => 0) 0.15 0.35 1
             (Rich.mkWindOptions (Some (fin 2)) None None None None None
                None None)).
    left. reflexivity.
  - apply (rich_updateWind_reference_error (fun _ => 0) 0.15 0.35 1
             (Rich.mkWindOptions (Some (fin 2)) None None None None None
                (Some (fin 0.2)) (Some (fin 0.05)))).
    + eexists. reflexivity.
    + eexists. reflexivity.
Defined.

(** C2, as stated, fails.  With the wind speed uniform at 2, a call of
    [updateWind] that omits [windSpeed] leaves it at 5.5 in the simple
    generator and at 3.0 in the rich one. *)
Lemma updateWind_omitted_field_not_retained :
  (exists u',
      Simple.updateWind (fun _ => 0) 1
        (Simple.mkWindOptions None None None None)
        (Simple.mkUniforms 0 2 (Vec3 0 0 1) (mkColor 0) (mkColor 0) 1 0.3
           0.9 15 0.1) 0%nat
      = Ok (u', 1%nat)
      /\ Simple.uWindSpeed u' = fin 5.5
      /\ Simple.uWindSpeed u' <> fin 2)
  /\ (exists u',
         Rich.updateWind (fun _ => 0) 0.15 0.35 1
           (Rich.mkWindOptions None None None None None None
              (Some (fin 0.2)) (Some (fin 0.05)))
           (Rich.mkUniforms 0 2 (Vec3 0 0 1) (mkColor 0) (mkColor 0) 1 0.3
              0.9 15 0.5 0.15 0.35 0.2 0.05) 0%nat
         = Ok (u', 1%nat)
         /\ Rich.uWindSpeed u' = fin 3.0
         /\ Rich.uWindSpeed u' <> fin 2).
Proof.
  split; (eexists; split; [reflexivity |]; split; [reflexivity |]);
    cbn; intros H; injection H; lra.
Qed.

(** C2, amended.  A completed call of [updateWind] sets every wind uniform
    to the supplied field or, when the field is omitted, to the default
    written in the destructuring pattern (for the gust parameters of the rich
    generator: the value [createGrassMesh] was called with); the time is set,
    the noise factor is redrawn, and colours and blade dimensions stay. *)
Theorem updateWind_omitted_fields_take_defaults (rand : nat -> R)
    (time : num) (n : nat) :
  (forall (o : Simple.wind_options) (u : Simple.uniforms),
      Simple.updateWind rand time o u n
      = Ok ({| Simple.uTime := time;
               Simple.uWindSpeed := dflt (fin 5.5) (Simple.upd_windSpeed o);
               Simple.uWindDirection :=
                 dflt (Vec3 1 0 1) (Simple.upd_windDirection o);
               Simple.uColorBottom := Simple.uColorBottom u;
               Simple.uColorTop := Simple.uColorTop u;
               Simple.uWindNoiseFactor := (0.5 + fin (rand n) * 0.5)%num;
               Simple.uWindTurbulence :=
                 dflt (fin 0.8) (Simple.upd_windTurbulence o);
               Simple.uWindIntensity :=
                 dflt (fin 1.0) (Simple.upd_windIntensity o);
               Simple.uBladeHeight := Simple.uBladeHeight u;
               Simple.uBladeWidth := Simple.uBladeWidth u |}, S n))
  /\ (forall (windGustFrequency windGustIntensity : num)
        (o : Rich.wind_options) (u : Rich.uniforms) (mm wp : num),
         Rich.upd_microMovement o = Some mm ->
         Rich.upd_wavePropagation o = Some wp ->
         Rich.updateWind rand windGustFrequency windGustIntensity time o u n
         = Ok ({| Rich.uTime := time;
                  Rich.uWindSpeed := dflt (fin 3.0) (Rich.upd_windSpeed o);
                  Rich.uWindDirection :=
                    dflt (Vec3 1 0 1) (Rich.upd_windDirection o);
                  Rich.uColorBottom := Rich.uColorBottom u;
                  Rich.uColorTop := Rich.uColorTop u;
                  Rich.uWindNoiseFactor := (0.5 + fin (rand n) * 0.5)%num;
                  Rich.uWindTurbulence :=
                    dflt (fin 0.7) (Rich.upd_windTurbulence o);
                  Rich.uWindIntensity :=
                    dflt (fin 0.5) (Rich.upd_windIntensity o);
                  Rich.uBladeHeight := Rich.uBladeHeight u;
                  Rich.uBladeWidth := Rich.uBladeWidth u;
                  Rich.uGustFrequency :=
                    dflt windGustFrequency (Rich.upd_gustFrequency o);
                  Rich.uGustIntensity :=
                    dflt windGustIntensity (Rich.upd_gustIntensity o);
                  Rich.uMicroMovement := mm;
                  Rich.uWavePropagation := wp |}, S n)).
Proof.
  split.
  - intros [ws wd wi wt] u. destruct ws, wd, wi, wt; reflexivity.
  - intros wgf wgi [ws wd wi wt gf gi m w] u mm wp.
    cbn [Rich.upd_microMovement Rich.upd_wavePropagation].
    intros -> ->. destruct ws, wd, wi, wt, gf, gi; reflexivity.
Qed.

Lemma updateWind_omitted_fields_take_defaults_witness :
  Rich.updateWind (fun _ => 0) 0.15 0.35 1
    (Rich.mkWindOptions None None None None None None
       (Some (fin 0.2)) (Some (fin 0.05)))
    (Rich.mkUniforms 0 2 (Vec3 0 0 1) (mkColor 0) (mkColor 0) 1 0.3
       0.9 15 0.5 0.15 0.35 0.3 0.1) 0%nat
  = Ok (Rich.mkUniforms 1 3.0 (Vec3 1 0 1) (mkColor 0) (mkColor 0)
          (0.5 + fin 0 * 0.5)%num 0.7 0.5 15 0.5 0.15 0.35 0.2 0.05,
        1%nat).
Proof.
  exact (proj2 (updateWind_omitted_fields_take_defaults (fun _ => 0) 1 0%nat)
           0.15 0.35
           (Rich.mkWindOptions None None None None None None
              (Some (fin 0.2)) (Some (fin 0.05)))
           (Rich.mkUniforms 0 2 (Vec3 0 0 1) (mkColor 0) (mkColor 0) 1 0.3
              0.9 15 0.5 0.15 0.35 0.3 0.1)
           0.2 0.05 eq_refl eq_refl).
Defined.

(** ** Blade vertices *)

Lemma lookup_store {A : Type} (a : list A) (i : Z) (v : A) (k : nat) :
  (0 <= i < Z.of_nat (length a))%Z ->
  store a i v !! k = if decide (Z.of_nat k = i) then Some v else a !! k.
Proof.
  intros H. case_decide as Hk.
  - subst i. rewrite <- (Nat2Z.id k) at 1. now apply lookup_store_eq.
  - apply lookup_store_ne. lia.
Qed.

Lemma keeps_refl {A : Type} (a0 : list A) (lo hi : nat) : keeps a0 lo hi a0.
Proof. split; auto. Qed.

Lemma keeps_store {A : Type} (a0 a : list A) (lo hi : nat) (i : Z) (v : A) :
  keeps a0 lo hi a ->
  (Z.of_nat lo <= i < Z.of_nat hi)%Z ->
  keeps a0 lo hi (store a i v).
Proof.
  intros [Hlen Hout] Hi. split.
  - now rewrite length_store.
  - intros k Hk. rewrite lookup_store_ne by lia. now apply Hout.
Qed.

Lemma div_fin (x y : R) : y <> 0 -> (fin x / fin y)%num = fin (x / y).
Proof.
  intros Hy. unfold Num.div, fin.
  destruct (Req_dec_T y 0); [contradiction | reflexivity].
Qed.


(** Simplify arithmetic on finite numbers whose divisors are non-zero
    constants. *)
Ltac num_simpl :=
  repeat first
    [ rewrite div_fin by lra
    | progress cbn [Num.add Num.sub Num.mul Num.neg Num.abs Num.sin Num.cos
                    Num.lift1 Num.lift2 fin of_Z Math_PI] ].

Ltac solve_lookup :=
  repeat (rewrite lookup_store
            by (rewrite ?length_store, ?length_replicate; lia);
          case_decide; try lia);
  try reflexivity.

(** The interior loop of [generateBladeVertices] writes the elements
    [3 .. 3 * (verticesCount - 1) - 1] only, and draws twice per vertex. *)
Lemma rich_generateBladeVertices_run (rand : nat -> R)
    (variation height width : num) (verticesCount : Z) (n : nat) :
  (2 <= verticesCount)%Z ->
  let actual :=
    (height * (1 - variation / 2 + fin (rand n) * variation))%num in
  let init :=
    store (store (store (store (store (store
      (replicate (Z.to_nat (verticesCount * 3)) (fin 0))
      0%Z (- width / 2)%num) 1%Z (fin 0)) 2%Z (fin 0))
      ((verticesCount - 1) * 3)%Z (width / 2)%num)
      ((verticesCount - 1) * 3 + 1)%Z actual)
      ((verticesCount - 1) * 3 + 2)%Z (fin 0) in
  exists vertices,
    Rich.generateBladeVertices rand variation height width verticesCount n
    = Ok (vertices, (n + 1 + 2 * Z.to_nat (verticesCount - 2))%nat)
    /\ keeps init 3 (Z.to_nat ((verticesCount - 1) * 3)) vertices.
Proof.
  intros Hvc actual init. unfold Rich.generateBladeVertices.
  rewrite (bind_ok (Math_random rand) _ n (S n) (fin (rand n)) eq_refl).
  run_new_array. fold actual. cbv zeta. fold init.
  match goal with
  | |- context [for_range ?lo ?hi ?body ?s0 ?k0] =>
      destruct (for_range_inv
                  (fun (j : Z) (a : list num) (k : nat) =>
                     k = (n + 1 + 2 * Z.to_nat (j - 1))%nat
                     /\ keeps init 3 (Z.to_nat ((verticesCount - 1) * 3)) a)
                  body lo hi s0 k0)
        as (vertices & n' & Hrun & -> & Hkeeps)
  end.
  - lia.
  - split; [lia | apply keeps_refl].
  - intros j a k Hj (-> & Hkeeps).
    cbv beta zeta delta [ret bind Math_random].
    eexists _, _. split; [reflexivity |]. split; [lia |].
    repeat apply keeps_store; try assumption; lia.
  - exists vertices. split; [| assumption].
    rewrite Hrun. do 2 f_equal. lia.
Qed.

Lemma vertex_count_keeps (init vertices : list num) (lo hi : nat) :
  keeps init lo hi vertices -> vertex_count vertices = vertex_count init.
Proof. intros [Hlen _]. unfold vertex_count. now rewrite Hlen. Qed.

Lemma vertex_keeps (init vertices : list num) (lo hi k : nat) :
  keeps init lo hi vertices ->
  (3 * k + 2 < lo \/ hi <= 3 * k)%nat ->
  vertex vertices k = vertex init k.
Proof.
  intros [_ Hout] Hk. unfold vertex.
  rewrite !Hout by lia. reflexivity.
Qed.

(** ** The strip, for any number of vertices *)

(** Whatever the number of vertices, the first triangle of the strip names
    vertex [verticesCount], one past the last vertex generated. *)
Lemma simple_generateBladeIndices_second_row (verticesCount : Z) (n : nat) :
  (2 <= verticesCount < 2 ^ 32)%Z ->
  exists indices,
    Simple.generateBladeIndices verticesCount n = Ok (indices, n)
    /\ indices !! 2%nat = Some verticesCount.
Proof.
  intros Hvc. unfold Simple.generateBladeIndices.
  run_new_array.
  set (len := Z.to_nat ((verticesCount - 1) * 6)).
  match goal with
  | |- context [for_range ?lo ?hi ?body ?s0 n] =>
      destruct (for_range_inv
                  (fun (j : Z) (a : list Z) (k : nat) =>
                     k = n /\ length a = len
                     /\ ((1 <= j)%Z -> a !! 2%nat = Some verticesCount))
                  body lo hi s0 n)
        as (indices & n' & Hrun & -> & Hlen & Hsecond)
  end.
  - lia.
  - split; [reflexivity |]. split; [apply length_replicate | lia].
  - intros j a k Hj (-> & Hlen & Hsecond).
    cbv beta zeta delta [ret].
    eexists _, _. split; [reflexivity |].
    split; [reflexivity |]. split; [now rewrite !length_store |].
    intros _. destruct (Z.eq_dec j 0%Z) as [-> | Hj0].
    + rewrite !lookup_store_ne by lia.
      rewrite lookup_store by (rewrite ?length_store; lia).
      case_decide; [| lia].
      unfold to_uint32. rewrite Z.add_0_r, Z.mod_small by lia. reflexivity.
    + rewrite !lookup_store_ne by lia. apply Hsecond. lia.
  - exists indices. split; [exact Hrun | apply Hsecond; lia].
Qed.

(** ** Building the field *)

Lemma filled_store {A : Type} (Q : A -> Prop) (j : Z) (a : list A) (v : A) :
  filled Q j a -> Q v -> filled Q (j + 1) (store a j v).
Proof.
  intros Ha Hv i x Hi Hlt. unfold store in Hi.
  destruct (Z.ltb_spec j 0); [lia |].
  apply list_lookup_insert_Some in Hi as [(_ & <- & _) | (Hne & Hi)].
  - exact Hv.
  - apply (Ha i x Hi). lia.
Qed.

Lemma filled_start {A : Type} (Q : A -> Prop) (a : list A) : filled Q 0 a.
Proof. intros i x _ Hi. lia. Qed.

Lemma filled_Forall {A : Type} (Q : A -> Prop) (j : Z) (a : list A) :
  (Z.of_nat (length a) <= j)%Z -> filled Q j a -> Forall Q a.
Proof.
  intros Hj H. apply Forall_lookup. intros i x Hi.
  apply (H i x Hi). apply lookup_lt_Some in Hi. lia.
Qed.

Lemma load_Forall (Q : num -> Prop) (a : list num) (i : Z) :
  Forall Q a -> (0 <= i < Z.of_nat (length a))%Z -> Q (to_float (load a i)).
Proof.
  intros Ha Hi. unfold load. destruct (Z.ltb_spec i 0); [lia |].
  destruct (lookup_lt_is_Some_2 a (Z.to_nat i) ltac:(lia)) as [x Hx].
  rewrite Hx. cbn. exact (proj1 (Forall_lookup Q a) Ha _ _ Hx).
Qed.

(** Step over a loop with the given invariant. *)
Ltac run_loop P :=
  match goal with
  | |- context [bind (for_range ?lo ?hi ?body ?s0) ?k ?c] =>
      let s := fresh "s" in
      let c' := fresh "c" in
      let Hrun := fresh "Hrun" in
      let HP := fresh "HP" in
      destruct (for_range_inv P body lo hi s0 c) as (s & c' & Hrun & HP);
      [ | | | rewrite (bind_ok _ k c c' s Hrun) ]
  end.

(** A loop whose body never throws runs to the end. *)
Lemma for_range_total {S : Type} (body : Z -> S -> M S) (start stop : Z)
    (s : S) (n : nat) :
  (forall j s n, exists s' n', body j s n = Ok (s', n')) ->
  exists s' n', for_range start stop body s n = Ok (s', n').
Proof.
  intros Hbody. unfold for_range.
  destruct (for_loop_inv (fun _ _ _ => True) body
              (Z.to_nat (stop - start)) start s n I)
    as (s' & n' & Hrun & _).
  - intros j s0 n0 _ _. destruct (Hbody j s0 n0) as (s1 & n1 & H).
    exists s1, n1. auto.
  - exists s', n'. exact Hrun.
Qed.

Lemma rich_generateBladeVertices_total (rand : nat -> R)
    (variation height width : num) (verticesCount : Z) (n : nat) :
  (0 <= verticesCount)%Z ->
  exists vertices n',
    Rich.generateBladeVertices rand variation height width verticesCount n
    = Ok (vertices, n').
Proof.
  intros Hvc. unfold Rich.generateBladeVertices.
  rewrite (bind_ok (Math_random rand) _ n (S n) (fin (rand n)) eq_refl).
  run_new_array. cbv zeta. apply for_range_total.
  intros j s k. cbv beta zeta delta [ret bind Math_random].
  eexists _, _. reflexivity.
Qed.

Lemma simple_generateBladeVertices_total (rand : nat -> R)
    (height width : num) (verticesCount : Z) (n : nat) :
  (0 <= verticesCount)%Z ->
  exists vertices n',
    Simple.generateBladeVertices rand height width verticesCount n
    = Ok (vertices, n').
Proof.
  intros Hvc. unfold Simple.generateBladeVertices.
  run_new_array. cbv zeta. apply for_range_total.
  intros j s k. cbv beta zeta delta [ret bind Math_random].
  eexists _, _. reflexivity.
Qed.

(** The rich [createGrassMesh] on a non-negative number of blades and at
    least two vertices per blade: it returns a mesh whose instance attributes
    are the drawn values. *)
Lemma rich_createGrassMesh_run (rand : nat -> R) (o : Rich.options) (n : nat) :
  let N := dflt 100000%Z (Rich.grassBlades o) in
  let vc := dflt 3%Z (Rich.verticesPerBlade o) in
  let h := dflt (fin 15) (Rich.bladeHeight o) in
  let v := dflt (fin 0.4) (Rich.bladeHeightVariation o) in
  let patch := dflt (fin 200) (Rich.grassPatchSize o) in
  (0 <= N)%Z -> (2 <= vc)%Z ->
  exists m n',
    Rich.createGrassMesh rand o n = Ok (m, n')
    /\ Rich.mesh_count m = N
    /\ length (Rich.geo_aBladeHeight (Rich.mesh_geometry m)) = Z.to_nat N
    /\ length (Rich.geo_aStiffness (Rich.mesh_geometry m)) = Z.to_nat N
    /\ length (Rich.geo_aPhaseOffset (Rich.mesh_geometry m)) = Z.to_nat N
    /\ length (Rich.mesh_instanceMatrix m) = Z.to_nat N
    /\ Forall (fun x => exists k, x = (h * (1 - v / 2 + fin (rand k) * v))%num)
         (Rich.geo_aBladeHeight (Rich.mesh_geometry m))
    /\ Forall (fun x => exists k, x = (0.7 + fin (rand k) * 0.6)%num)
         (Rich.geo_aStiffness (Rich.mesh_geometry m))
    /\ Forall (fun x => exists k, x = (fin (rand k) * Math_PI * 2)%num)
         (Rich.geo_aPhaseOffset (Rich.mesh_geometry m))
    /\ Forall (fun d => exists k1 k2,
                   obj_position d
                   = Vec3 ((fin (rand k1) - 0.5) * patch)%num 0
                       ((fin (rand k2) - 0.5) * patch)%num)
         (Rich.mesh_instanceMatrix m).
Proof.
  intros N vc h v patch HN Hvc.
  unfold Rich.createGrassMesh. cbv zeta.
  fold N vc h v patch.
  do 2 run_new_array.
  set (Qh := fun x : num => exists k, x = (h * (1 - v / 2 + fin (rand k) * v))%num).
  set (Qs := fun x : num => exists k, x = (0.7 + fin (rand k) * 0.6)%num).
  set (Qp := fun x : num => exists k, x = (fin (rand k) * Math_PI * 2)%num).
  set (Qd := fun d : Object3D => exists k1 k2,
                   obj_position d
                   = Vec3 ((fin (rand k1) - 0.5) * patch)%num 0
                       ((fin (rand k2) - 0.5) * patch)%num).
  run_loop (fun (j : Z) (s : list num * list num) (_ : nat) =>
              length (fst s) = Z.to_nat N /\ length (snd s) = Z.to_nat N
              /\ filled Qh j (fst s) /\ filled Qs j (snd s)).
  - lia.
  - cbn. rewrite !length_replicate. repeat split; apply filled_start.
  - intros j [bh bs] k Hj (Hl1 & Hl2 & Hf1 & Hf2). cbn in Hl1, Hl2, Hf1, Hf2.
    cbv beta iota zeta delta [ret bind Math_random].
    eexists _, _. split; [reflexivity |]. cbn [fst snd].
    rewrite !length_store. repeat split; try assumption.
    + apply filled_store; [assumption | eexists; reflexivity].
    + apply filled_store; [assumption | eexists; reflexivity].
  - destruct s as [bladeHeights bladeStiffness].
    cbn [fst snd] in HP. destruct HP as (Hl1 & Hl2 & Hf1 & Hf2).
    apply filled_Forall in Hf1; [| lia]. apply filled_Forall in Hf2; [| lia].
    destruct (rich_generateBladeVertices_run rand v h
                (dflt (fin 0.5) (Rich.bladeWidth o)) vc c Hvc)
      as (vertices & Hvert & _).
    rewrite (bind_ok _ _ _ _ _ Hvert).
    destruct (rich_generateBladeIndices_fan vc
                (c + 1 + 2 * Z.to_nat (vc - 2)) Hvc)
      as (indices & Hind & _).
    rewrite (bind_ok _ _ _ _ _ Hind).
    do 3 run_new_array.
    run_loop (fun (j : Z) (s : list num * list num * list num)
                (_ : nat) =>
                let '(hs, ss, ps) := s in
                length hs = Z.to_nat N /\ length ss = Z.to_nat N
                /\ length ps = Z.to_nat N
                /\ filled Qh j hs /\ filled Qs j ss /\ filled Qp j ps).
    + lia.
    + rewrite !length_replicate. repeat split; apply filled_start.
    + intros j [[hs ss] ps] k Hj (Hh & Hs & Hp & Hfh & Hfs & Hfp).
      cbv beta iota zeta delta [ret bind Math_random].
      eexists _, _. split; [reflexivity |]. cbv beta iota.
      rewrite !length_store. repeat split; try assumption.
      * apply filled_store; [assumption |]. apply load_Forall; [assumption | lia].
      * apply filled_store; [assumption |]. apply load_Forall; [assumption | lia].
      * apply filled_store; [assumption | eexists; reflexivity].
    + destruct s as [[hs ss] ps].
      destruct HP as (Hh & Hs & Hp & Hfh & Hfs & Hfp).
      rewrite (bind_ok _ _ _ _ _ (new_matrix_array_ok N _ HN)).
      run_loop (fun (j : Z) (s : list Object3D) (_ : nat) =>
                  length s = Z.to_nat N /\ filled Qd j s).
      * lia.
      * rewrite length_replicate. split; [reflexivity | apply filled_start].
      * intros j im k Hj (Him & Hfd).
        cbv beta iota zeta delta [ret bind Math_random].
        eexists _, _. split; [reflexivity |].
        rewrite length_store. split; [assumption |].
        apply filled_store; [assumption |]. eexists _, _. reflexivity.
      * destruct HP as (Him & Hfd).
        eexists _, _. split; [reflexivity |]. cbn.
        repeat split; try assumption;
          (eapply filled_Forall; [| eassumption]); lia.
Qed.

(** Step over a loop whose body never throws. *)
Ltac run_total_loop :=
  match goal with
  | |- context [bind (for_range ?lo ?hi ?body ?s0) ?k ?c] =>
      let s := fresh "s" in
      let c' := fresh "c" in
      let Hrun := fresh "Hrun" in
      destruct (for_range_total body lo hi s0 c) as (s & c' & Hrun);
      [ | rewrite (bind_ok _ k c c' s Hrun) ]
  end.

Lemma rich_generateBladeVertices_throw (rand : nat -> R)
    (variation height width : num) (verticesCount : Z) (n : nat) :
  (verticesCount < 0)%Z ->
  Rich.generateBladeVertices rand variation height width verticesCount n
  = Throw RangeError.
Proof.
  intros Hvc. unfold Rich.generateBladeVertices.
  rewrite (bind_ok (Math_random rand) _ n (S n) (fin (rand n)) eq_refl).
  apply bind_throw, new_array_throw. lia.
Qed.

Lemma rich_generateBladeIndices_throw (verticesCount : Z) (n : nat) :
  (verticesCount < 2)%Z ->
  Rich.generateBladeIndices verticesCount n = Throw RangeError.
Proof.
  intros Hvc. unfold Rich.generateBladeIndices.
  apply bind_throw, new_array_throw. lia.
Qed.

Lemma rich_createGrassMesh_throw (rand : nat -> R) (o : Rich.options)
    (n : nat) :
  let N := dflt 100000%Z (Rich.grassBlades o) in
  let vc := dflt 3%Z (Rich.verticesPerBlade o) in
  (N < 0 \/ vc < 2)%Z ->
  Rich.createGrassMesh rand o n = Throw RangeError.
Proof.
  intros N vc H. unfold Rich.createGrassMesh. cbv zeta. fold N vc.
  destruct (Z.lt_ge_cases N 0) as [HN | HN].
  { apply bind_throw, new_array_throw. exact HN. }
  destruct H as [H | Hvc]; [lia |].
  do 2 run_new_array.
  run_total_loop.
  { intros j [bh bs] k. cbv beta iota zeta delta [ret bind Math_random].
    eexists _, _. reflexivity. }
  destruct s as [bladeHeights bladeStiffness].
  destruct (Z.lt_ge_cases vc 0) as [Hneg | Hpos].
  - apply bind_throw, rich_generateBladeVertices_throw. exact Hneg.
  - match goal with
    | |- context [Rich.generateBladeVertices rand ?a ?b ?w vc] =>
        destruct (rich_generateBladeVertices_total rand a b w vc c Hpos)
          as (vertices & c' & Hvert)
    end.
    rewrite (bind_ok _ _ _ _ _ Hvert).
    apply bind_throw, rich_generateBladeIndices_throw. exact Hvc.
Qed.

Lemma simple_createGrassMesh_run (rand : nat -> R) (o : Simple.options)
    (n : nat) :
  let N := dflt 500000%Z (Simple.grassBlades o) in
  let vc := dflt 3%Z (Simple.verticesPerBlade o) in
  let patch := dflt (fin 200) (Simple.grassPatchSize o) in
  (0 <= N)%Z -> (1 <= vc)%Z ->
  exists m n',
    Simple.createGrassMesh rand o n = Ok (m, n')
    /\ Simple.mesh_count m = N
    /\ length (Simple.mesh_instanceMatrix m) = Z.to_nat N
    /\ Forall (fun d => exists k1 k2,
                   obj_position d
                   = Vec3 ((fin (rand k1) - 0.5) * patch)%num 0
                       ((fin (rand k2) - 0.5) * patch)%num)
         (Simple.mesh_instanceMatrix m).
Proof.
  intros N vc patch HN Hvc.
  unfold Simple.createGrassMesh. cbv zeta. fold N vc patch.
  match goal with
  | |- context [Simple.generateBladeVertices rand ?b ?w vc] =>
      destruct (simple_generateBladeVertices_total rand b w vc n
                  ltac:(lia)) as (vertices & c & Hvert)
  end.
  rewrite (bind_ok _ _ _ _ _ Hvert).
  destruct (simple_generateBladeIndices_length vc c Hvc)
    as (indices & Hind & _).
  rewrite (bind_ok _ _ _ _ _ Hind).
  rewrite (bind_ok _ _ _ _ _ (new_matrix_array_ok N _ HN)).
  set (Qd := fun d : Object3D => exists k1 k2,
                   obj_position d
                   = Vec3 ((fin (rand k1) - 0.5) * patch)%num 0
                       ((fin (rand k2) - 0.5) * patch)%num).
  run_loop (fun (j : Z) (s : list Object3D) (_ : nat) =>
              length s = Z.to_nat N /\ filled Qd j s).
  - lia.
  - rewrite length_replicate. split; [reflexivity | apply filled_start].
  - intros j im k Hj (Him & Hfd).
    cbv beta iota zeta delta [ret bind Math_random].
    eexists _, _. split; [reflexivity |].
    rewrite length_store. split; [assumption |].
    apply filled_store; [assumption |]. eexists _, _. reflexivity.
  - destruct HP as (Him & Hfd).
    eexists _, _. split; [reflexivity |]. cbn.
    repeat split; try assumption.
    eapply filled_Forall; [| eassumption]. lia.
Qed.

Lemma simple_createGrassMesh_throw (rand : nat -> R) (o : Simple.options)
    (n : nat) :
  let N := dflt 500000%Z (Simple.grassBlades o) in
  let vc := dflt 3%Z (Simple.verticesPerBlade o) in
  (N < 0 \/ vc < 1)%Z ->
  Simple.createGrassMesh rand o n = Throw RangeError.
Proof.
  intros N vc H. unfold Simple.createGrassMesh. cbv zeta. fold N vc.
  destruct (Z.lt_ge_cases vc 0) as [Hneg | Hpos].
  { apply bind_throw. unfold Simple.generateBladeVertices.
    apply bind_throw, new_array_throw. lia. }
  match goal with
  | |- context [Simple.generateBladeVertices rand ?b ?w vc] =>
      destruct (simple_generateBladeVertices_total rand b w vc n Hpos)
        as (vertices & c & Hvert)
  end.
  rewrite (bind_ok _ _ _ _ _ Hvert).
  destruct (Z.lt_ge_cases vc 1) as [Hvc | Hvc].
  { apply bind_throw. unfold Simple.generateBladeIndices.
    apply bind_throw, new_array_throw. lia. }
  destruct (simple_generateBladeIndices_length vc c Hvc)
    as (indices & Hind & _).
  rewrite (bind_ok _ _ _ _ _ Hind).
  apply bind_throw. unfold new_matrix_array.
  destruct (Z.ltb_spec (N * 16) 0); [reflexivity | lia].
Qed.

(** C3, as stated, fails: [createGrassMesh] validates nothing.  A field is
    created for zero blades, for two vertices per blade, and for a height
    and width that are not finite. *)
Lemma createGrassMesh_accepts_bad_configuration :
  (exists m n',
      Rich.createGrassMesh (fun _ => 0)
        (Rich.mkOptions None None None (Some 0%Z) None None None None None
           None None None None None None None None None) 0%nat
      = Ok (m, n')
      /\ Rich.mesh_count m = 0%Z)
  /\ (exists m n',
         Rich.createGrassMesh (fun _ => 0)
           (Rich.mkOptions None None None (Some 1%Z) None None None None
              None None None None None (Some 2%Z) None None None None) 0%nat
         = Ok (m, n')
         /\ vertex_count (Rich.geo_position (Rich.mesh_geometry m)) = 2%nat)
  /\ (exists m n',
         Rich.createGrassMesh (fun _ => 0)
           (Rich.mkOptions (Some nonfinite) None (Some nonfinite) (Some 1%Z)
              None None None None None None None None None None None None
              None None) 0%nat
         = Ok (m, n')
         /\ Rich.uBladeHeight (Rich.mesh_uniforms m) = nonfinite
         /\ Rich.uBladeWidth (Rich.mesh_uniforms m) = nonfinite)
  /\ (exists m n',
         Simple.createGrassMesh (fun _ => 0)
           (Simple.mkOptions (Some nonfinite) None (Some 0%Z) None None None
              None None None None None None (Some 1%Z)) 0%nat
         = Ok (m, n')
         /\ Simple.mesh_count m = 0%Z
         /\ vertex_count (Simple.geo_position (Simple.mesh_geometry m))
            = 1%nat).
Proof.
  repeat split; eexists _, _; (split; [run_js; reflexivity |]);
    repeat split.
Qed.

(** C3, amended.  [createGrassMesh] validates nothing.  Within the sizes the
    engine allocates (taken here as at most 500000 blades, the largest
    number the application asks for, and 1024 vertices per blade) the only
    configurations it rejects are those for which a typed array would get a
    negative length, and the rejection is the RangeError of that allocation:
    a negative number of blades, fewer than two vertices per blade in the
    rich generator, fewer than one in the simple generator.  Every other
    configuration of such a size, whatever its height and width, yields a
    field. *)
Theorem createGrassMesh_range_errors (rand : nat -> R) (n : nat) :
  (forall o : Rich.options,
      let N := dflt 100000%Z (Rich.grassBlades o) in
      let vc := dflt 3%Z (Rich.verticesPerBlade o) in
      (N <= 500000)%Z -> (vc <= 1024)%Z ->
      (Rich.createGrassMesh rand o n = Throw RangeError
       <-> (N < 0 \/ vc < 2)%Z)
      /\ ((exists m n',
              Rich.createGrassMesh rand o n = Ok (m, n')
              /\ Rich.mesh_count m = N)
          <-> (0 <= N /\ 2 <= vc)%Z))
  /\ (forall o : Simple.options,
         let N := dflt 500000%Z (Simple.grassBlades o) in
         let vc := dflt 3%Z (Simple.verticesPerBlade o) in
         (N <= 500000)%Z -> (vc <= 1024)%Z ->
         (Simple.createGrassMesh rand o n = Throw RangeError
          <-> (N < 0 \/ vc < 1)%Z)
         /\ ((exists m n',
                 Simple.createGrassMesh rand o n = Ok (m, n')
                 /\ Simple.mesh_count m = N)
             <-> (0 <= N /\ 1 <= vc)%Z)).
Proof.
  split; intros o N vc _ _.
  - destruct (Z.lt_ge_cases N 0) as [HN | HN];
      [| destruct (Z.lt_ge_cases vc 2) as [Hvc | Hvc]].
    1, 2: pose proof (rich_createGrassMesh_throw rand o n) as Hthrow;
      cbv zeta in Hthrow; fold N vc in Hthrow;
      rewrite Hthrow by lia;
      (split; split; [lia | reflexivity | | lia]);
      intros (m & n' & Hrun & _); discriminate.
    destruct (rich_createGrassMesh_run rand o n HN Hvc)
      as (m & n' & Hrun & Hcount & _).
    split; split.
    + rewrite Hrun. discriminate.
    + lia.
    + lia.
    + intros _. exists m, n'. auto.
  - destruct (Z.lt_ge_cases N 0) as [HN | HN];
      [| destruct (Z.lt_ge_cases vc 1) as [Hvc | Hvc]].
    1, 2: pose proof (simple_createGrassMesh_throw rand o n) as Hthrow;
      cbv zeta in Hthrow; fold N vc in Hthrow;
      rewrite Hthrow by lia;
      (split; split; [lia | reflexivity | | lia]);
      intros (m & n' & Hrun & _); discriminate.
    destruct (simple_createGrassMesh_run rand o n HN Hvc)
      as (m & n' & Hrun & Hcount & _).
    split; split.
    + rewrite Hrun. discriminate.
    + lia.
    + lia.
    + intros _. exists m, n'. auto.
Qed.

Lemma createGrassMesh_range_errors_witness :
  (Rich.createGrassMesh (fun _ => 0)
     (Rich.mkOptions None None None (Some (-1)%Z) None None None None None
        None None None None None None None None None) 0%nat
   = Throw RangeError
   <-> (-1 < 0 \/ 3 < 2)%Z)
  /\ ((exists m n',
          Rich.createGrassMesh (fun _ => 0)
            (Rich.mkOptions None None None (Some (-1)%Z) None None None None
               None None None None None None None None None None) 0%nat
          = Ok (m, n')
          /\ Rich.mesh_count m = (-1)%Z)
      <-> (0 <= -1 /\ 2 <= 3)%Z).
Proof.
  apply (proj1 (createGrassMesh_range_errors (fun _ => 0) 0%nat)
           (Rich.mkOptions None None None (Some (-1)%Z) None None None None
              None None None None None None None None None None)
           ltac:(cbn; lia) ltac:(cbn; lia)).
Defined.

(** ** Dependence on the draws *)

Section SameDraws.

Variables rand1 rand2 : nat -> R.
Variable n0 : nat.
Hypothesis agree : forall k, (n0 <= k)%nat -> rand1 k = rand2 k.

Lemma same_from_random :
  same_from n0 (Math_random rand1) (Math_random rand2).
Proof using agree.
  intros k Hk. unfold Math_random. rewrite (agree k Hk). split; [reflexivity |].
  intros a k' [= _ <-]. lia.
Qed.

Lemma same_from_ret {A : Type} (a : A) : same_from n0 (ret a) (ret a).
Proof using Type.
  intros k Hk. split; [reflexivity |]. intros a' k' [= _ <-]. lia.
Qed.

Lemma same_from_bind {A B : Type} (m1 m2 : M A) (k1 k2 : A -> M B) :
  same_from n0 m1 m2 ->
  (forall a, same_from n0 (k1 a) (k2 a)) ->
  same_from n0 (bind m1 k1) (bind m2 k2).
Proof using Type.
  intros Hm Hk k Hle. destruct (Hm k Hle) as [Heq Hmono].
  unfold bind. rewrite <- Heq.
  destruct (m1 k) as [[a k'] | e]; [| split; [reflexivity | discriminate]].
  specialize (Hmono a k' eq_refl).
  destruct (Hk a k' ltac:(lia)) as [Heq' Hmono'].
  split; [exact Heq' |].
  intros b k'' Hrun. specialize (Hmono' b k'' Hrun). lia.
Qed.

Lemma same_from_new_array {A : Type} (zero : A) (len : Z) :
  same_from n0 (new_array zero len) (new_array zero len).
Proof using Type.
  intros k Hk. split; [reflexivity |]. unfold new_array.
  destruct (len <? 0)%Z; [discriminate |]. intros a k' [= _ <-]. lia.
Qed.

Lemma same_from_new_matrix_array (count : Z) :
  same_from n0 (new_matrix_array count) (new_matrix_array count).
Proof using Type.
  intros k Hk. split; [reflexivity |]. unfold new_matrix_array.
  destruct (count * 16 <? 0)%Z; [discriminate |]. intros a k' [= _ <-]. lia.
Qed.

Lemma same_from_for_range {S : Type} (body1 body2 : Z -> S -> M S)
    (start stop : Z) (s : S) :
  (forall i s, same_from n0 (body1 i s) (body2 i s)) ->
  same_from n0 (for_range start stop body1 s) (for_range start stop body2 s).
Proof using Type.
  intros Hbody. unfold for_range.
  generalize (Z.to_nat (stop - start)) as count. intros count.
  revert start s. induction count as [| count IH]; intros start s.
  - apply same_from_ret.
  - cbn [for_loop]. apply same_from_bind; [apply Hbody |].
    intros s'. apply IH.
Qed.

(** One step through code that is the same on both sides but for the
    source of its draws. *)
Ltac same_draws :=
  repeat first
    [ apply same_from_ret
    | apply same_from_random
    | apply same_from_new_array
    | apply same_from_new_matrix_array
    | apply same_from_bind; [| intros ?]
    | apply same_from_for_range; intros ? ?
    | match goal with
      | |- same_from _ (match ?x with _ => _ end) _ => destruct x
      end ].

Lemma rich_generateBladeVertices_same (variation height width : num)
    (verticesCount : Z) :
  same_from n0
    (Rich.generateBladeVertices rand1 variation height width verticesCount)
    (Rich.generateBladeVertices rand2 variation height width verticesCount).
Proof using agree.
  unfold Rich.generateBladeVertices. cbv zeta. same_draws.
Qed.

Lemma simple_generateBladeVertices_same (height width : num)
    (verticesCount : Z) :
  same_from n0
    (Simple.generateBladeVertices rand1 height width verticesCount)
    (Simple.generateBladeVertices rand2 height width verticesCount).
Proof using agree.
  unfold Simple.generateBladeVertices. cbv zeta. same_draws.
Qed.

Lemma rich_generateBladeIndices_same (verticesCount : Z) :
  same_from n0 (Rich.generateBladeIndices verticesCount)
    (Rich.generateBladeIndices verticesCount).
Proof using Type.
  unfold Rich.generateBladeIndices. cbv zeta. same_draws.
Qed.

Lemma simple_generateBladeIndices_same (verticesCount : Z) :
  same_from n0 (Simple.generateBladeIndices verticesCount)
    (Simple.generateBladeIndices verticesCount).
Proof using Type.
  unfold Simple.generateBladeIndices. cbv zeta. same_draws.
Qed.

Lemma rich_createGrassMesh_same (o : Rich.options) :
  same_from n0 (Rich.createGrassMesh rand1 o) (Rich.createGrassMesh rand2 o).
Proof using agree.
  unfold Rich.createGrassMesh. cbv zeta.
  repeat first
    [ apply rich_generateBladeVertices_same
    | apply rich_generateBladeIndices_same
    | progress same_draws ].
Qed.

Lemma simple_createGrassMesh_same (o : Simple.options) :
  same_from n0 (Simple.createGrassMesh rand1 o)
    (Simple.createGrassMesh rand2 o).
Proof using agree.
  unfold Simple.createGrassMesh. cbv zeta.
  repeat first
    [ apply simple_generateBladeVertices_same
    | apply simple_generateBladeIndices_same
    | progress same_draws ].
Qed.

End SameDraws.

(** C9, as stated, fails: the source of randomness is the ambient
    [Math.random], which no option seeds.  Two runs on the same options that
    see different draws build different blades and different stiffness
    arrays. *)
Lemma createGrassMesh_not_reproducible :
  exists m1 n1 m2 n2,
    Rich.createGrassMesh (fun _ => 0)
      (Rich.mkOptions None None None (Some 1%Z) None None None None None
         None None None None None None None None None) 0%nat
    = Ok (m1, n1)
    /\ Rich.createGrassMesh (fun _ => 0.5)
         (Rich.mkOptions None None None (Some 1%Z) None None None None None
            None None None None None None None None None) 0%nat
       = Ok (m2, n2)
    /\ Rich.geo_aStiffness (Rich.mesh_geometry m1)
       <> Rich.geo_aStiffness (Rich.mesh_geometry m2)
    /\ Rich.geo_position (Rich.mesh_geometry m1)
       <> Rich.geo_position (Rich.mesh_geometry m2).
Proof.
  eexists _, _, _, _. split; [run_js; reflexivity |].
  split; [run_js; reflexivity |].
  split; cbn; num_simpl; intros H; injection H; lra.
Qed.

(** C9, amended.  Blade construction and instance packing are functions of
    the options and of the draws the run receives: two runs whose draws agree
    from the starting point on return the same vertex array, and the same
    mesh with all its attribute arrays (or throw the same exception). *)
Theorem construction_determined_by_draws (rand1 rand2 : nat -> R) (n : nat) :
  (forall k, (n <= k)%nat -> rand1 k = rand2 k) ->
  (forall (variation height width : num) (verticesCount : Z),
      Rich.generateBladeVertices rand1 variation height width verticesCount n
      = Rich.generateBladeVertices rand2 variation height width
          verticesCount n)
  /\ (forall o : Rich.options,
         Rich.createGrassMesh rand1 o n = Rich.createGrassMesh rand2 o n)
  /\ (forall (height width : num) (verticesCount : Z),
         Simple.generateBladeVertices rand1 height width verticesCount n
         = Simple.generateBladeVertices rand2 height width verticesCount n)
  /\ (forall o : Simple.options,
         Simple.createGrassMesh rand1 o n = Simple.createGrassMesh rand2 o n).
Proof.
  intros Hagree. repeat split; intros.
  - now apply (rich_generateBladeVertices_same rand1 rand2 n Hagree).
  - now apply (rich_createGrassMesh_same rand1 rand2 n Hagree).
  - now apply (simple_generateBladeVertices_same rand1 rand2 n Hagree).
  - now apply (simple_createGrassMesh_same rand1 rand2 n Hagree).
Qed.

Lemma construction_determined_by_draws_witness :
  Rich.createGrassMesh (fun k => if (k <? 4)%nat then 0.25 else 0.5)
    (Rich.mkOptions None None None (Some 2%Z) None None None None None
       None None None None None None None None None) 4%nat
  = Rich.createGrassMesh (fun _ => 0.5)
      (Rich.mkOptions None None None (Some 2%Z) None None None None None
         None None None None None None None None None) 4%nat.
Proof.
  apply (construction_determined_by_draws
           (fun k => if (k <? 4)%nat then 0.25 else 0.5) (fun _ => 0.5)
           4%nat).
  intros k Hk. destruct (Nat.ltb_spec k 4); [lia | reflexivity].
Defined.

(** ** The noise function is total *)

Lemma div_Some (x y : R) : y <> 0 -> Num.div (Some x) (Some y) = Some (x / y).
Proof. exact (div_fin x y). Qed.

Lemma floor_le (x : R) : IZR (Int_part x) <= x < IZR (Int_part x) + 1.
Proof.
  pose proof (base_Int_part x). lra.
Qed.

Lemma floor_nonneg (x : R) : 0 <= x -> 0 <= IZR (Int_part x).
Proof.
  intros Hx. pose proof (floor_le x) as [_ Hlt].
  apply IZR_le. apply Z.lt_succ_r. apply lt_IZR.
  rewrite succ_IZR. lra.
Qed.

Ltac glsl_red :=
  cbv [add3 sub3 mul3 add4 sub4 mul4 scale3 scale4 splat3 splat4 map3 zip3
       map4 zip4 dot3 dot4 xxx yyy yzx zxy xyz yyy4 wyz xzx xzyw xxyy zzww
       vx vy vz v4x v4y v4z v4w v2x v2y Num.add Num.sub Num.mul Num.neg
       Num.floor Num.abs Num.min Num.max Num.step Num.mod_ Num.lift1
       Num.lift2 fin];
  repeat (rewrite div_Some by lra).

Ltac let_in y :=
  lazymatch goal with
  | |- finite (let x := ?e in @?b x) =>
      change (let x := e in finite (b x)); intro y; cbv beta
  end.

Ltac step2 :=
  let y := fresh "y" in
  let_in y;
  let r1 := fresh "r" in let r2 := fresh "r" in
  assert (exists r1 r2, y = Vec2 (Some r1) (Some r2)) as (r1 & r2 & ?)
    by (subst y; glsl_red; eexists _, _; reflexivity);
  clearbody y; subst y.

Ltac step3 :=
  let y := fresh "y" in
  let_in y;
  let r1 := fresh "r" in let r2 := fresh "r" in let r3 := fresh "r" in
  assert (exists r1 r2 r3, y = Vec3 (Some r1) (Some r2) (Some r3))
    as (r1 & r2 & r3 & ?)
    by (subst y; glsl_red; eexists _, _, _; reflexivity);
  clearbody y; subst y.

Ltac step4 :=
  let y := fresh "y" in
  let_in y;
  let r1 := fresh "r" in let r2 := fresh "r" in
  let r3 := fresh "r" in let r4 := fresh "r" in
  assert (exists r1 r2 r3 r4,
             y = Vec4 (Some r1) (Some r2) (Some r3) (Some r4))
    as (r1 & r2 & r3 & r4 & ?)
    by (subst y; glsl_red; eexists _, _, _, _; reflexivity);
  clearbody y; subst y.

Ltac keep_let :=
  let y := fresh "y" in let_in y; subst y.

Lemma inversesqrt_Some (x : R) :
  0 < x -> Num.inversesqrt (Some x) = Some (/ R_sqrt.sqrt x).
Proof.
  intros Hx. unfold Num.inversesqrt.
  destruct (Rlt_dec 0 x); [reflexivity | contradiction].
Qed.

(** A gradient of [snoise] is never the zero vector: where its third
    component [h] vanishes, the first one is [x - 2 floor(x) - 1] with
    [x >= 0], which is not zero. *)
Lemma gradient_positive (x y other : R) :
  0 <= x ->
  let h := 1.0 - Rabs x - Rabs y in
  let sh := - (if Rlt_dec 0.0 h then 0 else 1) in
  let first := x + (IZR (Int_part x) * 2.0 + 1.0) * sh in
  0 < first * first + other * other + h * h.
Proof.
  intros Hx h sh first.
  pose proof (floor_le x) as [Hlo Hhi].
  pose proof (floor_nonneg x Hx) as Hf.
  assert (Hsq : forall t, 0 <= t * t) by (intros t; nra).
  pose proof (Hsq first). pose proof (Hsq other). pose proof (Hsq h).
  destruct (Rlt_dec 0.0 h) as [Hh | Hh].
  - assert (0 < h * h) by nra. lra.
  - assert (Hfirst : first = x - 2 * IZR (Int_part x) - 1)
      by (unfold first, sh; lra).
    assert (first < 0) by lra.
    assert (0 < first * first) by nra. lra.
Qed.

Lemma snoise_finite (a b c : R) :
  finite (snoise (Vec3 (fin a) (fin b) (fin c))).
Proof.
  cbv beta delta [snoise].
  keep_let. keep_let. step3. step3. step3. step3. step3. step3.
  step3. step3. step3. step3. step4.
  keep_let. keep_let.
  (* j *)
  let_in j.
  assert (exists j1 j2 j3 j4,
             j = Vec4 (Some j1) (Some j2) (Some j3) (Some j4)
             /\ 0 <= j1 /\ 0 <= j2 /\ 0 <= j3 /\ 0 <= j4)
    as (j1 & j2 & j3 & j4 & Hj & Hj1 & Hj2 & Hj3 & Hj4).
  { subst j. glsl_red. eexists _, _, _, _. split; [reflexivity |].
    repeat split;
      match goal with
      | |- 0 <= ?p - IZR (Int_part ?t) * _ =>
          pose proof (floor_le t); lra
      end. }
  clearbody j; subst j.
  (* x_ *)
  let_in x_.
  assert (exists f1 f2 f3 f4,
             x_ = Vec4 (Some f1) (Some f2) (Some f3) (Some f4)
             /\ 0 <= f1 /\ 0 <= f2 /\ 0 <= f3 /\ 0 <= f4)
    as (f1 & f2 & f3 & f4 & Hx_ & Hf1 & Hf2 & Hf3 & Hf4).
  { subst x_. glsl_red. eexists _, _, _, _. split; [reflexivity |].
    repeat split; apply floor_nonneg; nra. }
  clearbody x_; subst x_.
  step4.
  (* x *)
  let_in x.
  assert (exists x1 x2 x3 x4,
             x = Vec4 (Some x1) (Some x2) (Some x3) (Some x4)
             /\ 0 <= x1 /\ 0 <= x2 /\ 0 <= x3 /\ 0 <= x4)
    as (x1 & x2 & x3 & x4 & Hx & Hx1 & Hx2 & Hx3 & Hx4).
  { subst x. glsl_red. eexists _, _, _, _. split; [reflexivity |].
    repeat split; nra. }
  clearbody x; subst x.
  step4.
  do 12 keep_let.
  (* norm *)
  let_in norm.
  assert (exists n1 n2 n3 n4,
             norm = Vec4 (Some n1) (Some n2) (Some n3) (Some n4))
    as (n1 & n2 & n3 & n4 & Hnorm).
  { subst norm. glsl_red.
    rewrite !inversesqrt_Some by (apply gradient_positive; assumption).
    eexists _, _, _, _. reflexivity. }
  clearbody norm; subst norm.
  step3. step3. step3. step3. step4. step4.
  glsl_red. eexists. reflexivity.
Qed.

(** ** The noise at the origin *)

Lemma floor_eq (t : R) (z : Z) : IZR z <= t < IZR z + 1 -> Int_part t = z.
Proof. intros H. symmetry. apply Int_part_spec. lra. Qed.

Lemma inv_sqrt_square (x r : R) :
  0 < r -> x = r * r -> / R_sqrt.sqrt x = / r.
Proof. intros Hr ->. rewrite sqrt_square by lra. reflexivity. Qed.

(** Evaluate floors, comparisons, minima, maxima and absolute values of
    rational constants. *)
Ltac real_eval :=
  repeat match goal with
    | |- context [Int_part ?t] =>
        first [ rewrite (floor_eq t 0) by lra
              | rewrite (floor_eq t 1) by lra
              | rewrite (floor_eq t 2) by lra
              | rewrite (floor_eq t 3) by lra ]
    | |- context [Rlt_dec ?x ?y] => destruct (Rlt_dec x y); [try lra | try lra]
    | |- context [Rle_dec ?x ?y] => destruct (Rle_dec x y); [try lra | try lra]
    | |- context [Rcase_abs ?x] => destruct (Rcase_abs x); [try lra | try lra]
    | |- context [Rmin _ _] => unfold Rmin
    | |- context [Rmax _ _] => unfold Rmax
    | |- context [Rabs _] => unfold Rabs
    end;
  try lra.

Ltac let_in_any y :=
  lazymatch goal with
  | |- ?P (let x := ?e in @?b x) =>
      change (let x := e in P (b x)); intro y; cbv beta
  end.

Ltac value v :=
  let y := fresh "y" in
  let_in_any y;
  assert (y = v) by (subst y; glsl_red; f_equal; apply f_equal; real_eval);
  clearbody y; subst y.

Ltac value_num v :=
  let y := fresh "y" in
  let_in_any y;
  assert (y = v) by (subst y; glsl_red; apply f_equal; real_eval);
  clearbody y; subst y.

Lemma snoise_origin :
  exists n0 : R,
    snoise (Vec3 (fin 0) (fin 0) (fin 0)) = fin n0
    /\ -0.84 < n0 < -0.83.
Proof.
  set (Q := fun r : num => exists n0 : R, r = fin n0 /\ -0.84 < n0 < -0.83).
  change (Q (snoise (Vec3 (fin 0) (fin 0) (fin 0)))).
  cbv beta delta [snoise].
  value (Vec2 (Some (1 / 6)) (Some (1 / 3))).
  value (Vec4 (Some 0) (Some 0.5) (Some 1) (Some 2)).
  (* i, x0 *)
  value (Vec3 (Some 0) (Some 0) (Some 0)).
  value (Vec3 (Some 0) (Some 0) (Some 0)).
  (* g, l, i1, i2 *)
  value (Vec3 (Some 1) (Some 1) (Some 1)).
  value (Vec3 (Some 0) (Some 0) (Some 0)).
  value (Vec3 (Some 0) (Some 0) (Some 0)).
  value (Vec3 (Some 1) (Some 1) (Some 1)).
  (* x1, x2, x3 *)
  value (Vec3 (Some (1 / 6)) (Some (1 / 6)) (Some (1 / 6))).
  value (Vec3 (Some (- 2 / 3)) (Some (- 2 / 3)) (Some (- 2 / 3))).
  value (Vec3 (Some (- 1 / 2)) (Some (- 1 / 2)) (Some (- 1 / 2))).
  (* i, p *)
  value (Vec3 (Some 0) (Some 0) (Some 0)).
  value (Vec4 (Some 0) (Some 0) (Some 2) (Some 2)).
  (* n_, ns *)
  value_num (Some (1 / 7)).
  value (Vec3 (Some (2 / 7)) (Some (- 13 / 14)) (Some (1 / 7))).
  (* j, x_, y_ *)
  value (Vec4 (Some 0) (Some 0) (Some 2) (Some 2)).
  value (Vec4 (Some 0) (Some 0) (Some 0) (Some 0)).
  value (Vec4 (Some 0) (Some 0) (Some 2) (Some 2)).
  (* x, y, h *)
  value (Vec4 (Some 0) (Some 1) (Some 2) (Some 3)).
  value (Vec4 (Some 0) (Some 1) (Some (18 / 7)) (Some (25 / 7))).
  value (Vec4 (Some 1) (Some (- 1)) (Some (- 25 / 7)) (Some (- 39 / 7))).
  (* b0, b1, s0, s1, sh *)
  value (Vec4 (Some 0) (Some 1) (Some 0) (Some 1)).
  value (Vec4 (Some 2) (Some 3) (Some (18 / 7)) (Some (25 / 7))).
  value (Vec4 (Some 1) (Some 3) (Some 1) (Some 3)).
  value (Vec4 (Some 5) (Some 7) (Some 5) (Some 7)).
  value (Vec4 (Some 0) (Some (- 1)) (Some (- 1)) (Some (- 1))).
  (* a0, a1 *)
  value (Vec4 (Some 0) (Some 0) (Some (- 2)) (Some (- 2))).
  value (Vec4 (Some (- 3)) (Some (- 17 / 7)) (Some (- 4)) (Some (- 24 / 7))).
  (* p0 .. p3 *)
  value (Vec3 (Some 0) (Some 0) (Some 1)).
  value (Vec3 (Some (- 2)) (Some (- 2)) (Some (- 1))).
  value (Vec3 (Some (- 3)) (Some (- 17 / 7)) (Some (- 25 / 7))).
  value (Vec3 (Some (- 4)) (Some (- 24 / 7)) (Some (- 39 / 7))).
  (* norm *)
  let_in_any norm.
  assert (exists n3 n4,
             norm = Vec4 (Some 1) (Some (1 / 3)) (Some n3) (Some n4))
    as (n3 & n4 & ->).
  { subst norm. glsl_red. rewrite !inversesqrt_Some by lra.
    rewrite (inv_sqrt_square (0 * 0 + 0 * 0 + 1 * 1) 1) by lra.
    rewrite (inv_sqrt_square (-2 * -2 + -2 * -2 + -1 * -1) 3) by lra.
    eexists _, _. f_equal; apply f_equal; lra. }
  value (Vec3 (Some 0) (Some 0) (Some 1)).
  value (Vec3 (Some (- 2 / 3)) (Some (- 2 / 3)) (Some (- 1 / 3))).
  (* the last two gradients are weighted by zero *)
  let_in_any p2.
  assert (exists g1 g2 g3, p2 = Vec3 (Some g1) (Some g2) (Some g3))
    as (g1 & g2 & g3 & ->)
    by (subst p2; glsl_red; eexists _, _, _; reflexivity).
  let_in_any p3.
  assert (exists g4 g5 g6, p3 = Vec3 (Some g4) (Some g5) (Some g6))
    as (g4 & g5 & g6 & ->)
    by (subst p3; glsl_red; eexists _, _, _; reflexivity).
  (* m, m * m *)
  value (Vec4 (Some 0.6) (Some (31 / 60)) (Some 0) (Some 0)).
  value (Vec4 (Some (9 / 25)) (Some (961 / 3600)) (Some 0) (Some 0)).
  subst Q. cbv beta. glsl_red.
  eexists. split; [reflexivity |]. lra.
Qed.

(** ** The wind signal *)

Lemma num_mul_assoc (a b c : num) : (a * b * c = a * (b * c))%num.
Proof.
  destruct a, b, c; cbn; try reflexivity. f_equal. ring.
Qed.

Lemma num_mul_one (a : num) : (a * 1.0 = a)%num.
Proof. destruct a; cbn; [f_equal; lra | reflexivity]. Qed.

Lemma num_literal_two : fin 2.0 = fin 2.
Proof. unfold fin. f_equal. lra. Qed.

(** C1, amended.  In the rich shader the raw wind signal is the weighted sum
    of the specification, third wave included, multiplied by turbulence
    times intensity.  The simple shader computes another signal:
    (sin(windTime + noise1*2)*0.7 + cos(windTime*1.5 + noise2*2)*0.5)
    multiplied by turbulence times intensity. *)
Theorem raw_wind_signal (u : Rich.uniforms) (a : Rich.Shader.vertex_inputs)
    (v : Simple.uniforms) (b : Simple.Shader.vertex_inputs) :
  Rich.Shader.windIntensity_initial u a
  = spec_raw_wind (Rich.Shader.windTime u) (Rich.Shader.noise1 u a)
      (Rich.Shader.noise2 u a) (Some (Rich.Shader.noise3 u a))
      (vx (Rich.Shader.instancePos a)) (vz (Rich.Shader.instancePos a))
      (Rich.Shader.gust u) (Rich.Shader.spatialWave u a)
      (Rich.Shader.individualPhase u a) (Rich.uWindTurbulence u)
      (Rich.uWindIntensity u)
  /\ Simple.Shader.windIntensity v b
     = simple_raw_wind (Simple.Shader.windTime v) (Simple.Shader.noise1 v b)
         (Simple.Shader.noise2 v b) (Simple.uWindTurbulence v)
         (Simple.uWindIntensity v).
Proof.
  split.
  - unfold Rich.Shader.windIntensity_initial, spec_raw_wind. cbv zeta.
    rewrite num_mul_assoc, num_mul_one, num_literal_two. reflexivity.
  - unfold Simple.Shader.windIntensity, simple_raw_wind.
    rewrite num_mul_assoc, num_literal_two. reflexivity.
Qed.

(** ** The simple shader computes another signal *)

Lemma PI_bounds : 3 < PI < 3.3.
Proof.
  split; [pose proof PI2_3_2; lra |].
  pose proof (proj2 (PI_2_3_7_ineq 0)) as H.
  cbn in H. unfold tg_alt, PI_2_3_7_tg, Ratan_seq in H. cbn in H.
  lra.
Qed.

Lemma sin_cos_negative (x : R) :
  -1.68 < x < -1.66 -> Rtrigo_def.sin x < 0 /\ Rtrigo_def.cos x < 0.
Proof.
  intros Hx. pose proof PI_bounds. split.
  - apply sin_lt_0_var; lra.
  - rewrite <- cos_neg. apply cos_lt_0; lra.
Qed.

(** Unfold the shaders down to arithmetic on numbers; [snoise], division,
    powers and square roots stay. *)
Ltac shader_red :=
  cbv [Rich.Shader.sway Rich.Shader.windIntensity_final
       Rich.Shader.windIntensity_initial Rich.Shader.individualPhase
       Rich.Shader.gust Rich.Shader.gustTime Rich.Shader.spatialWave
       Rich.Shader.windVector Rich.Shader.heightFactor
       Rich.Shader.scaledPosition Rich.Shader.heightRatio
       Rich.Shader.noise1 Rich.Shader.noise2 Rich.Shader.noise3
       Rich.Shader.windTime Rich.Shader.instancePos Rich.Shader.t
       Rich.Shader.position Rich.Shader.instanceMatrix
       Rich.Shader.aBladeHeight Rich.Shader.aStiffness
       Rich.Shader.aPhaseOffset RichInputs.with_stiffness
       Rich.uTime Rich.uWindSpeed Rich.uWindDirection Rich.uWindNoiseFactor
       Rich.uWindTurbulence Rich.uWindIntensity Rich.uBladeHeight
       Rich.uBladeWidth Rich.uGustFrequency Rich.uGustIntensity
       Rich.uMicroMovement Rich.uWavePropagation
       Simple.Shader.sway Simple.Shader.windIntensity
       Simple.Shader.windVector Simple.Shader.heightFactor
       Simple.Shader.noise1 Simple.Shader.noise2 Simple.Shader.windTime
       Simple.Shader.instancePos Simple.Shader.t Simple.Shader.position
       Simple.Shader.instanceMatrix
       Simple.uTime Simple.uWindSpeed Simple.uWindDirection
       Simple.uWindNoiseFactor Simple.uWindTurbulence Simple.uWindIntensity
       Simple.uBladeHeight Simple.uBladeWidth
       spec_raw_wind simple_raw_wind
       xyz col3 vx vy vz v4x v4y v4z v4w
       Num.add Num.sub Num.mul Num.neg Num.sin Num.cos Num.abs Num.lift1
       Num.lift2 fin].

(** C1, as stated for both variants, fails.  At time 0 and at the origin of
    the field, with turbulence and intensity 1, the simple shader's signal
    differs from the specified sum (third wave omitted, no individual
    phase) whatever non-negative gust and spatial wave are added: its
    weights are 0.7 and 0.5 where the sum has 0.5 and 0.3. *)
Lemma simple_raw_wind_differs :
  let u :=
    Simple.mkUniforms 0 3 (Vec3 1 0 1) (mkColor 0) (mkColor 0) 1 1 1 15 0.1 in
  let a :=
    Simple.Shader.mkVertexInputs (Vec3 0 15 0)
      (Mat4 (Vec4 1 0 0 0) (Vec4 0 1 0 0) (Vec4 0 0 1 0) (Vec4 0 0 0 1)) in
  exists code : R,
    Simple.Shader.windIntensity u a = fin code
    /\ forall gust spatialWave : R,
        0 <= gust -> 0 <= spatialWave ->
        spec_raw_wind (Simple.Shader.windTime u) (Simple.Shader.noise1 u a)
          (Simple.Shader.noise2 u a) None
          (vx (Simple.Shader.instancePos a))
          (vz (Simple.Shader.instancePos a)) (fin gust) (fin spatialWave)
          (fin 0) (Simple.uWindTurbulence u) (Simple.uWindIntensity u)
        <> fin code.
Proof.
  destruct snoise_origin as (n0 & Hn & Hbounds). unfold fin in Hn.
  destruct (sin_cos_negative (n0 * 2)) as [Hsin Hcos]; [lra |].
  shader_red.
  replace (0 * 0.15) with 0 by lra. replace (0 * 0.1) with 0 by lra.
  replace (0 * 3 * 0.3) with 0 by lra. replace (0 * 3 * 0.2) with 0 by lra.
  rewrite Hn. eexists. split; [reflexivity |].
  intros gust spatialWave Hg Hw H. injection H as H.
  replace (0 * 3 + n0 * 2.0) with (n0 * 2) in H by lra.
  replace (0 * 3 * 1.5 + n0 * 2.0) with (n0 * 2) in H by lra.
  replace (0 * 3 + n0 * 2 + 0 * 0.01) with (n0 * 2) in H by lra.
  replace (0 * 3 * 0.5 + n0 * 2 + 0 * 0.01) with (n0 * 2) in H by lra.
  lra.
Qed.

(** ** Sway *)

Lemma pow_nonneg (x y : R) :
  0 <= x -> 0 < y ->
  exists r, Num.pow (Some x) (Some y) = Some r /\ (x = 0 -> r = 0).
Proof.
  intros Hx Hy. unfold Num.pow.
  destruct (Rlt_dec x 0); [lra |].
  destruct (Req_dec_T x 0).
  - destruct (Rlt_dec 0 y); [| lra]. exists 0. auto.
  - exists (Rpower x y). split; [reflexivity | contradiction].
Qed.

(** Replace the noise samples of finite arguments by their values. *)
Ltac noise_values :=
  repeat match goal with
    | |- context [snoise (Vec3 (Some ?x) (Some ?y) (Some ?z))] =>
        let n := fresh "n" in
        let Hn := fresh "Hn" in
        destruct (snoise_finite x y z) as [n Hn];
        unfold fin in Hn; rewrite Hn; clear Hn
    end.

Ltac finite_fields :=
  repeat match goal with
    | H : finite3 _ |- _ => destruct H as (? & ? & ?)
    | H : finite _ |- _ => destruct H as [? H]; cbn in H; subst
    end.

(** The raw wind signal of a finite wind state on a finite vertex is
    finite, and the stiffness plays no part in it. *)
Lemma rich_windIntensity_initial_finite (u : Rich.uniforms)
    (a : Rich.Shader.vertex_inputs) :
  RichInputs.finite_uniforms u -> RichInputs.finite_inputs a ->
  exists w : R, Rich.Shader.windIntensity_initial u a = Some w.
Proof.
  intros Hu Ha.
  destruct u as [uT uS uD uCb uCt uN uTu uI uH uW uGf uGi uM uWp].
  destruct a as [pos [c0 c1 c2 [ix iy iz iw]] ah st ph].
  destruct uD as [dx dy dz]. destruct pos as [px py pz].
  unfold RichInputs.finite_uniforms, RichInputs.finite_inputs in *.
  cbn in Hu, Ha.
  destruct Hu as (? & ? & ? & ? & ? & ? & ? & ? & ? & ? & ?).
  destruct Ha as (? & ? & ? & ? & ?).
  finite_fields.
  shader_red. noise_values.
  match goal with
  | |- context [Num.pow (Some ?x) (Some ?y)] =>
      destruct (pow_nonneg x y) as (g & Hg & _);
      [ match goal with
        | |- 0 <= Rtrigo_def.sin ?t * _ + _ =>
            pose proof (SIN_bound t); lra
        end
      | lra
      | rewrite Hg ]
  end.
  eexists. reflexivity.
Qed.

Lemma rich_noise_factor_finite (u : Rich.uniforms)
    (a : Rich.Shader.vertex_inputs) :
  RichInputs.finite_uniforms u -> RichInputs.finite_inputs a ->
  exists k : R,
    (1.0 + Rich.uWindNoiseFactor u
           * (Rich.Shader.noise1 u a + Rich.Shader.noise2 u a))%num
    = Some k.
Proof.
  intros Hu Ha.
  destruct u as [uT uS uD uCb uCt uN uTu uI uH uW uGf uGi uM uWp].
  destruct a as [pos [c0 c1 c2 [ix iy iz iw]] ah st ph].
  destruct uD as [dx dy dz]. destruct pos as [px py pz].
  unfold RichInputs.finite_uniforms, RichInputs.finite_inputs in *.
  cbn in Hu, Ha.
  destruct Hu as (? & ? & ? & ? & ? & ? & ? & ? & ? & ? & ?).
  destruct Ha as (? & ? & ? & ? & ?).
  finite_fields.
  shader_red. noise_values. eexists. reflexivity.
Qed.

Lemma rich_heightFactor_value (u : Rich.uniforms)
    (a : Rich.Shader.vertex_inputs) (H ah py : R) :
  Rich.uBladeHeight u = fin H ->
  Rich.Shader.aBladeHeight a = fin ah ->
  vy (Rich.Shader.position a) = fin py ->
  H <> 0 -> ah <> 0 -> 0 <= py / H ->
  exists hf : R,
    Rich.Shader.heightFactor u a = Some hf /\ (py = 0 -> hf = 0).
Proof.
  intros HH Hah Hpy HH0 Hah0 Hsign.
  unfold Rich.Shader.heightFactor, Rich.Shader.scaledPosition,
    Rich.Shader.heightRatio.
  cbn [vy]. rewrite HH, Hah, Hpy. rewrite div_fin by assumption.
  cbn [Num.mul Num.lift2 fin]. rewrite div_Some by assumption.
  assert (Hq : py * (ah / H) / ah = py / H) by (field; auto).
  rewrite Hq.
  destruct (pow_nonneg (py / H) 2.0 Hsign ltac:(lra)) as (hf & Hhf & Hzero).
  exists hf. split; [exact Hhf |].
  intros ->. apply Hzero. unfold Rdiv. ring.
Qed.

Lemma rich_stiffness_irrelevant (u : Rich.uniforms)
    (a : Rich.Shader.vertex_inputs) (s : num) :
  Rich.Shader.windIntensity_initial u (RichInputs.with_stiffness a s)
  = Rich.Shader.windIntensity_initial u a
  /\ Rich.Shader.heightFactor u (RichInputs.with_stiffness a s)
     = Rich.Shader.heightFactor u a
  /\ Rich.Shader.noise1 u (RichInputs.with_stiffness a s)
     = Rich.Shader.noise1 u a
  /\ Rich.Shader.noise2 u (RichInputs.with_stiffness a s)
     = Rich.Shader.noise2 u a.
Proof.
  destruct a as [pos m ah st ph].
  split; [| split; [| split]]; shader_red; reflexivity.
Qed.

(** On finite inputs with non-zero heights, the sway is a finite quantity
    divided by the stiffness, and it vanishes at the base of the blade. *)
Lemma rich_sway_over_stiffness (u : Rich.uniforms)
    (a : Rich.Shader.vertex_inputs) (H ah py : R) :
  RichInputs.finite_uniforms u -> RichInputs.finite_inputs a ->
  Rich.uBladeHeight u = fin H ->
  Rich.Shader.aBladeHeight a = fin ah ->
  vy (Rich.Shader.position a) = fin py ->
  H <> 0 -> ah <> 0 -> 0 <= py / H ->
  exists core : R,
    (py = 0 -> core = 0)
    /\ forall st : R,
        st <> 0 ->
        Rich.Shader.sway u (RichInputs.with_stiffness a (fin st))
        = fin (core / st).
Proof.
  intros Hu Ha HH Hah Hpy HH0 Hah0 Hsign.
  destruct (rich_windIntensity_initial_finite u a Hu Ha) as [w Hw].
  destruct (rich_noise_factor_finite u a Hu Ha) as [k Hk].
  destruct (rich_heightFactor_value u a H ah py HH Hah Hpy HH0 Hah0 Hsign)
    as (hf & Hhf & Hzero).
  exists (w * hf * k). split.
  - intros Hbase. rewrite (Hzero Hbase). ring.
  - intros st Hst.
    destruct (rich_stiffness_irrelevant u a (fin st))
      as (Ew & Eh & En1 & En2).
    unfold Rich.Shader.sway, Rich.Shader.windIntensity_final.
    rewrite Ew, Eh, En1, En2, Hw, Hhf, Hk.
    cbn [Rich.Shader.aStiffness RichInputs.with_stiffness].
    rewrite div_fin by assumption.
    cbn [Num.mul Num.lift2 fin]. unfold fin. apply (f_equal Some).
    replace 1.0 with 1 by lra. field. assumption.
Qed.

Lemma rich_with_own_stiffness (a : Rich.Shader.vertex_inputs) (s : num) :
  Rich.Shader.aStiffness a = s -> RichInputs.with_stiffness a s = a.
Proof. destruct a. cbn. intros <-. reflexivity. Qed.


Lemma sqrt_Some (x : R) : 0 <= x -> GLSL.sqrt (Some x) = Some (R_sqrt.sqrt x).
Proof.
  intros Hx. unfold GLSL.sqrt. destruct (Rlt_dec x 0); [lra | reflexivity].
Qed.

(** [normalize] of a finite vector that is not the zero vector. *)
Lemma normalize_finite (dx dy dz : R) :
  dx <> 0 \/ dy <> 0 \/ dz <> 0 ->
  finite3 (normalize (Vec3 (fin dx) (fin dy) (fin dz))).
Proof.
  intros Hd.
  assert (Hpos : 0 < dx * dx + dy * dy + dz * dz).
  { assert (Hsq : forall t, 0 <= t * t) by (intros t; nra).
    pose proof (Hsq dx). pose proof (Hsq dy). pose proof (Hsq dz).
    destruct Hd as [Hd | [Hd | Hd]];
      [assert (0 < dx * dx) by nra | assert (0 < dy * dy) by nra
       | assert (0 < dz * dz) by nra]; lra. }
  unfold normalize, length3, map3, dot3, finite3. cbn [vx vy vz].
  cbn [Num.mul Num.add Num.lift2 fin]. rewrite sqrt_Some by lra.
  pose proof (sqrt_lt_R0 _ Hpos).
  rewrite !div_Some by lra. repeat split; eexists; reflexivity.
Qed.





(** C8, as stated for every pair of evaluations, fails: at the base of the
    blade (y = 0) the height factor is zero, the sway is zero whatever the
    stiffness, and neither magnitude is greater than the other. *)
Lemma sway_at_the_base_ignores_stiffness :
  let u :=
    Rich.mkUniforms 1 3 (Vec3 1 0 1) (mkColor 0) (mkColor 0) 1 0.7 1.4 15
      0.5 0.15 0.35 0.2 0.05 in
  let a :=
    Rich.Shader.mkVertexInputs (Vec3 (- 0.25) 0 0)
      (Mat4 (Vec4 1 0 0 0) (Vec4 0 1 0 0) (Vec4 0 0 1 0) (Vec4 0 0 0 1))
      15 1 0 in
  exists soft stiff : R,
    Rich.Shader.sway u (RichInputs.with_stiffness a (fin 0.7)) = fin soft
    /\ Rich.Shader.sway u (RichInputs.with_stiffness a (fin 1.3)) = fin stiff
    /\ soft = 0 /\ stiff = 0
    /\ ~ Rabs stiff < Rabs soft.
Proof.
  intros u a.
  destruct (rich_sway_over_stiffness u a 15 15 0)
    as (core & Hzero & Hsway).
  - repeat split; eexists; reflexivity.
  - repeat split; eexists; reflexivity.
  - reflexivity.
  - reflexivity.
  - reflexivity.
  - lra.
  - lra.
  - lra.
  - rewrite (Hzero eq_refl) in Hsway.
    exists (0 / 0.7), (0 / 1.3).
    split; [apply Hsway; lra |]. split; [apply Hsway; lra |].
    split; [lra |]. split; [lra |].
    replace (0 / 0.7) with 0 by lra. replace (0 / 1.3) with 0 by lra. lra.
Qed.

(** C8, amended.  With identical other inputs, the sway at stiffness 0.7 is
    the sway at stiffness 1.3 multiplied by 1.3/0.7: its magnitude is never
    smaller, and it is strictly greater whenever the sway is not zero. *)
Theorem sway_inverse_in_stiffness (u : Rich.uniforms)
    (a : Rich.Shader.vertex_inputs) (H ah py : R) :
  RichInputs.finite_uniforms u -> RichInputs.finite_inputs a ->
  Rich.uBladeHeight u = fin H ->
  Rich.Shader.aBladeHeight a = fin ah ->
  vy (Rich.Shader.position a) = fin py ->
  H <> 0 -> ah <> 0 -> 0 <= py / H ->
  exists soft stiff : R,
    Rich.Shader.sway u (RichInputs.with_stiffness a (fin 0.7)) = fin soft
    /\ Rich.Shader.sway u (RichInputs.with_stiffness a (fin 1.3)) = fin stiff
    /\ soft = stiff * (1.3 / 0.7)
    /\ Rabs stiff <= Rabs soft
    /\ (stiff <> 0 -> Rabs stiff < Rabs soft).
Proof.
  intros Hu Ha HH Hah Hpy HH0 Hah0 Hsign.
  destruct (rich_sway_over_stiffness u a H ah py Hu Ha HH Hah Hpy HH0
              Hah0 Hsign) as (core & _ & Hsway).
  exists (core / 0.7), (core / 1.3).
  split; [apply Hsway; lra |]. split; [apply Hsway; lra |].
  split; [lra |].
  unfold Rabs.
  destruct (Rcase_abs (core / 1.3)), (Rcase_abs (core / 0.7));
    split; try lra; intros Hnz; lra.
Qed.

Lemma sway_inverse_in_stiffness_witness :
  exists soft stiff : R,
    Rich.Shader.sway
      (Rich.mkUniforms 1 3 (Vec3 1 0 1) (mkColor 0) (mkColor 0) 1 0.7 1.4
         15 0.5 0.15 0.35 0.2 0.05)
      (RichInputs.with_stiffness
         (Rich.Shader.mkVertexInputs (Vec3 0.25 15 0)
            (Mat4 (Vec4 1 0 0 0) (Vec4 0 1 0 0) (Vec4 0 0 1 0)
               (Vec4 0 0 0 1)) 15 1 0) (fin 0.7))
    = fin soft
    /\ Rich.Shader.sway
         (Rich.mkUniforms 1 3 (Vec3 1 0 1) (mkColor 0) (mkColor 0) 1 0.7 1.4
            15 0.5 0.15 0.35 0.2 0.05)
         (RichInputs.with_stiffness
            (Rich.Shader.mkVertexInputs (Vec3 0.25 15 0)
               (Mat4 (Vec4 1 0 0 0) (Vec4 0 1 0 0) (Vec4 0 0 1 0)
                  (Vec4 0 0 0 1)) 15 1 0) (fin 1.3))
       = fin stiff
    /\ soft = stiff * (1.3 / 0.7)
    /\ Rabs stiff <= Rabs soft
    /\ (stiff <> 0 -> Rabs stiff < Rabs soft).
Proof.
  apply (sway_inverse_in_stiffness
           (Rich.mkUniforms 1 3 (Vec3 1 0 1) (mkColor 0) (mkColor 0) 1 0.7
              1.4 15 0.5 0.15 0.35 0.2 0.05)
           (Rich.Shader.mkVertexInputs (Vec3 0.25 15 0)
              (Mat4 (Vec4 1 0 0 0) (Vec4 0 1 0 0) (Vec4 0 0 1 0)
                 (Vec4 0 0 0 1)) 15 1 0)
           15 15 15).
  - repeat split; eexists; reflexivity.
  - repeat split; eexists; reflexivity.
  - reflexivity.
  - reflexivity.
  - reflexivity.
  - lra.
  - lra.
  - lra.
Defined.

(** * Further properties of the code *)

(** ** The whole blade *)

Lemma vertex_store_other (a : list num) (i : Z) (v : num) (k : nat) :
  (i < 3 * Z.of_nat k \/ 3 * Z.of_nat k + 2 < i)%Z ->
  vertex (store a i v) k = vertex a k.
Proof.
  intros H. unfold vertex. rewrite !lookup_store_ne by lia. reflexivity.
Qed.

Lemma vertex_store_three (a : list num) (j : Z) (x y z : num) :
  (0 <= j)%Z -> (3 * j + 2 < Z.of_nat (length a))%Z ->
  vertex (store (store (store a (j * 3) x) (j * 3 + 1) y) (j * 3 + 2) z)
    (Z.to_nat j)
  = Some (Vec3 x y z).
Proof.
  intros Hj Hlen. unfold vertex.
  repeat (rewrite lookup_store by (rewrite ?length_store; lia);
          case_decide; try lia).
  reflexivity.
Qed.

(** The vertices of the rich blade: base, tip, and in between the curved
    profile with its jitter. *)
Lemma rich_generateBladeVertices_profile (rand : nat -> R)
    (variation height width : num) (verticesCount : Z) (n : nat) :
  (2 <= verticesCount)%Z ->
  let actual :=
    (height * (1 - variation / 2 + fin (rand n) * variation))%num in
  exists vertices n',
    Rich.generateBladeVertices rand variation height width verticesCount n
    = Ok (vertices, n')
    /\ length vertices = Z.to_nat (verticesCount * 3)
    /\ vertex vertices 0 = Some (Vec3 (- width / 2)%num 0 0)
    /\ vertex vertices (Z.to_nat (verticesCount - 1))
       = Some (Vec3 (width / 2)%num actual 0)
    /\ forall i : Z,
        (1 <= i < verticesCount - 1)%Z ->
        exists k1 k2 : nat,
          let t := (of_Z i / of_Z (verticesCount - 1))%num in
          vertex vertices (Z.to_nat i)
          = Some (Vec3
                    ((fin (rand k1) - 0.5) * width
                     * (1 - Num.abs (t - 0.5) * 2))%num
                    (t * actual + Num.sin (Math_PI * t) * actual * 0.25)%num
                    ((fin (rand k2) - 0.5) * 0.05)%num).
Proof.
  intros Hvc actual. unfold Rich.generateBladeVertices.
  rewrite (bind_ok (Math_random rand) _ n (S n) (fin (rand n)) eq_refl).
  run_new_array. fold actual. cbv zeta.
  match goal with
  | |- context [for_range ?lo ?hi ?body ?s0 ?k0] =>
      set (init := s0);
      destruct (for_range_inv
                  (fun (j : Z) (a : list num) (_ : nat) =>
                     keeps init 3 (Z.to_nat ((verticesCount - 1) * 3)) a
                     /\ forall i : Z,
                         (1 <= i < j)%Z ->
                         exists k1 k2 : nat,
                           vertex a (Z.to_nat i)
                           = Some (Vec3
                                     ((fin (rand k1) - 0.5) * width
                                      * (1 - Num.abs
                                               (of_Z i
                                                / of_Z (verticesCount - 1)
                                                - 0.5) * 2))%num
                                     (of_Z i / of_Z (verticesCount - 1)
                                      * actual
                                      + Num.sin
                                          (Math_PI
                                           * (of_Z i
                                              / of_Z (verticesCount - 1)))
                                        * actual * 0.25)%num
                                     ((fin (rand k2) - 0.5) * 0.05)%num))
                  body lo hi init k0)
        as (vertices & n' & Hrun & Hkeeps & Hin)
  end.
  - lia.
  - split; [apply keeps_refl | intros i Hi; lia].
  - intros j a k Hj (Hkeeps & Hin).
    cbv beta zeta delta [ret bind Math_random].
    eexists _, _. split; [reflexivity |]. split.
    + repeat apply keeps_store; try assumption; lia.
    + intros i Hi. destruct (Z.eq_dec i j) as [-> | Hne].
      * exists k, (S k). apply vertex_store_three; [lia |].
        destruct Hkeeps as [-> _]. subst init.
        rewrite !length_store, length_replicate. lia.
      * destruct (Hin i ltac:(lia)) as (k1 & k2 & Hv).
        exists k1, k2. rewrite !vertex_store_other by lia. exact Hv.
  - exists vertices, n'. split; [exact Hrun |].
    assert (Hlen : length vertices = Z.to_nat (verticesCount * 3)).
    { destruct Hkeeps as [-> _]. subst init.
      now rewrite !length_store, length_replicate. }
    split; [exact Hlen |]. split; [| split].
    + rewrite (vertex_keeps _ _ _ _ 0 Hkeeps) by lia.
      subst init. unfold vertex. cbn [Nat.mul Nat.add]. solve_lookup.
    + rewrite (vertex_keeps _ _ _ _ _ Hkeeps) by lia.
      subst init. unfold vertex. solve_lookup.
    + intros i Hi. cbv zeta. apply Hin. lia.
Qed.

Lemma ratio_bounds (i m : Z) :
  (1 <= i < m)%Z -> 0 < IZR i / IZR m < 1.
Proof.
  intros H.
  assert (0 < IZR i) by (apply IZR_lt; lia).
  assert (IZR i < IZR m) by (apply IZR_lt; lia).
  split.
  - apply Rdiv_lt_0_compat; lra.
  - apply Rmult_lt_reg_r with (IZR m); [lra |].
    unfold Rdiv. rewrite Rmult_assoc, Rinv_l by lra. lra.
Qed.

(** Bounds on one interior vertex: the jitter is tapered, the profile rises
    above the base and bows out by at most a quarter (a fifth) of the
    height. *)
Lemma interior_vertex_bounds (r1 r2 t w A c : R) :
  0 <= r1 < 1 -> 0 <= r2 < 1 -> 0 < t < 1 -> 0 < w -> 0 <= A -> 0 <= c ->
  - w / 2 <= (r1 - 0.5) * w * (1 - Rabs (t - 0.5) * 2) <= w / 2
  /\ 0 <= t * A + Rtrigo_def.sin (PI * t) * A * c <= (1 + c) * A
  /\ - 0.025 <= (r2 - 0.5) * 0.05 <= 0.025.
Proof.
  intros Hr1 Hr2 Ht Hw HA Hc.
  assert (Htaper : 0 <= 1 - Rabs (t - 0.5) * 2 <= 1).
  { unfold Rabs. destruct (Rcase_abs (t - 0.5)); lra. }
  set (taper := 1 - Rabs (t - 0.5) * 2) in *.
  assert (Hsin : 0 <= Rtrigo_def.sin (PI * t) <= 1).
  { pose proof PI_RGT_0. split.
    - apply sin_ge_0; nra.
    - apply SIN_bound. }
  set (s := Rtrigo_def.sin (PI * t)) in *.
  split; [| split].
  - assert (- w / 2 <= (r1 - 0.5) * w <= w / 2) by nra. nra.
  - assert (0 <= s * A * c) by (repeat apply Rmult_le_pos; lra).
    assert (s * A * c <= 1 * A * c).
    { repeat apply Rmult_le_compat_r; lra. }
    nra.
  - lra.
Qed.

(** The box around the blade of the rich generator. *)
Lemma rich_blade_box (rand : nat -> R) (height width variation : R)
    (verticesCount : Z) (n : nat) :
  0 < height -> 0 < width -> 0 <= variation <= 2 ->
  (2 <= verticesCount)%Z ->
  (forall k, 0 <= rand k < 1) ->
  exists vertices n',
    Rich.generateBladeVertices rand variation height width verticesCount n
    = Ok (vertices, n')
    /\ length vertices = Z.to_nat (verticesCount * 3)
    /\ forall k : nat,
        (Z.of_nat k < verticesCount)%Z ->
        exists x y z : R,
          vertex vertices k = Some (Vec3 (fin x) (fin y) (fin z))
          /\ - width / 2 <= x <= width / 2
          /\ 0 <= y <= 1.25 * (height * (1 + variation / 2))
          /\ - 0.025 <= z <= 0.025.
Proof.
  intros Hh Hw Hv Hvc Hrand.
  destruct (rich_generateBladeVertices_profile rand variation height width
              verticesCount n Hvc)
    as (vertices & n' & Hrun & Hlen & Hbase & Htip & Hin).
  exists vertices, n'. split; [exact Hrun |]. split; [exact Hlen |].
  set (A := height * (1 - variation / 2 + rand n * variation)).
  assert (HA : 0 <= A <= height * (1 + variation / 2)).
  { pose proof (Hrand n). unfold A.
    assert (0 <= rand n * variation) by (apply Rmult_le_pos; lra).
    assert (rand n * variation <= variation) by nra.
    split; [apply Rmult_le_pos; lra | apply Rmult_le_compat_l; lra]. }
  intros k Hk.
  destruct (Z.eq_dec (Z.of_nat k) 0%Z) as [Hk0 | Hk0];
    [| destruct (Z.eq_dec (Z.of_nat k) (verticesCount - 1)%Z)
         as [Hkt | Hkt]].
  - replace k with 0%nat by lia. rewrite Hbase.
    exists (- width / 2), 0, 0. split; [now num_simpl |].
    repeat split; nra.
  - replace k with (Z.to_nat (verticesCount - 1)) by lia. rewrite Htip.
    exists (width / 2), A, 0. split; [unfold A; now num_simpl |].
    repeat split; nra.
  - destruct (Hin (Z.of_nat k) ltac:(lia)) as (k1 & k2 & Hvert).
    cbv zeta in Hvert. rewrite Nat2Z.id in Hvert. rewrite Hvert.
    assert (Hm : IZR (verticesCount - 1) <> 0).
    { apply not_0_IZR. lia. }
    pose proof (ratio_bounds (Z.of_nat k) (verticesCount - 1) ltac:(lia))
      as Ht.
    destruct (interior_vertex_bounds (rand k1) (rand k2)
                (IZR (Z.of_nat k) / IZR (verticesCount - 1)) width A 0.25
                (Hrand k1) (Hrand k2) Ht Hw (proj1 HA) ltac:(lra))
      as (Hx & Hy & Hz).
    eexists _, _, _. split.
    { unfold of_Z. rewrite !div_fin by (assumption || lra).
      cbn [Num.add Num.sub Num.mul Num.abs Num.sin Num.lift1 Num.lift2 fin
           Math_PI].
      reflexivity. }
    split; [exact Hx |]. split; [| exact Hz].
    fold A. lra.
Qed.

(** ** The triangles *)

Lemma to_uint32_small (z : Z) : (0 <= z < 2 ^ 32)%Z -> to_uint32 z = z.
Proof. intros H. unfold to_uint32. now apply Z.mod_small. Qed.

(** X3.  The index list of the rich generator is the triangle fan itself:
    triangle [i] joins the base vertex 0 to the vertices [i+1] and [i+2].
    Its three corners are distinct, and from three vertices on every vertex
    of the blade belongs to some triangle. *)
Theorem rich_generateBladeIndices_is_fan (verticesCount : Z) (n : nat) :
  (2 <= verticesCount < 2 ^ 32)%Z ->
  exists indices,
    Rich.generateBladeIndices verticesCount n = Ok (indices, n)
    /\ (forall i : Z,
           (0 <= i < verticesCount - 2)%Z ->
           indices !! Z.to_nat (3 * i) = Some 0%Z
           /\ indices !! Z.to_nat (3 * i + 1) = Some (i + 1)%Z
           /\ indices !! Z.to_nat (3 * i + 2) = Some (i + 2)%Z)
    /\ ((3 <= verticesCount)%Z ->
        forall k : Z, (0 <= k < verticesCount)%Z -> k ∈ indices).
Proof.
  intros Hvc. unfold Rich.generateBladeIndices.
  run_new_array.
  set (len := Z.to_nat ((verticesCount - 2) * 3)).
  match goal with
  | |- context [for_range ?lo ?hi ?body ?s0 n] =>
      destruct (for_range_inv
                  (fun (j : Z) (a : list Z) (k : nat) =>
                     k = n /\ length a = len
                     /\ forall i : Z,
                         (0 <= i < j)%Z ->
                         a !! Z.to_nat (3 * i) = Some 0%Z
                         /\ a !! Z.to_nat (3 * i + 1) = Some (i + 1)%Z
                         /\ a !! Z.to_nat (3 * i + 2) = Some (i + 2)%Z)
                  body lo hi s0 n)
        as (indices & n' & Hrun & -> & Hlen & Hfan)
  end.
  - lia.
  - split; [reflexivity |]. split; [apply length_replicate | intros; lia].
  - intros j a k Hj (-> & Hlen & Hfan).
    cbv beta zeta delta [ret].
    eexists _, _. split; [reflexivity |].
    split; [reflexivity |]. split; [now rewrite !length_store |].
    intros i Hi. destruct (Z.eq_dec i j) as [-> | Hne].
    + rewrite !to_uint32_small by lia.
      repeat split;
        repeat (rewrite lookup_store by (rewrite ?length_store; lia);
                case_decide; try lia); reflexivity.
    + rewrite !lookup_store_ne by lia. apply Hfan. lia.
  - exists indices. split; [exact Hrun |]. split; [exact Hfan |].
    intros Hthree k Hk. apply list_elem_of_lookup.
    destruct (Z.eq_dec k 0%Z) as [-> | Hk0];
      [| destruct (Z.eq_dec k 1%Z) as [-> | Hk1]].
    + exists (Z.to_nat (3 * 0)). apply (Hfan 0%Z). lia.
    + exists (Z.to_nat (3 * 0 + 1)). apply (Hfan 0%Z). lia.
    + exists (Z.to_nat (3 * (k - 2) + 2)).
      replace k with (k - 2 + 2)%Z at 2 by lia. apply (Hfan (k - 2)%Z). lia.
Qed.

Lemma rich_generateBladeIndices_is_fan_witness :
  exists indices,
    Rich.generateBladeIndices 5 0%nat = Ok (indices, 0%nat)
    /\ (forall i : Z,
           (0 <= i < 5 - 2)%Z ->
           indices !! Z.to_nat (3 * i) = Some 0%Z
           /\ indices !! Z.to_nat (3 * i + 1) = Some (i + 1)%Z
           /\ indices !! Z.to_nat (3 * i + 2) = Some (i + 2)%Z)
    /\ ((3 <= 5)%Z -> forall k : Z, (0 <= k < 5)%Z -> k ∈ indices).
Proof.
  apply (rich_generateBladeIndices_is_fan 5 0%nat). lia.
Defined.

(** X4.  The index list of the simple generator is a strip over two rows of
    [verticesCount] vertices: segment [i] is made of the triangles
    (i, i+1, verticesCount+i) and (i, verticesCount+i, verticesCount+i+1),
    so every index is below twice the number of vertices. *)
Theorem simple_generateBladeIndices_is_strip (verticesCount : Z) (n : nat) :
  (1 <= verticesCount < 2 ^ 31)%Z ->
  exists indices,
    Simple.generateBladeIndices verticesCount n = Ok (indices, n)
    /\ (forall i : Z,
           (0 <= i < verticesCount - 1)%Z ->
           indices !! Z.to_nat (6 * i) = Some i
           /\ indices !! Z.to_nat (6 * i + 1) = Some (i + 1)%Z
           /\ indices !! Z.to_nat (6 * i + 2) = Some (verticesCount + i)%Z
           /\ indices !! Z.to_nat (6 * i + 3) = Some i
           /\ indices !! Z.to_nat (6 * i + 4) = Some (verticesCount + i)%Z
           /\ indices !! Z.to_nat (6 * i + 5)
              = Some (verticesCount + i + 1)%Z)
    /\ Forall (fun v => 0 <= v < 2 * verticesCount)%Z indices.
Proof.
  intros Hvc. unfold Simple.generateBladeIndices.
  run_new_array.
  set (len := Z.to_nat ((verticesCount - 1) * 6)).
  match goal with
  | |- context [for_range ?lo ?hi ?body ?s0 n] =>
      destruct (for_range_inv
                  (fun (j : Z) (a : list Z) (k : nat) =>
                     k = n /\ length a = len
                     /\ Forall (fun v => 0 <= v < 2 * verticesCount)%Z a
                     /\ forall i : Z,
                         (0 <= i < j)%Z ->
                         a !! Z.to_nat (6 * i) = Some i
                         /\ a !! Z.to_nat (6 * i + 1) = Some (i + 1)%Z
                         /\ a !! Z.to_nat (6 * i + 2)
                            = Some (verticesCount + i)%Z
                         /\ a !! Z.to_nat (6 * i + 3) = Some i
                         /\ a !! Z.to_nat (6 * i + 4)
                            = Some (verticesCount + i)%Z
                         /\ a !! Z.to_nat (6 * i + 5)
                            = Some (verticesCount + i + 1)%Z)
                  body lo hi s0 n)
        as (indices & n' & Hrun & -> & Hlen & Hall & Hstrip)
  end.
  - lia.
  - split; [reflexivity |]. split; [apply length_replicate |].
    split; [apply Forall_replicate; lia | intros; lia].
  - intros j a k Hj (-> & Hlen & Hall & Hstrip).
    cbv beta zeta delta [ret].
    eexists _, _. split; [reflexivity |].
    split; [reflexivity |]. split; [now rewrite !length_store |].
    rewrite !to_uint32_small by lia. split.
    + repeat apply Forall_store; try assumption; lia.
    + intros i Hi. destruct (Z.eq_dec i j) as [-> | Hne].
      * repeat split;
          repeat (rewrite lookup_store by (rewrite ?length_store; lia);
                  case_decide; try lia); reflexivity.
      * rewrite !lookup_store_ne by lia. apply Hstrip. lia.
  - exists indices. auto.
Qed.

Lemma simple_generateBladeIndices_is_strip_witness :
  exists indices,
    Simple.generateBladeIndices 3 0%nat = Ok (indices, 0%nat)
    /\ (forall i : Z,
           (0 <= i < 3 - 1)%Z ->
           indices !! Z.to_nat (6 * i) = Some i
           /\ indices !! Z.to_nat (6 * i + 1) = Some (i + 1)%Z
           /\ indices !! Z.to_nat (6 * i + 2) = Some (3 + i)%Z
           /\ indices !! Z.to_nat (6 * i + 3) = Some i
           /\ indices !! Z.to_nat (6 * i + 4) = Some (3 + i)%Z
           /\ indices !! Z.to_nat (6 * i + 5) = Some (3 + i + 1)%Z)
    /\ Forall (fun v => 0 <= v < 2 * 3)%Z indices.
Proof.
  apply (simple_generateBladeIndices_is_strip 3 0%nat). lia.
Defined.

(** ** The mesh as a whole *)

(** What the rich [createGrassMesh] puts into the mesh besides the instance
    attributes: the blade of [generateBladeVertices] and its fan, the
    uniforms read from the options, and for every instance a position in
    the patch, three drawn angles and the unit scale. *)
Lemma rich_createGrassMesh_layout (rand : nat -> R) (o : Rich.options)
    (n : nat) :
  let N := dflt 100000%Z (Rich.grassBlades o) in
  let vc := dflt 3%Z (Rich.verticesPerBlade o) in
  let h := dflt (fin 15) (Rich.bladeHeight o) in
  let v := dflt (fin 0.4) (Rich.bladeHeightVariation o) in
  let w := dflt (fin 0.5) (Rich.bladeWidth o) in
  let patch := dflt (fin 200) (Rich.grassPatchSize o) in
  (0 <= N)%Z -> (2 <= vc)%Z ->
  exists m n',
    Rich.createGrassMesh rand o n = Ok (m, n')
    /\ (exists k k',
           Rich.generateBladeVertices rand v h w vc k
           = Ok (Rich.geo_position (Rich.mesh_geometry m), k'))
    /\ (exists k,
           Rich.generateBladeIndices vc k
           = Ok (Rich.geo_index (Rich.mesh_geometry m), k))
    /\ Rich.mesh_uniforms m
       = {| Rich.uTime := fin 0;
            Rich.uWindSpeed := dflt (fin 3.0) (Rich.windSpeed o);
            Rich.uWindDirection :=
              Vec3 (dflt (fin 1) (Rich.windDirectionX o))
                (dflt (fin 0) (Rich.windDirectionY o))
                (dflt (fin 1) (Rich.windDirectionZ o));
            Rich.uColorBottom :=
              mkColor (dflt 0x0c3302%Z (Rich.grassColorBottom o));
            Rich.uColorTop :=
              mkColor (dflt 0x7f7f19%Z (Rich.grassColorTop o));
            Rich.uWindNoiseFactor := fin 1.0;
            Rich.uWindTurbulence := dflt (fin 0.7) (Rich.windTurbulence o);
            Rich.uWindIntensity := dflt (fin 1.4) (Rich.windIntensity o);
            Rich.uBladeHeight := h;
            Rich.uBladeWidth := w;
            Rich.uGustFrequency :=
              dflt (fin 0.15) (Rich.windGustFrequency o);
            Rich.uGustIntensity :=
              dflt (fin 0.35) (Rich.windGustIntensity o);
            Rich.uMicroMovement := dflt (fin 0.2) (Rich.microMovement o);
            Rich.uWavePropagation :=
              dflt (fin 0.05) (Rich.wavePropagation o) |}
    /\ Rich.closure_windGustFrequency m
       = dflt (fin 0.15) (Rich.windGustFrequency o)
    /\ Rich.closure_windGustIntensity m
       = dflt (fin 0.35) (Rich.windGustIntensity o)
    /\ Forall (fun d => exists k1 k2 k3 k4 k5,
                   d = {| obj_position :=
                            Vec3 ((fin (rand k1) - 0.5) * patch)%num 0
                              ((fin (rand k2) - 0.5) * patch)%num;
                          obj_rotation :=
                            Vec3 ((fin (rand k3) - 0.5) * 0.5)%num
                              (fin (rand k4) * Math_PI * 2)%num
                              ((fin (rand k5) - 0.5) * 0.5)%num;
                          obj_scale := Vec3 1 1 1 |})
         (Rich.mesh_instanceMatrix m).
Proof.
  intros N vc h v w patch HN Hvc.
  unfold Rich.createGrassMesh. cbv zeta.
  fold N vc h v w patch.
  do 2 run_new_array.
  run_total_loop.
  { intros j [bh bs] k. cbv beta iota zeta delta [ret bind Math_random].
    eexists _, _. reflexivity. }
  destruct s as [bladeHeights bladeStiffness].
  destruct (rich_generateBladeVertices_total rand v h w vc c ltac:(lia))
    as (vertices & c1 & Hvert).
  rewrite (bind_ok _ _ _ _ _ Hvert).
  destruct (rich_generateBladeIndices_fan vc c1 Hvc) as (indices & Hind & _).
  rewrite (bind_ok _ _ _ _ _ Hind).
  do 3 run_new_array.
  run_total_loop.
  { intros j [[hs ss] ps] k.
    cbv beta iota zeta delta [ret bind Math_random].
    eexists _, _. reflexivity. }
  destruct s as [[hs ss] ps].
  rewrite (bind_ok _ _ _ _ _ (new_matrix_array_ok N _ HN)).
  set (Qd := fun d : Object3D => exists k1 k2 k3 k4 k5,
                 d = {| obj_position :=
                          Vec3 ((fin (rand k1) - 0.5) * patch)%num 0
                            ((fin (rand k2) - 0.5) * patch)%num;
                        obj_rotation :=
                          Vec3 ((fin (rand k3) - 0.5) * 0.5)%num
                            (fin (rand k4) * Math_PI * 2)%num
                            ((fin (rand k5) - 0.5) * 0.5)%num;
                        obj_scale := Vec3 1 1 1 |}).
  run_loop (fun (j : Z) (s : list Object3D) (_ : nat) =>
              length s = Z.to_nat N /\ filled Qd j s).
  - lia.
  - rewrite length_replicate. split; [reflexivity | apply filled_start].
  - intros j im k Hj (Him & Hfd).
    cbv beta iota zeta delta [ret bind Math_random].
    eexists _, _. split; [reflexivity |].
    rewrite length_store. split; [assumption |].
    apply filled_store; [assumption |]. eexists _, _, _, _, _. reflexivity.
  - destruct HP as (Him & Hfd).
    eexists _, _. split; [reflexivity |]. cbn.
    split; [eexists _, _; exact Hvert |].
    split; [eexists; exact Hind |].
    split; [reflexivity |]. split; [reflexivity |]. split; [reflexivity |].
    eapply filled_Forall; [| eassumption]. lia.
Qed.

(** ** Updates of the wind *)

(** What a completed rich [updateWind] leaves in the uniforms. *)
Lemma rich_updateWind_run (rand : nat -> R) (gf gi time : num)
    (o : Rich.wind_options) (u : Rich.uniforms) (n : nat) (mm wp : num) :
  Rich.upd_microMovement o = Some mm ->
  Rich.upd_wavePropagation o = Some wp ->
  Rich.updateWind rand gf gi time o u n
  = Ok ({| Rich.uTime := time;
           Rich.uWindSpeed := dflt (fin 3.0) (Rich.upd_windSpeed o);
           Rich.uWindDirection :=
             dflt (Vec3 1 0 1) (Rich.upd_windDirection o);
           Rich.uColorBottom := Rich.uColorBottom u;
           Rich.uColorTop := Rich.uColorTop u;
           Rich.uWindNoiseFactor := (0.5 + fin (rand n) * 0.5)%num;
           Rich.uWindTurbulence :=
             dflt (fin 0.7) (Rich.upd_windTurbulence o);
           Rich.uWindIntensity := dflt (fin 0.5) (Rich.upd_windIntensity o);
           Rich.uBladeHeight := Rich.uBladeHeight u;
           Rich.uBladeWidth := Rich.uBladeWidth u;
           Rich.uGustFrequency := dflt gf (Rich.upd_gustFrequency o);
           Rich.uGustIntensity := dflt gi (Rich.upd_gustIntensity o);
           Rich.uMicroMovement := mm;
           Rich.uWavePropagation := wp |}, S n).
Proof.
  destruct o as [ws wd wi wt f i m w].
  cbn [Rich.upd_microMovement Rich.upd_wavePropagation].
  intros -> ->. destruct ws, wd, wi, wt, f, i; reflexivity.
Qed.

Lemma simple_updateWind_run (rand : nat -> R) (time : num)
    (o : Simple.wind_options) (u : Simple.uniforms) (n : nat) :
  Simple.updateWind rand time o u n
  = Ok ({| Simple.uTime := time;
           Simple.uWindSpeed := dflt (fin 5.5) (Simple.upd_windSpeed o);
           Simple.uWindDirection :=
             dflt (Vec3 1 0 1) (Simple.upd_windDirection o);
           Simple.uColorBottom := Simple.uColorBottom u;
           Simple.uColorTop := Simple.uColorTop u;
           Simple.uWindNoiseFactor := (0.5 + fin (rand n) * 0.5)%num;
           Simple.uWindTurbulence :=
             dflt (fin 0.8) (Simple.upd_windTurbulence o);
           Simple.uWindIntensity :=
             dflt (fin 1.0) (Simple.upd_windIntensity o);
           Simple.uBladeHeight := Simple.uBladeHeight u;
           Simple.uBladeWidth := Simple.uBladeWidth u |}, S n).
Proof. destruct o as [ws wd wi wt]. destruct ws, wd, wi, wt; reflexivity. Qed.

(** X9.  [updateWind] keeps no history: it overwrites the time, the noise
    factor and every wind uniform and copies the colours and the blade
    dimensions, so two updates in a row leave what the second one alone
    would have left (one draw later). *)
Theorem updateWind_forgets_previous_update (rand : nat -> R)
    (time1 time2 : num) (n : nat) :
  (forall (o1 o2 : Simple.wind_options) (u : Simple.uniforms),
      (let* u1 := Simple.updateWind rand time1 o1 u in
       Simple.updateWind rand time2 o2 u1) n
      = Simple.updateWind rand time2 o2 u (S n))
  /\ (forall (gf gi : num) (o1 o2 : Rich.wind_options) (u : Rich.uniforms),
         is_Some (Rich.upd_microMovement o1) ->
         is_Some (Rich.upd_wavePropagation o1) ->
         (let* u1 := Rich.updateWind rand gf gi time1 o1 u in
          Rich.updateWind rand gf gi time2 o2 u1) n
         = Rich.updateWind rand gf gi time2 o2 u (S n)).
Proof.
  split.
  - intros o1 o2 u.
    rewrite (bind_ok _ _ _ _ _ (simple_updateWind_run rand time1 o1 u n)).
    rewrite !simple_updateWind_run. reflexivity.
  - intros gf gi o1 o2 u Hm Hw.
    destruct Hm as [mm Hmm]. destruct Hw as [wp Hwp].
    rewrite (bind_ok _ _ _ _ _
               (rich_updateWind_run rand gf gi time1 o1 u n mm wp Hmm Hwp)).
    destruct o2 as [ws wd wi wt f i m w].
    destruct ws, wd, wi, wt, f, i, m, w; reflexivity.
Qed.

Lemma updateWind_forgets_previous_update_witness :
  (let* u1 :=
     Rich.updateWind (fun _ => 0.25) 0.15 0.35 1
       (Rich.mkWindOptions (Some (fin 5)) None None None None None
          (Some (fin 0.2)) (Some (fin 0.05)))
       (Rich.mkUniforms 0 3 (Vec3 1 0 1) (mkColor 0) (mkColor 0) 1 0.7 1.4
          15 0.5 0.15 0.35 0.2 0.05) in
   Rich.updateWind (fun _ => 0.25) 0.15 0.35 2
     (Rich.mkWindOptions None None None None None None (Some (fin 0.2))
        (Some (fin 0.05))) u1) 0%nat
  = Rich.updateWind (fun _ => 0.25) 0.15 0.35 2
      (Rich.mkWindOptions None None None None None None (Some (fin 0.2))
         (Some (fin 0.05)))
      (Rich.mkUniforms 0 3 (Vec3 1 0 1) (mkColor 0) (mkColor 0) 1 0.7 1.4
         15 0.5 0.15 0.35 0.2 0.05) 1%nat.
Proof.
  apply (proj2 (updateWind_forgets_previous_update (fun _ => 0.25) 1 2
                  0%nat));
    cbn; eexists; reflexivity.
Defined.

(** ** The frames of the application *)

Lemma mesh_updateWind_run (rand : nat -> R) (m : Rich.mesh) (time : num)
    (o : Rich.wind_options) (n : nat) (mm wp : num) :
  Rich.upd_microMovement o = Some mm ->
  Rich.upd_wavePropagation o = Some wp ->
  exists u',
    Rich.updateWind rand (Rich.closure_windGustFrequency m)
      (Rich.closure_windGustIntensity m) time o (Rich.mesh_uniforms m) n
    = Ok (u', S n)
    /\ Rich.mesh_updateWind rand m time o n
       = Ok ({| Rich.mesh_geometry := Rich.mesh_geometry m;
                Rich.mesh_uniforms := u';
                Rich.mesh_count := Rich.mesh_count m;
                Rich.mesh_instanceMatrix := Rich.mesh_instanceMatrix m;
                Rich.closure_windGustFrequency :=
                  Rich.closure_windGustFrequency m;
                Rich.closure_windGustIntensity :=
                  Rich.closure_windGustIntensity m |}, S n).
Proof.
  intros Hmm Hwp. eexists. split.
  - apply (rich_updateWind_run _ _ _ _ _ _ _ mm wp Hmm Hwp).
  - unfold Rich.mesh_updateWind.
    rewrite (bind_ok _ _ _ _ _
               (rich_updateWind_run _ _ _ _ _ _ _ mm wp Hmm Hwp)).
    reflexivity.
Qed.

(** X10.  A frame of [animate] never throws: the parameter object carries
    [microMovement] and [wavePropagation].  It carries no [windDirection],
    [gustFrequency] or [gustIntensity], so every frame sets the wind
    direction to (1, 0, 1), whatever [windDirectionX/Y/Z] say, and the gust
    uniforms to the values the mesh was created with, whatever
    [windGustFrequency] and [windGustIntensity] say now; speed, intensity,
    turbulence, micro movement and wave propagation follow the parameters,
    and the geometry and the instances are not touched. *)
Theorem animate_resets_direction_and_gusts (rand : nat -> R)
    (elapsed : num) (this : App.state) (n : nat) :
  exists grass,
    App.animate rand elapsed this n
    = Ok ({| App.grass := grass; App.time := elapsed;
             App.params := App.params this |}, S n)
    /\ Rich.uTime (Rich.mesh_uniforms grass) = elapsed
    /\ Rich.uWindDirection (Rich.mesh_uniforms grass) = Vec3 1 0 1
    /\ Rich.uGustFrequency (Rich.mesh_uniforms grass)
       = Rich.closure_windGustFrequency (App.grass this)
    /\ Rich.uGustIntensity (Rich.mesh_uniforms grass)
       = Rich.closure_windGustIntensity (App.grass this)
    /\ Rich.uWindSpeed (Rich.mesh_uniforms grass)
       = App.windSpeed (App.params this)
    /\ Rich.uWindIntensity (Rich.mesh_uniforms grass)
       = App.windIntensity (App.params this)
    /\ Rich.uWindTurbulence (Rich.mesh_uniforms grass)
       = App.windTurbulence (App.params this)
    /\ Rich.uMicroMovement (Rich.mesh_uniforms grass)
       = App.microMovement (App.params this)
    /\ Rich.uWavePropagation (Rich.mesh_uniforms grass)
       = App.wavePropagation (App.params this)
    /\ Rich.mesh_geometry grass = Rich.mesh_geometry (App.grass this)
    /\ Rich.mesh_instanceMatrix grass
       = Rich.mesh_instanceMatrix (App.grass this).
Proof.
  destruct (mesh_updateWind_run rand (App.grass this) elapsed
              (App.as_wind_options (App.params this)) n _ _ eq_refl eq_refl)
    as (u' & Hu & Hrun).
  rewrite rich_updateWind_run
    with (mm := App.microMovement (App.params this))
         (wp := App.wavePropagation (App.params this)) in Hu
    by reflexivity.
  injection Hu as <-.
  eexists. split.
  - unfold App.animate. rewrite (bind_ok _ _ _ _ _ Hrun). reflexivity.
  - cbn. repeat split.
Qed.

(** X11.  [App.updateWind] passes all eight fields, so it never throws and
    the wind direction and the gust uniforms become those of the
    parameters; the next frame of [animate] puts the direction back to
    (1, 0, 1) and the gust uniforms back to the values of creation. *)
Theorem updateWind_lasts_until_next_frame (rand : nat -> R)
    (elapsed : num) (this : App.state) (n : nat) :
  exists s1 s2,
    App.updateWind rand this n = Ok (s1, S n)
    /\ Rich.uWindDirection (Rich.mesh_uniforms (App.grass s1))
       = Vec3 (App.windDirectionX (App.params this))
           (App.windDirectionY (App.params this))
           (App.windDirectionZ (App.params this))
    /\ Rich.uGustFrequency (Rich.mesh_uniforms (App.grass s1))
       = App.windGustFrequency (App.params this)
    /\ Rich.uGustIntensity (Rich.mesh_uniforms (App.grass s1))
       = App.windGustIntensity (App.params this)
    /\ App.animate rand elapsed s1 (S n) = Ok (s2, S (S n))
    /\ Rich.uWindDirection (Rich.mesh_uniforms (App.grass s2)) = Vec3 1 0 1
    /\ Rich.uGustFrequency (Rich.mesh_uniforms (App.grass s2))
       = Rich.closure_windGustFrequency (App.grass this)
    /\ Rich.uGustIntensity (Rich.mesh_uniforms (App.grass s2))
       = Rich.closure_windGustIntensity (App.grass this).
Proof.
  eexists _, _. split; [reflexivity |]. cbn.
  split; [reflexivity |]. split; [reflexivity |]. split; [reflexivity |].
  split; [reflexivity |]. cbn. repeat split.
Qed.

Lemma ok_inj {A : Type} (a b : A) (n m : nat) :
  @Ok (A * nat) (a, n) = Ok (b, m) -> a = b /\ n = m.
Proof. intros H. injection H. auto. Qed.

(** X12.  [recreateGrass] on a non-negative number of blades: the new mesh
    has that many instances of a blade of three vertices and one triangle
    ([grassParams] has no [verticesPerBlade]), its uniforms are those of
    the parameters, and the gust parameters are captured: the frames that
    follow show the gust frequency and intensity the parameters had when
    the mesh was made. *)
Theorem recreateGrass_follows_parameters (rand : nat -> R)
    (elapsed : num) (this : App.state) (n : nat) :
  (0 <= App.grassBlades (App.params this))%Z ->
  exists s n' s',
    App.recreateGrass rand this n = Ok (s, n')
    /\ App.params s = App.params this
    /\ Rich.mesh_count (App.grass s) = App.grassBlades (App.params this)
    /\ length (Rich.geo_aBladeHeight (Rich.mesh_geometry (App.grass s)))
       = Z.to_nat (App.grassBlades (App.params this))
    /\ length (Rich.mesh_instanceMatrix (App.grass s))
       = Z.to_nat (App.grassBlades (App.params this))
    /\ vertex_count (Rich.geo_position (Rich.mesh_geometry (App.grass s)))
       = 3%nat
    /\ Rich.geo_index (Rich.mesh_geometry (App.grass s))
       = [0%Z; 1%Z; 2%Z]
    /\ Rich.uBladeHeight (Rich.mesh_uniforms (App.grass s))
       = App.bladeHeight (App.params this)
    /\ Rich.uWindDirection (Rich.mesh_uniforms (App.grass s))
       = Vec3 (App.windDirectionX (App.params this))
           (App.windDirectionY (App.params this))
           (App.windDirectionZ (App.params this))
    /\ App.animate rand elapsed s n' = Ok (s', S n')
    /\ Rich.uGustFrequency (Rich.mesh_uniforms (App.grass s'))
       = App.windGustFrequency (App.params this)
    /\ Rich.uGustIntensity (Rich.mesh_uniforms (App.grass s'))
       = App.windGustIntensity (App.params this).
Proof.
  intros HN.
  destruct (rich_createGrassMesh_layout rand
              (App.as_options (App.params this)) n HN ltac:(cbn; lia))
    as (m & n' & Hrun & (k & k' & Hvert) & (k2 & Hind) & Hu & Hgf & Hgi & _).
  destruct (rich_createGrassMesh_run rand
              (App.as_options (App.params this)) n HN ltac:(cbn; lia))
    as (m2 & n2 & Hrun2 & Hcount & Hlen & _ & _ & Hlen' & _).
  rewrite Hrun in Hrun2. apply ok_inj in Hrun2 as [<- <-].
  cbn [App.as_options Rich.grassBlades Rich.verticesPerBlade
       Rich.bladeHeight Rich.bladeHeightVariation Rich.bladeWidth dflt]
    in Hvert, Hind, Hcount, Hlen, Hlen'.
  destruct (rich_generateBladeVertices_profile rand
              (App.bladeHeightVariation (App.params this))
              (App.bladeHeight (App.params this))
              (App.bladeWidth (App.params this)) 3 k ltac:(lia))
    as (vs & kv & Hvert' & Hvlen & _).
  rewrite Hvert in Hvert'. apply ok_inj in Hvert' as [<- _].
  assert (Hidx : Rich.geo_index (Rich.mesh_geometry m) = [0%Z; 1%Z; 2%Z]).
  { assert (Hfan : Rich.generateBladeIndices 3 k2
                   = Ok ([0%Z; 1%Z; 2%Z], k2)) by reflexivity.
    rewrite Hind in Hfan. now apply ok_inj in Hfan as [-> _]. }
  eexists _, n', _. split.
  { unfold App.recreateGrass. rewrite (bind_ok _ _ _ _ _ Hrun). reflexivity. }
  cbn [App.params App.grass App.time].
  split; [reflexivity |]. split; [exact Hcount |]. split; [exact Hlen |].
  split; [exact Hlen' |].
  split; [unfold vertex_count; rewrite Hvlen; reflexivity |].
  split; [exact Hidx |].
  split; [rewrite Hu; reflexivity |]. split; [rewrite Hu; reflexivity |].
  split; [reflexivity |]. cbn. rewrite Hgf, Hgi. split; reflexivity.
Qed.

Lemma recreateGrass_follows_parameters_witness :
  let this :=
    {| App.grass :=
         {| Rich.mesh_geometry := Rich.mkGeometry [] [] [] [] [];
            Rich.mesh_uniforms :=
              Rich.mkUniforms 0 3 (Vec3 1 0 1) (mkColor 0) (mkColor 0) 1 0.7
                1.4 15 0.5 0.15 0.35 0.2 0.05;
            Rich.mesh_count := 0;
            Rich.mesh_instanceMatrix := [];
            Rich.closure_windGustFrequency := fin 0.15;
            Rich.closure_windGustIntensity := fin 0.35 |};
       App.time := fin 1;
       App.params := App.initial_grassParams |} in
  exists s n' s',
    App.recreateGrass (fun _ => 0.5) this 0%nat = Ok (s, n')
    /\ App.params s = App.params this
    /\ Rich.mesh_count (App.grass s) = App.grassBlades (App.params this)
    /\ length (Rich.geo_aBladeHeight (Rich.mesh_geometry (App.grass s)))
       = Z.to_nat (App.grassBlades (App.params this))
    /\ length (Rich.mesh_instanceMatrix (App.grass s))
       = Z.to_nat (App.grassBlades (App.params this))
    /\ vertex_count (Rich.geo_position (Rich.mesh_geometry (App.grass s)))
       = 3%nat
    /\ Rich.geo_index (Rich.mesh_geometry (App.grass s))
       = [0%Z; 1%Z; 2%Z]
    /\ Rich.uBladeHeight (Rich.mesh_uniforms (App.grass s))
       = App.bladeHeight (App.params this)
    /\ Rich.uWindDirection (Rich.mesh_uniforms (App.grass s))
       = Vec3 (App.windDirectionX (App.params this))
           (App.windDirectionY (App.params this))
           (App.windDirectionZ (App.params this))
    /\ App.animate (fun _ => 0.5) (fin 2) s n' = Ok (s', S n')
    /\ Rich.uGustFrequency (Rich.mesh_uniforms (App.grass s'))
       = App.windGustFrequency (App.params this)
    /\ Rich.uGustIntensity (Rich.mesh_uniforms (App.grass s'))
       = App.windGustIntensity (App.params this).
Proof.
  intros this.
  apply (recreateGrass_follows_parameters (fun _ => 0.5) (fin 2) this 0%nat).
  cbn. lia.
Defined.

(** ** Amplitude of the wind signal *)

(** [pow] on the unit interval stays in the unit interval. *)
Lemma pow_unit_interval (x y : R) :
  0 <= x <= 1 -> 0 < y ->
  exists r, Num.pow (Some x) (Some y) = Some r /\ 0 <= r <= 1.
Proof.
  intros Hx Hy. unfold Num.pow.
  destruct (Rlt_dec x 0); [lra |].
  destruct (Req_dec_T x 0).
  - destruct (Rlt_dec 0 y); [| lra]. exists 0. split; [reflexivity | lra].
  - exists (Rpower x y). split; [reflexivity |]. unfold Rpower. split.
    + left. apply exp_pos.
    + rewrite <- exp_0. destruct (Req_dec x 1) as [-> | Hne].
      * rewrite ln_1, Rmult_0_r. lra.
      * left. apply exp_increasing.
        assert (ln x < 0) by (rewrite <- ln_1; apply ln_increasing; lra).
        nra.
Qed.

Lemma scaled_bound (s g : R) : -1 <= s <= 1 -> - Rabs g <= s * g <= Rabs g.
Proof.
  intros Hs. unfold Rabs. destruct (Rcase_abs g); nra.
Qed.

Lemma unit_scaled_bound (s g : R) :
  0 <= s <= 1 -> - Rabs g <= s * g <= Rabs g.
Proof. intros Hs. apply scaled_bound. lra. Qed.

Lemma product_bound (s b tu i : R) :
  0 <= b -> - b <= s <= b -> Rabs (s * tu * i) <= b * Rabs (tu * i).
Proof.
  intros Hb Hs. rewrite Rmult_assoc, Rabs_mult.
  apply Rmult_le_compat_r; [apply Rabs_pos |].
  unfold Rabs. destruct (Rcase_abs s); lra.
Qed.

Ltac bound_waves :=
  repeat match goal with
    | |- context [Rtrigo_def.sin ?t] =>
        let s := fresh "s" in
        pose proof (SIN_bound t); set (s := Rtrigo_def.sin t) in *
    | |- context [Rtrigo_def.cos ?t] =>
        let s := fresh "c" in
        pose proof (COS_bound t); set (s := Rtrigo_def.cos t) in *
    end.

(** The raw wind signal of the rich shader is a bounded sum of waves times
    turbulence times intensity. *)
Lemma rich_raw_wind_factor (u : Rich.uniforms)
    (a : Rich.Shader.vertex_inputs) (gi mm tu i : R) :
  RichInputs.finite_uniforms u -> RichInputs.finite_inputs a ->
  Rich.uGustIntensity u = fin gi -> Rich.uMicroMovement u = fin mm ->
  Rich.uWindTurbulence u = fin tu -> Rich.uWindIntensity u = fin i ->
  exists s : R,
    Rich.Shader.windIntensity_initial u a = fin (s * tu * i)
    /\ - (1.3 + Rabs gi + Rabs mm) <= s <= 1.3 + Rabs gi + Rabs mm.
Proof.
  intros Hu Ha Hgi Hmm Htu Hi.
  destruct u as [uT uS uD uCb uCt uN uTu uI uH uW uGf uGi uM uWp].
  destruct a as [pos [c0 c1 c2 [ix iy iz iw]] ah st ph].
  destruct uD as [dx dy dz]. destruct pos as [px py pz].
  unfold RichInputs.finite_uniforms, RichInputs.finite_inputs in *.
  cbn in Hu, Ha, Hgi, Hmm, Htu, Hi. subst uGi uM uTu uI.
  destruct Hu as (? & ? & ? & ? & _ & _ & ? & ? & _ & _ & ?).
  destruct Ha as (? & ? & ? & ? & ?).
  finite_fields.
  shader_red. noise_values.
  match goal with
  | |- context [Num.pow (Some ?x) (Some ?y)] =>
      destruct (pow_unit_interval x y) as (g & Hg & Hgrange);
      [ match goal with
        | |- 0 <= Rtrigo_def.sin ?t * _ + _ <= 1 =>
            pose proof (SIN_bound t); lra
        end
      | lra
      | rewrite Hg ]
  end.
  eexists. split; [reflexivity |].
  bound_waves.
  pose proof (unit_scaled_bound g gi Hgrange).
  match goal with
  | |- context [?s * mm] => pose proof (scaled_bound s mm ltac:(lra))
  end.
  lra.
Qed.

Lemma simple_raw_wind_factor (v : Simple.uniforms)
    (b : Simple.Shader.vertex_inputs) (tu i : R) :
  SimpleInputs.finite_uniforms v -> SimpleInputs.finite_inputs b ->
  Simple.uWindTurbulence v = fin tu -> Simple.uWindIntensity v = fin i ->
  exists s : R,
    Simple.Shader.windIntensity v b = fin (s * tu * i)
    /\ - 1.2 <= s <= 1.2.
Proof.
  intros Hv Hb Htu Hi.
  destruct v as [uT uS uD uCb uCt uN uTu uI uH uW].
  destruct b as [pos [c0 c1 c2 [ix iy iz iw]]].
  destruct uD as [dx dy dz]. destruct pos as [px py pz].
  unfold SimpleInputs.finite_uniforms, SimpleInputs.finite_inputs in *.
  cbn in Hv, Hb, Htu, Hi. subst uTu uI.
  destruct Hv as (? & ? & ? & ? & _ & _ & ?).
  destruct Hb as (? & ?).
  finite_fields.
  shader_red. noise_values.
  eexists. split; [reflexivity |].
  bound_waves. lra.
Qed.

(** X13.  The raw wind signal is bounded by the weights written in the
    shaders: in the rich shader by
    (0.5 + 0.3 + 0.2 + 0.3 + |uGustIntensity| + |uMicroMovement|) times
    |uWindTurbulence * uWindIntensity|, in the simple shader by 0.7 + 0.5
    times that product. *)
Theorem wind_signal_amplitude_bounded (u : Rich.uniforms)
    (a : Rich.Shader.vertex_inputs) (v : Simple.uniforms)
    (b : Simple.Shader.vertex_inputs) :
  (forall gi mm tu i : R,
      RichInputs.finite_uniforms u -> RichInputs.finite_inputs a ->
      Rich.uGustIntensity u = fin gi -> Rich.uMicroMovement u = fin mm ->
      Rich.uWindTurbulence u = fin tu -> Rich.uWindIntensity u = fin i ->
      exists w : R,
        Rich.Shader.windIntensity_initial u a = fin w
        /\ Rabs w <= (1.3 + Rabs gi + Rabs mm) * Rabs (tu * i))
  /\ (forall tu i : R,
         SimpleInputs.finite_uniforms v -> SimpleInputs.finite_inputs b ->
         Simple.uWindTurbulence v = fin tu ->
         Simple.uWindIntensity v = fin i ->
         exists w : R,
           Simple.Shader.windIntensity v b = fin w
           /\ Rabs w <= 1.2 * Rabs (tu * i)).
Proof.
  split.
  - intros gi mm tu i Hu Ha Hgi Hmm Htu Hi.
    destruct (rich_raw_wind_factor u a gi mm tu i Hu Ha Hgi Hmm Htu Hi)
      as (s & Hs & Hrange).
    exists (s * tu * i). split; [exact Hs |].
    apply product_bound; [| exact Hrange].
    pose proof (Rabs_pos gi). pose proof (Rabs_pos mm). lra.
  - intros tu i Hv Hb Htu Hi.
    destruct (simple_raw_wind_factor v b tu i Hv Hb Htu Hi)
      as (s & Hs & Hrange).
    exists (s * tu * i). split; [exact Hs |].
    apply product_bound; lra.
Qed.

Lemma wind_signal_amplitude_bounded_witness :
  exists w : R,
    Rich.Shader.windIntensity_initial
      (Rich.mkUniforms 1 3 (Vec3 1 0 1) (mkColor 0) (mkColor 0) 1 0.7 1.4
         15 0.5 0.15 0.35 0.2 0.05)
      (Rich.Shader.mkVertexInputs (Vec3 0.25 15 0)
         (Mat4 (Vec4 1 0 0 0) (Vec4 0 1 0 0) (Vec4 0 0 1 0) (Vec4 0 0 0 1))
         15 1 0)
    = fin w
    /\ Rabs w <= (1.3 + Rabs 0.35 + Rabs 0.2) * Rabs (0.7 * 1.4).
Proof.
  apply (proj1 (wind_signal_amplitude_bounded
                  (Rich.mkUniforms 1 3 (Vec3 1 0 1) (mkColor 0) (mkColor 0)
                     1 0.7 1.4 15 0.5 0.15 0.35 0.2 0.05)
                  (Rich.Shader.mkVertexInputs (Vec3 0.25 15 0)
                     (Mat4 (Vec4 1 0 0 0) (Vec4 0 1 0 0) (Vec4 0 0 1 0)
                        (Vec4 0 0 0 1)) 15 1 0)
                  (Simple.mkUniforms 0 3 (Vec3 1 0 1) (mkColor 0) (mkColor 0)
                     1 1 1 15 0.1)
                  (Simple.Shader.mkVertexInputs (Vec3 0 15 0)
                     (Mat4 (Vec4 1 0 0 0) (Vec4 0 1 0 0) (Vec4 0 0 1 0)
                        (Vec4 0 0 0 1))))
           0.35 0.2 0.7 1.4).
  - repeat split; eexists; reflexivity.
  - repeat split; eexists; reflexivity.
  - reflexivity.
  - reflexivity.
  - reflexivity.
  - reflexivity.
Defined.

(** ** The wind vector *)

(** X15.  The wind vector of both shaders is the direction of
    [uWindDirection] and nothing else: for a finite direction that is not
    zero it has length one and is the direction divided by its (positive)
    length, so scaling the direction uniform changes nothing. *)
Theorem windVector_unit_length (u : Rich.uniforms) (v : Simple.uniforms)
    (dx dy dz : R) :
  dx <> 0 \/ dy <> 0 \/ dz <> 0 ->
  exists wx wy wz len : R,
    0 < len /\ dx = len * wx /\ dy = len * wy /\ dz = len * wz
    /\ wx * wx + wy * wy + wz * wz = 1
    /\ (Rich.uWindDirection u = Vec3 (fin dx) (fin dy) (fin dz) ->
        Rich.Shader.windVector u = Vec3 (fin wx) (fin wy) (fin wz))
    /\ (Simple.uWindDirection v = Vec3 (fin dx) (fin dy) (fin dz) ->
        Simple.Shader.windVector v = Vec3 (fin wx) (fin wy) (fin wz))
    /\ forall k : R,
        0 < k ->
        normalize (Vec3 (fin (k * dx)) (fin (k * dy)) (fin (k * dz)))
        = Vec3 (fin wx) (fin wy) (fin wz).
Proof.
  intros Hd.
  assert (Hsq : forall t, 0 <= t * t) by (intros t; nra).
  assert (Hpos : 0 < dx * dx + dy * dy + dz * dz).
  { pose proof (Hsq dx). pose proof (Hsq dy). pose proof (Hsq dz).
    destruct Hd as [Hd | [Hd | Hd]];
      [assert (0 < dx * dx) by nra | assert (0 < dy * dy) by nra
       | assert (0 < dz * dz) by nra]; lra. }
  set (len := R_sqrt.sqrt (dx * dx + dy * dy + dz * dz)).
  assert (Hlen : 0 < len) by (apply sqrt_lt_R0; exact Hpos).
  assert (Hlen2 : len * len = dx * dx + dy * dy + dz * dz)
    by (apply sqrt_sqrt; lra).
  assert (Hnorm : normalize (Vec3 (fin dx) (fin dy) (fin dz))
                  = Vec3 (fin (dx / len)) (fin (dy / len)) (fin (dz / len))).
  { unfold normalize, length3, map3, dot3. cbn [vx vy vz].
    cbn [Num.mul Num.add Num.lift2 fin]. rewrite sqrt_Some by lra.
    fold len. rewrite !div_Some by lra. reflexivity. }
  exists (dx / len), (dy / len), (dz / len), len.
  split; [exact Hlen |].
  split; [field; lra |]. split; [field; lra |]. split; [field; lra |].
  split.
  { replace (dx / len * (dx / len) + dy / len * (dy / len)
             + dz / len * (dz / len))
      with ((dx * dx + dy * dy + dz * dz) / (len * len)) by (field; lra).
    rewrite Hlen2. field. lra. }
  split.
  { intros H. unfold Rich.Shader.windVector. rewrite H. exact Hnorm. }
  split.
  { intros H. unfold Simple.Shader.windVector. rewrite H. exact Hnorm. }
  intros k Hk.
  unfold normalize, length3, map3, dot3. cbn [vx vy vz].
  cbn [Num.mul Num.add Num.lift2 fin].
  assert (Hk2 : k * dx * (k * dx) + k * dy * (k * dy) + k * dz * (k * dz)
                = (k * len) * (k * len)).
  { replace (k * len * (k * len)) with (k * k * (len * len)) by ring.
    rewrite Hlen2. ring. }
  rewrite sqrt_Some by nra. rewrite Hk2.
  rewrite sqrt_square by nra.
  assert (k * len <> 0) by nra.
  rewrite !div_Some by assumption.
  unfold fin. f_equal; f_equal; field; lra.
Qed.

Lemma windVector_unit_length_witness :
  exists wx wy wz len : R,
    0 < len /\ 1 = len * wx /\ 0 = len * wy /\ 1 = len * wz
    /\ wx * wx + wy * wy + wz * wz = 1
    /\ (Rich.uWindDirection
          (Rich.mkUniforms 1 3 (Vec3 1 0 1) (mkColor 0) (mkColor 0) 1 0.7
             1.4 15 0.5 0.15 0.35 0.2 0.05)
        = Vec3 (fin 1) (fin 0) (fin 1) ->
        Rich.Shader.windVector
          (Rich.mkUniforms 1 3 (Vec3 1 0 1) (mkColor 0) (mkColor 0) 1 0.7
             1.4 15 0.5 0.15 0.35 0.2 0.05)
        = Vec3 (fin wx) (fin wy) (fin wz))
    /\ (Simple.uWindDirection
          (Simple.mkUniforms 0 3 (Vec3 1 0 1) (mkColor 0) (mkColor 0) 1 1 1
             15 0.1)
        = Vec3 (fin 1) (fin 0) (fin 1) ->
        Simple.Shader.windVector
          (Simple.mkUniforms 0 3 (Vec3 1 0 1) (mkColor 0) (mkColor 0) 1 1 1
             15 0.1)
        = Vec3 (fin wx) (fin wy) (fin wz))
    /\ forall k : R,
        0 < k ->
        normalize (Vec3 (fin (k * 1)) (fin (k * 0)) (fin (k * 1)))
        = Vec3 (fin wx) (fin wy) (fin wz).
Proof.
  apply (windVector_unit_length
           (Rich.mkUniforms 1 3 (Vec3 1 0 1) (mkColor 0) (mkColor 0) 1 0.7
              1.4 15 0.5 0.15 0.35 0.2 0.05)
           (Simple.mkUniforms 0 3 (Vec3 1 0 1) (mkColor 0) (mkColor 0) 1 1 1
              15 0.1) 1 0 1).
  left. lra.
Defined.

(** ** The clock *)

Ltac shader_unfold :=
  cbv [Rich.Shader.main Rich.Shader.worldPos Rich.Shader.sway
       Rich.Shader.windIntensity_final Rich.Shader.windIntensity_initial
       Rich.Shader.individualPhase Rich.Shader.gust Rich.Shader.gustTime
       Rich.Shader.spatialWave Rich.Shader.windVector
       Rich.Shader.heightFactor Rich.Shader.scaledPosition
       Rich.Shader.heightRatio Rich.Shader.noise1 Rich.Shader.noise2
       Rich.Shader.noise3 Rich.Shader.windTime Rich.Shader.instancePos
       Rich.Shader.t RichClock.at_time
       Rich.uTime Rich.uWindSpeed Rich.uWindDirection Rich.uWindNoiseFactor
       Rich.uWindTurbulence Rich.uWindIntensity Rich.uBladeHeight
       Rich.uBladeWidth Rich.uGustFrequency Rich.uGustIntensity
       Rich.uMicroMovement Rich.uWavePropagation Rich.uColorBottom
       Rich.uColorTop
       Simple.Shader.main Simple.Shader.worldPos Simple.Shader.sway
       Simple.Shader.windIntensity Simple.Shader.windVector
       Simple.Shader.heightFactor Simple.Shader.noise1 Simple.Shader.noise2
       Simple.Shader.windTime Simple.Shader.instancePos Simple.Shader.t
       SimpleClock.at_time
       Simple.uTime Simple.uWindSpeed Simple.uWindDirection
       Simple.uWindNoiseFactor Simple.uWindTurbulence Simple.uWindIntensity
       Simple.uBladeHeight Simple.uBladeWidth Simple.uColorBottom
       Simple.uColorTop].

(** X16.  Time and wind speed enter the shaders through their product
    [uTime * uWindSpeed] only: two wind states with the same product draw
    the same frame.  In particular a wind speed of zero freezes the
    field. *)
Theorem frame_depends_on_wind_time (rgb : Color -> vec3)
    (projectionMatrix modelViewMatrix : mat4) (u : Rich.uniforms)
    (a : Rich.Shader.vertex_inputs) (v : Simple.uniforms)
    (b : Simple.Shader.vertex_inputs) (t1 s1 t2 s2 : num) :
  (t1 * s1 = t2 * s2)%num ->
  Rich.Shader.main rgb projectionMatrix modelViewMatrix
    (RichClock.at_time t1 s1 u) a
  = Rich.Shader.main rgb projectionMatrix modelViewMatrix
      (RichClock.at_time t2 s2 u) a
  /\ Simple.Shader.main rgb projectionMatrix modelViewMatrix
       (SimpleClock.at_time t1 s1 v) b
     = Simple.Shader.main rgb projectionMatrix modelViewMatrix
         (SimpleClock.at_time t2 s2 v) b.
Proof.
  intros H. split.
  - destruct u. shader_unfold. rewrite H. reflexivity.
  - destruct v. shader_unfold. rewrite H. reflexivity.
Qed.

Lemma frame_depends_on_wind_time_witness :
  let rgb := fun _ : Color => Vec3 0 0 0 in
  let id := Mat4 (Vec4 1 0 0 0) (Vec4 0 1 0 0) (Vec4 0 0 1 0) (Vec4 0 0 0 1) in
  let u :=
    Rich.mkUniforms 0 0 (Vec3 1 0 1) (mkColor 0) (mkColor 0) 1 0.7 1.4 15
      0.5 0.15 0.35 0.2 0.05 in
  let a := Rich.Shader.mkVertexInputs (Vec3 0.25 15 0) id 15 1 0 in
  let v :=
    Simple.mkUniforms 0 0 (Vec3 1 0 1) (mkColor 0) (mkColor 0) 1 1 1 15
      0.1 in
  let b := Simple.Shader.mkVertexInputs (Vec3 0 15 0) id in
  Rich.Shader.main rgb id id (RichClock.at_time (fin 1) (fin 0) u) a
  = Rich.Shader.main rgb id id (RichClock.at_time (fin 5) (fin 0) u) a
  /\ Simple.Shader.main rgb id id (SimpleClock.at_time (fin 1) (fin 0) v) b
     = Simple.Shader.main rgb id id (SimpleClock.at_time (fin 5) (fin 0) v)
         b.
Proof.
  intros rgb id u a v b.
  apply (frame_depends_on_wind_time rgb id id u a v b (fin 1) (fin 0)
           (fin 5) (fin 0)).
  cbn. f_equal. lra.
Defined.

(** ** Height along the blade *)

Lemma Rpower_two (x : R) : 0 < x -> Rpower x 2.0 = x * x.
Proof.
  intros Hx. replace 2.0 with (INR 2) by (simpl; lra).
  rewrite Rpower_pow by assumption. simpl. ring.
Qed.

(** X17.  In the rich shader the height of the instance cancels out of the
    height factor: the vertex is scaled by
    [aBladeHeight / uBladeHeight] and then divided by [aBladeHeight], so the
    factor is the square of [position.y / uBladeHeight] for every blade. *)
Theorem rich_heightFactor_is_square (u : Rich.uniforms)
    (a : Rich.Shader.vertex_inputs) (H ah py : R) :
  Rich.uBladeHeight u = fin H ->
  Rich.Shader.aBladeHeight a = fin ah ->
  vy (Rich.Shader.position a) = fin py ->
  H <> 0 -> ah <> 0 -> 0 <= py / H ->
  Rich.Shader.heightFactor u a = fin ((py / H) * (py / H)).
Proof.
  intros HH Hah Hpy HH0 Hah0 Hsign.
  unfold Rich.Shader.heightFactor, Rich.Shader.scaledPosition,
    Rich.Shader.heightRatio.
  cbn [vy]. rewrite HH, Hah, Hpy. rewrite div_fin by assumption.
  cbn [Num.mul Num.lift2 fin]. rewrite div_Some by assumption.
  assert (Hq : py * (ah / H) / ah = py / H) by (field; auto).
  rewrite Hq. unfold Num.pow, fin.
  destruct (Rlt_dec (py / H) 0); [lra |].
  destruct (Req_dec_T (py / H) 0) as [-> | Hne].
  - destruct (Rlt_dec 0 2.0); [| lra]. apply f_equal. lra.
  - apply f_equal. apply Rpower_two. lra.
Qed.

Lemma rich_heightFactor_is_square_witness :
  Rich.Shader.heightFactor
    (Rich.mkUniforms 1 3 (Vec3 1 0 1) (mkColor 0) (mkColor 0) 1 0.7 1.4
       15 0.5 0.15 0.35 0.2 0.05)
    (Rich.Shader.mkVertexInputs (Vec3 0.25 7.5 0)
       (Mat4 (Vec4 1 0 0 0) (Vec4 0 1 0 0) (Vec4 0 0 1 0) (Vec4 0 0 0 1))
       12 1 0)
  = fin ((7.5 / 15) * (7.5 / 15)).
Proof.
  apply (rich_heightFactor_is_square
           (Rich.mkUniforms 1 3 (Vec3 1 0 1) (mkColor 0) (mkColor 0) 1 0.7
              1.4 15 0.5 0.15 0.35 0.2 0.05)
           (Rich.Shader.mkVertexInputs (Vec3 0.25 7.5 0)
              (Mat4 (Vec4 1 0 0 0) (Vec4 0 1 0 0) (Vec4 0 0 1 0)
                 (Vec4 0 0 0 1)) 12 1 0)
           15 12 7.5); try reflexivity; lra.
Defined.

(** ** Where the blade does not move *)

(** The sway of the rich shader as a product: wave sum, turbulence,
    intensity, inverse stiffness, height factor and noise factor. *)
Lemma rich_sway_factors (u : Rich.uniforms) (a : Rich.Shader.vertex_inputs)
    (H ah st py tu i : R) :
  RichInputs.finite_uniforms u -> RichInputs.finite_inputs a ->
  Rich.uBladeHeight u = fin H ->
  Rich.Shader.aBladeHeight a = fin ah ->
  Rich.Shader.aStiffness a = fin st ->
  vy (Rich.Shader.position a) = fin py ->
  Rich.uWindTurbulence u = fin tu -> Rich.uWindIntensity u = fin i ->
  H <> 0 -> ah <> 0 -> st <> 0 -> 0 <= py / H ->
  exists s hf k : R,
    Rich.Shader.sway u a = fin (s * tu * i * (1.0 / st) * hf * k)
    /\ (py = 0 -> hf = 0).
Proof.
  intros Hu Ha HH Hah Hst Hpy Htu Hi HH0 Hah0 Hst0 Hsign.
  assert (Hfin := Hu).
  destruct Hfin as (_ & _ & _ & _ & _ & _ & _ & _ & [gi Hgi] & [mm Hmm] & _).
  destruct (rich_raw_wind_factor u a gi mm tu i Hu Ha Hgi Hmm Htu Hi)
    as (s & Hs & _).
  destruct (rich_noise_factor_finite u a Hu Ha) as [k Hk].
  destruct (rich_heightFactor_value u a H ah py HH Hah Hpy HH0 Hah0 Hsign)
    as (hf & Hhf & Hzero).
  exists s, hf, k. split; [| exact Hzero].
  unfold Rich.Shader.sway, Rich.Shader.windIntensity_final.
  rewrite Hs, Hhf, Hk, Hst. rewrite div_fin by assumption. reflexivity.
Qed.

Lemma simple_sway_factors (v : Simple.uniforms)
    (b : Simple.Shader.vertex_inputs) (H py tu i : R) :
  SimpleInputs.finite_uniforms v -> SimpleInputs.finite_inputs b ->
  Simple.uBladeHeight v = fin H ->
  vy (Simple.Shader.position b) = fin py ->
  Simple.uWindTurbulence v = fin tu -> Simple.uWindIntensity v = fin i ->
  H <> 0 -> 0 <= py / H ->
  exists s hf k : R,
    Simple.Shader.sway v b = fin (s * tu * i * hf * k)
    /\ (py = 0 -> hf = 0).
Proof.
  intros Hv Hb HH Hpy Htu Hi HH0 Hsign.
  destruct v as [uT uS uD uCb uCt uN uTu uI uH uW].
  destruct b as [pos [c0 c1 c2 [ix iy iz iw]]].
  destruct uD as [dx dy dz]. destruct pos as [px py' pz].
  unfold SimpleInputs.finite_uniforms, SimpleInputs.finite_inputs in *.
  cbn in Hv, Hb, HH, Hpy, Htu, Hi. subst uH py' uTu uI.
  destruct Hv as (? & ? & ? & ? & _ & _ & _).
  destruct Hb as (? & ?).
  finite_fields.
  shader_red. noise_values. rewrite div_Some by assumption.
  destruct (pow_nonneg (py / H) 1.5 Hsign ltac:(lra)) as (hf & Hhf & Hzero).
  rewrite Hhf. eexists _, hf, _. split; [reflexivity |].
  intros ->. apply Hzero. unfold Rdiv. ring.
Qed.

(** Without sway the rich shader only applies the instance matrix to the
    scaled vertex. *)
Lemma rich_worldPos_without_sway (u : Rich.uniforms)
    (a : Rich.Shader.vertex_inputs) (sy : R) :
  Rich.Shader.sway u a = fin 0 ->
  finite3 (Rich.Shader.windVector u) ->
  vy (Rich.Shader.scaledPosition u a) = fin sy ->
  Rich.Shader.worldPos u a
  = mat4_mul_vec4 (Rich.Shader.instanceMatrix a)
      (Vec4 (vx (Rich.Shader.scaledPosition u a)) (fin sy)
         (vz (Rich.Shader.scaledPosition u a)) 1.0).
Proof.
  intros Hsway Hwind Hsy. unfold Rich.Shader.worldPos.
  rewrite Hsway, Hsy.
  destruct (Rich.Shader.windVector u) as [wx wy wz].
  destruct Hwind as ([rx Hx] & _ & [rz Hz]). cbn in Hx, Hz. subst wx wz.
  cbn [vx vy vz].
  destruct (mat4_mul_vec4 _ _) as [x y z w].
  cbn [v4x v4y v4z v4w].
  destruct x, y, z; cbn; rewrite ?Rabs_R0; f_equal; apply f_equal; lra.
Qed.

Lemma simple_worldPos_without_sway (v : Simple.uniforms)
    (b : Simple.Shader.vertex_inputs) :
  Simple.Shader.sway v b = fin 0 ->
  finite3 (Simple.Shader.windVector v) ->
  Simple.Shader.worldPos v b
  = mat4_mul_vec4 (Simple.Shader.instanceMatrix b)
      (Vec4 (vx (Simple.Shader.position b)) (vy (Simple.Shader.position b))
         (vz (Simple.Shader.position b)) 1.0).
Proof.
  intros Hsway Hwind. unfold Simple.Shader.worldPos.
  rewrite Hsway.
  destruct (Simple.Shader.windVector v) as [wx wy wz].
  destruct Hwind as ([rx Hx] & _ & [rz Hz]). cbn in Hx, Hz. subst wx wz.
  cbn [vx vy vz].
  destruct (mat4_mul_vec4 _ _) as [x y z w].
  cbn [v4x v4y v4z v4w].
  destruct x, z; cbn; f_equal; apply f_equal; lra.
Qed.

Lemma rich_scaled_height (u : Rich.uniforms) (a : Rich.Shader.vertex_inputs)
    (H ah py : R) :
  Rich.uBladeHeight u = fin H ->
  Rich.Shader.aBladeHeight a = fin ah ->
  vy (Rich.Shader.position a) = fin py ->
  H <> 0 ->
  Rich.Shader.scaledPosition u a
  = Vec3 (vx (Rich.Shader.position a)) (fin (py * (ah / H)))
      (vz (Rich.Shader.position a)).
Proof.
  intros HH Hah Hpy HH0.
  unfold Rich.Shader.scaledPosition, Rich.Shader.heightRatio.
  rewrite HH, Hah, Hpy. rewrite div_fin by assumption. reflexivity.
Qed.

(** X18.  The base of a blade stays where the instance matrix puts it: at
    [position.y = 0] the height factor vanishes, the sway is zero, and the
    shader adds nothing to the transformed vertex, whatever the wind. *)
Theorem base_vertex_not_displaced (u : Rich.uniforms)
    (a : Rich.Shader.vertex_inputs) (v : Simple.uniforms)
    (b : Simple.Shader.vertex_inputs) :
  (forall H ah st dx dy dz : R,
      RichInputs.finite_uniforms u -> RichInputs.finite_inputs a ->
      Rich.uBladeHeight u = fin H ->
      Rich.Shader.aBladeHeight a = fin ah ->
      Rich.Shader.aStiffness a = fin st ->
      Rich.uWindDirection u = Vec3 (fin dx) (fin dy) (fin dz) ->
      vy (Rich.Shader.position a) = fin 0 ->
      H <> 0 -> ah <> 0 -> st <> 0 -> dx <> 0 \/ dy <> 0 \/ dz <> 0 ->
      Rich.Shader.sway u a = fin 0
      /\ Rich.Shader.worldPos u a
         = mat4_mul_vec4 (Rich.Shader.instanceMatrix a)
             (Vec4 (vx (Rich.Shader.position a)) (fin 0)
                (vz (Rich.Shader.position a)) 1.0))
  /\ (forall H dx dy dz : R,
         SimpleInputs.finite_uniforms v -> SimpleInputs.finite_inputs b ->
         Simple.uBladeHeight v = fin H ->
         Simple.uWindDirection v = Vec3 (fin dx) (fin dy) (fin dz) ->
         vy (Simple.Shader.position b) = fin 0 ->
         H <> 0 -> dx <> 0 \/ dy <> 0 \/ dz <> 0 ->
         Simple.Shader.sway v b = fin 0
         /\ Simple.Shader.worldPos v b
            = mat4_mul_vec4 (Simple.Shader.instanceMatrix b)
                (Vec4 (vx (Simple.Shader.position b)) (fin 0)
                   (vz (Simple.Shader.position b)) 1.0)).
Proof.
  split.
  - intros H ah st dx dy dz Hu Ha HH Hah Hst Hd Hpy HH0 Hah0 Hst0 Hnz.
    assert (Hfin := Hu).
    destruct Hfin as (_ & _ & _ & _ & [tu Htu] & [i Hi] & _).
    destruct (rich_sway_factors u a H ah st 0 tu i Hu Ha HH Hah Hst Hpy
                Htu Hi HH0 Hah0 Hst0
                ltac:(unfold Rdiv; rewrite Rmult_0_l; lra))
      as (s & hf & k & Hsway & Hzero).
    rewrite (Hzero eq_refl) in Hsway.
    assert (Hsway0 : Rich.Shader.sway u a = fin 0).
    { rewrite Hsway. unfold fin. apply f_equal. ring. }
    split; [exact Hsway0 |].
    pose proof (rich_scaled_height u a H ah 0 HH Hah Hpy HH0) as Hscaled.
    rewrite (rich_worldPos_without_sway u a (0 * (ah / H)) Hsway0).
    + rewrite Hscaled. cbn [vx vz]. unfold fin.
      do 3 f_equal. ring.
    + unfold Rich.Shader.windVector. rewrite Hd.
      now apply normalize_finite.
    + rewrite Hscaled. reflexivity.
  - intros H dx dy dz Hv Hb HH Hd Hpy HH0 Hnz.
    assert (Hfin := Hv).
    destruct Hfin as (_ & _ & _ & _ & [tu Htu] & [i Hi] & _).
    destruct (simple_sway_factors v b H 0 tu i Hv Hb HH Hpy Htu Hi HH0
                ltac:(unfold Rdiv; rewrite Rmult_0_l; lra))
      as (s & hf & k & Hsway & Hzero).
    rewrite (Hzero eq_refl) in Hsway.
    assert (Hsway0 : Simple.Shader.sway v b = fin 0).
    { rewrite Hsway. unfold fin. apply f_equal. ring. }
    split; [exact Hsway0 |].
    rewrite (simple_worldPos_without_sway v b Hsway0).
    + rewrite Hpy. reflexivity.
    + unfold Simple.Shader.windVector. rewrite Hd.
      now apply normalize_finite.
Qed.

Lemma base_vertex_not_displaced_witness :
  let u :=
    Rich.mkUniforms 1 3 (Vec3 1 0 1) (mkColor 0) (mkColor 0) 1 0.7 1.4 15
      0.5 0.15 0.35 0.2 0.05 in
  let a :=
    Rich.Shader.mkVertexInputs (Vec3 (-0.25) 0 0)
      (Mat4 (Vec4 1 0 0 0) (Vec4 0 1 0 0) (Vec4 0 0 1 0) (Vec4 3 0 4 1))
      12 1 0 in
  Rich.Shader.sway u a = fin 0
  /\ Rich.Shader.worldPos u a
     = mat4_mul_vec4 (Rich.Shader.instanceMatrix a)
         (Vec4 (vx (Rich.Shader.position a)) (fin 0)
            (vz (Rich.Shader.position a)) 1.0).
Proof.
  intros u a.
  apply (proj1 (base_vertex_not_displaced u a
                  (Simple.mkUniforms 0 3 (Vec3 1 0 1) (mkColor 0) (mkColor 0)
                     1 1 1 15 0.1)
                  (Simple.Shader.mkVertexInputs (Vec3 0 15 0)
                     (Mat4 (Vec4 1 0 0 0) (Vec4 0 1 0 0) (Vec4 0 0 1 0)
                        (Vec4 0 0 0 1))))
           15 12 1 1 0 1).
  - repeat split; eexists; reflexivity.
  - repeat split; eexists; reflexivity.
  - reflexivity.
  - reflexivity.
  - reflexivity.
  - reflexivity.
  - reflexivity.
  - lra.
  - lra.
  - lra.
  - left. lra.
Defined.

(** X19.  Still air: when the turbulence or the intensity of the wind is
    zero the sway is zero all along the blade, and the shaders only apply
    the instance matrix (in the rich shader to the vertex scaled to the
    height of the instance). *)
Theorem still_air_no_sway (u : Rich.uniforms)
    (a : Rich.Shader.vertex_inputs) (v : Simple.uniforms)
    (b : Simple.Shader.vertex_inputs) :
  (forall H ah st py tu i dx dy dz : R,
      RichInputs.finite_uniforms u -> RichInputs.finite_inputs a ->
      Rich.uBladeHeight u = fin H ->
      Rich.Shader.aBladeHeight a = fin ah ->
      Rich.Shader.aStiffness a = fin st ->
      vy (Rich.Shader.position a) = fin py ->
      Rich.uWindTurbulence u = fin tu -> Rich.uWindIntensity u = fin i ->
      Rich.uWindDirection u = Vec3 (fin dx) (fin dy) (fin dz) ->
      H <> 0 -> ah <> 0 -> st <> 0 -> 0 <= py / H ->
      dx <> 0 \/ dy <> 0 \/ dz <> 0 ->
      tu = 0 \/ i = 0 ->
      Rich.Shader.sway u a = fin 0
      /\ Rich.Shader.worldPos u a
         = mat4_mul_vec4 (Rich.Shader.instanceMatrix a)
             (Vec4 (vx (Rich.Shader.position a)) (fin (py * (ah / H)))
                (vz (Rich.Shader.position a)) 1.0))
  /\ (forall H py tu i dx dy dz : R,
         SimpleInputs.finite_uniforms v -> SimpleInputs.finite_inputs b ->
         Simple.uBladeHeight v = fin H ->
         vy (Simple.Shader.position b) = fin py ->
         Simple.uWindTurbulence v = fin tu ->
         Simple.uWindIntensity v = fin i ->
         Simple.uWindDirection v = Vec3 (fin dx) (fin dy) (fin dz) ->
         H <> 0 -> 0 <= py / H ->
         dx <> 0 \/ dy <> 0 \/ dz <> 0 ->
         tu = 0 \/ i = 0 ->
         Simple.Shader.sway v b = fin 0
         /\ Simple.Shader.worldPos v b
            = mat4_mul_vec4 (Simple.Shader.instanceMatrix b)
                (Vec4 (vx (Simple.Shader.position b))
                   (vy (Simple.Shader.position b))
                   (vz (Simple.Shader.position b)) 1.0)).
Proof.
  split.
  - intros H ah st py tu i dx dy dz Hu Ha HH Hah Hst Hpy Htu Hi Hd
      HH0 Hah0 Hst0 Hsign Hnz Hstill.
    destruct (rich_sway_factors u a H ah st py tu i Hu Ha HH Hah Hst Hpy
                Htu Hi HH0 Hah0 Hst0 Hsign)
      as (s & hf & k & Hsway & _).
    assert (Hsway0 : Rich.Shader.sway u a = fin 0).
    { rewrite Hsway. unfold fin. apply f_equal.
      destruct Hstill as [-> | ->]; ring. }
    split; [exact Hsway0 |].
    pose proof (rich_scaled_height u a H ah py HH Hah Hpy HH0) as Hscaled.
    rewrite (rich_worldPos_without_sway u a (py * (ah / H)) Hsway0).
    + rewrite Hscaled. reflexivity.
    + unfold Rich.Shader.windVector. rewrite Hd.
      now apply normalize_finite.
    + rewrite Hscaled. reflexivity.
  - intros H py tu i dx dy dz Hv Hb HH Hpy Htu Hi Hd HH0 Hsign Hnz Hstill.
    destruct (simple_sway_factors v b H py tu i Hv Hb HH Hpy Htu Hi HH0
                Hsign)
      as (s & hf & k & Hsway & _).
    assert (Hsway0 : Simple.Shader.sway v b = fin 0).
    { rewrite Hsway. unfold fin. apply f_equal.
      destruct Hstill as [-> | ->]; ring. }
    split; [exact Hsway0 |].
    apply (simple_worldPos_without_sway v b Hsway0).
    unfold Simple.Shader.windVector. rewrite Hd.
    now apply normalize_finite.
Qed.

Lemma still_air_no_sway_witness :
  let u :=
    Rich.mkUniforms 1 3 (Vec3 1 0 1) (mkColor 0) (mkColor 0) 1 0.7 0 15
      0.5 0.15 0.35 0.2 0.05 in
  let a :=
    Rich.Shader.mkVertexInputs (Vec3 0.25 15 0)
      (Mat4 (Vec4 1 0 0 0) (Vec4 0 1 0 0) (Vec4 0 0 1 0) (Vec4 3 0 4 1))
      12 1 0 in
  Rich.Shader.sway u a = fin 0
  /\ Rich.Shader.worldPos u a
     = mat4_mul_vec4 (Rich.Shader.instanceMatrix a)
         (Vec4 (vx (Rich.Shader.position a)) (fin (15 * (12 / 15)))
            (vz (Rich.Shader.position a)) 1.0).
Proof.
  intros u a.
  apply (proj1 (still_air_no_sway u a
                  (Simple.mkUniforms 0 3 (Vec3 1 0 1) (mkColor 0) (mkColor 0)
                     1 1 1 15 0.1)
                  (Simple.Shader.mkVertexInputs (Vec3 0 15 0)
                     (Mat4 (Vec4 1 0 0 0) (Vec4 0 1 0 0) (Vec4 0 0 1 0)
                        (Vec4 0 0 0 1))))
           15 12 1 15 0.7 0 1 0 1).
  - repeat split; eexists; reflexivity.
  - repeat split; eexists; reflexivity.
  - reflexivity.
  - reflexivity.
  - reflexivity.
  - reflexivity.
  - reflexivity.
  - reflexivity.
  - reflexivity.
  - lra.
  - lra.
  - lra.
  - lra.
  - left. lra.
  - right. reflexivity.
Defined.

(** ** Colour *)

Lemma mix_start (a b : vec3) :
  finite3 a -> finite3 b -> mix a b (fin 0) = a.
Proof.
  destruct a as [ax ay az], b as [bx b_y bz].
  intros ([? Hx] & [? Hy] & [? Hz]) ([? Hx'] & [? Hy'] & [? Hz']).
  cbn in Hx, Hy, Hz, Hx', Hy', Hz'. subst.
  cbv [mix add3 scale3 mul3 zip3 splat3 vx vy vz Num.add Num.sub Num.mul
       Num.lift2 fin].
  f_equal; apply f_equal; lra.
Qed.

Lemma mix_end (a b : vec3) :
  finite3 a -> finite3 b -> mix a b (fin 1) = b.
Proof.
  destruct a as [ax ay az], b as [bx b_y bz].
  intros ([? Hx] & [? Hy] & [? Hz]) ([? Hx'] & [? Hy'] & [? Hz']).
  cbn in Hx, Hy, Hz, Hx', Hy', Hz'. subst.
  cbv [mix add3 scale3 mul3 zip3 splat3 vx vy vz Num.add Num.sub Num.mul
       Num.lift2 fin].
  f_equal; apply f_equal; lra.
Qed.

(** X20.  The colour gradient: with finite colours, a vertex at
    [position.y = 0] gets the bottom colour.  The top colour is reached
    where [position.y] equals the divisor of the shader: the base height
    [uBladeHeight] in the simple shader, the height [aBladeHeight] of the
    instance in the rich one. *)
Theorem colour_gradient_endpoints (rgb : Color -> vec3)
    (projectionMatrix modelViewMatrix : mat4) (u : Rich.uniforms)
    (a : Rich.Shader.vertex_inputs) (v : Simple.uniforms)
    (b : Simple.Shader.vertex_inputs) :
  (forall c, finite3 (rgb c)) ->
  (forall ah py : R,
      Rich.Shader.aBladeHeight a = fin ah ->
      vy (Rich.Shader.position a) = fin py -> ah <> 0 ->
      (py = 0 ->
       Rich.Shader.vColor
         (Rich.Shader.main rgb projectionMatrix modelViewMatrix u a)
       = rgb (Rich.uColorBottom u))
      /\ (py = ah ->
          Rich.Shader.vColor
            (Rich.Shader.main rgb projectionMatrix modelViewMatrix u a)
          = rgb (Rich.uColorTop u)))
  /\ (forall H py : R,
         Simple.uBladeHeight v = fin H ->
         vy (Simple.Shader.position b) = fin py -> H <> 0 ->
         (py = 0 ->
          Simple.Shader.vColor
            (Simple.Shader.main rgb projectionMatrix modelViewMatrix v b)
          = rgb (Simple.uColorBottom v))
         /\ (py = H ->
             Simple.Shader.vColor
               (Simple.Shader.main rgb projectionMatrix modelViewMatrix v b)
             = rgb (Simple.uColorTop v))).
Proof.
  intros Hrgb. split.
  - intros ah py Hah Hpy Hah0.
    unfold Rich.Shader.main, Rich.Shader.t. cbn [Rich.Shader.vColor].
    rewrite Hah, Hpy, div_fin by assumption. split; intros ->.
    + replace (0 / ah) with 0 by (unfold Rdiv; ring).
      apply mix_start; apply Hrgb.
    + replace (ah / ah) with 1 by (field; assumption).
      apply mix_end; apply Hrgb.
  - intros H py HH Hpy HH0.
    unfold Simple.Shader.main, Simple.Shader.t. cbn [Simple.Shader.vColor].
    rewrite HH, Hpy, div_fin by assumption. split; intros ->.
    + replace (0 / H) with 0 by (unfold Rdiv; ring).
      apply mix_start; apply Hrgb.
    + replace (H / H) with 1 by (field; assumption).
      apply mix_end; apply Hrgb.
Qed.

Lemma colour_gradient_endpoints_witness :
  let rgb := fun c : Color => Vec3 (of_Z (hex c)) 0 0 in
  let id := Mat4 (Vec4 1 0 0 0) (Vec4 0 1 0 0) (Vec4 0 0 1 0) (Vec4 0 0 0 1) in
  let v :=
    Simple.mkUniforms 0 3 (Vec3 1 0 1) (mkColor 1) (mkColor 2) 1 1 1 15
      0.1 in
  let b := Simple.Shader.mkVertexInputs (Vec3 0 15 0) id in
  Simple.Shader.vColor (Simple.Shader.main rgb id id v b)
  = rgb (Simple.uColorTop v).
Proof.
  intros rgb id v b.
  apply (proj2 (colour_gradient_endpoints rgb id id
                  (Rich.mkUniforms 1 3 (Vec3 1 0 1) (mkColor 0) (mkColor 0)
                     1 0.7 1.4 15 0.5 0.15 0.35 0.2 0.05)
                  (Rich.Shader.mkVertexInputs (Vec3 0.25 15 0) id 12 1 0)
                  v b
                  ltac:(intros c; repeat split; eexists; reflexivity))
           15 15 eq_refl eq_refl ltac:(lra)).
  reflexivity.
Defined.

(** ** From the generator to the shader *)

Lemma vertex_in_range (array : list num) (k : nat) (p : vec3) :
  vertex array k = Some p -> (3 * k + 2 < length array)%nat.
Proof.
  unfold vertex. intros H.
  destruct (array !! (3 * k)%nat); [| discriminate].
  destruct (array !! (3 * k + 1)%nat); [| discriminate].
  destruct (array !! (3 * k + 2)%nat) eqn:E; [| discriminate].
  now apply lookup_lt_Some in E.
Qed.

(** On a well-formed mesh with finite uniforms every run of the vertex
    shader computes a finite sway. *)
Lemma well_formed_sway_finite (m : Rich.mesh)
    (a : Rich.Shader.vertex_inputs) :
  RichMesh.well_formed m ->
  RichInputs.finite_uniforms (Rich.mesh_uniforms m) ->
  RichMesh.invocation m a ->
  finite (Rich.Shader.sway (Rich.mesh_uniforms m) a).
Proof.
  intros ((H & HH & Hpos) & _ & _ & Hheights & Hstiff & Hphase & Hplaced
          & Hblade) Hu (i & k & d & Hv & Hah & Hst & Hph & Hd & Hcol).
  destruct (Hblade k _ Hv) as (Hfin & y & Hy & Hy0).
  destruct (proj1 (Forall_lookup _ _) Hheights _ _ Hah) as (ah & Eah & Hah0).
  destruct (proj1 (Forall_lookup _ _) Hstiff _ _ Hst) as (st & Est & Hst0).
  pose proof (proj1 (Forall_lookup _ _) Hphase _ _ Hph) as Hphfin.
  pose proof (proj1 (Forall_lookup _ _) Hplaced _ _ Hd) as Hdfin.
  assert (Ha : RichInputs.finite_inputs a).
  { unfold RichInputs.finite_inputs. rewrite Hcol, Eah, Est.
    split; [exact Hfin |]. split; [exact Hdfin |].
    split; [eexists; reflexivity |]. split; [eexists; reflexivity |].
    exact Hphfin. }
  destruct (rich_sway_over_stiffness (Rich.mesh_uniforms m) a H ah y Hu Ha
              HH Eah Hy ltac:(lra) ltac:(lra)
              ltac:(apply Rmult_le_pos;
                    [lra | left; apply Rinv_0_lt_compat; lra]))
    as (core & _ & Hsway).
  specialize (Hsway st ltac:(lra)).
  rewrite (rich_with_own_stiffness a (fin st) Est) in Hsway.
  eexists. exact Hsway.
Qed.

(** The rich [createGrassMesh] called with a positive base height and blade
    width, a height variation in [0, 2) and finite wind options returns a
    well-formed mesh with finite uniforms. *)
Lemma rich_createGrassMesh_well_formed (rand : nat -> R) (o : Rich.options)
    (n : nat) (height variation width : R) :
  dflt (fin 15) (Rich.bladeHeight o) = fin height ->
  dflt (fin 0.4) (Rich.bladeHeightVariation o) = fin variation ->
  dflt (fin 0.5) (Rich.bladeWidth o) = fin width ->
  0 < height -> 0 <= variation < 2 -> 0 < width ->
  finite (dflt (fin 200) (Rich.grassPatchSize o)) ->
  finite (dflt (fin 3.0) (Rich.windSpeed o)) ->
  finite (dflt (fin 1) (Rich.windDirectionX o)) ->
  finite (dflt (fin 0) (Rich.windDirectionY o)) ->
  finite (dflt (fin 1) (Rich.windDirectionZ o)) ->
  finite (dflt (fin 1.4) (Rich.windIntensity o)) ->
  finite (dflt (fin 0.7) (Rich.windTurbulence o)) ->
  finite (dflt (fin 0.15) (Rich.windGustFrequency o)) ->
  finite (dflt (fin 0.35) (Rich.windGustIntensity o)) ->
  finite (dflt (fin 0.2) (Rich.microMovement o)) ->
  finite (dflt (fin 0.05) (Rich.wavePropagation o)) ->
  (0 <= dflt 100000%Z (Rich.grassBlades o))%Z ->
  (2 <= dflt 3%Z (Rich.verticesPerBlade o))%Z ->
  (forall k, 0 <= rand k < 1) ->
  exists m n',
    Rich.createGrassMesh rand o n = Ok (m, n')
    /\ RichMesh.well_formed m
    /\ RichInputs.finite_uniforms (Rich.mesh_uniforms m).
Proof.
  intros Hh Hv Hw Hh0 Hv0 Hw0 [size Hsize] Hws Hdx Hdy Hdz Hwi Hwt Hgf Hgi
    Hmm Hwp HN Hvc Hrand.
  destruct (rich_createGrassMesh_layout rand o n HN Hvc)
    as (m & n' & Hrun & (k & k' & Hvert) & _ & Hu & Hcf & Hci & Hplaced).
  destruct (rich_createGrassMesh_run rand o n HN Hvc)
    as (m2 & n2 & Hrun2 & _ & _ & _ & _ & _ & Hheights & Hstiff & Hphase
        & _).
  rewrite Hrun in Hrun2. apply ok_inj in Hrun2 as [<- <-].
  rewrite Hh, Hv in Hheights. rewrite Hh, Hv, Hw in Hvert.
  rewrite Hsize in Hplaced.
  destruct (rich_blade_box rand height width variation
              (dflt 3%Z (Rich.verticesPerBlade o)) k Hh0 Hw0 ltac:(lra) Hvc
              Hrand)
    as (vs & kv & Hvert' & Hvlen & Hbox).
  rewrite Hvert in Hvert'. apply ok_inj in Hvert' as [<- _].
  assert (Hwf : RichMesh.well_formed m).
  { unfold RichMesh.well_formed. rewrite Hu, Hcf, Hci.
    cbn [Rich.uBladeHeight].
    split; [exists height; split; [exact Hh | exact Hh0] |].
    split; [exact Hgf |]. split; [exact Hgi |].
    split.
    { eapply Forall_impl; [exact Hheights |].
      intros x [j ->]. specialize (Hrand j).
      rewrite div_fin by lra. cbn [Num.add Num.sub Num.mul Num.lift2 fin].
      eexists. split; [reflexivity |].
      assert (0 <= rand j * variation <= variation) by nra.
      apply Rmult_lt_0_compat; lra. }
    split.
    { eapply Forall_impl; [exact Hstiff |].
      intros x [j ->]. specialize (Hrand j).
      cbn [Num.add Num.mul Num.lift2 fin].
      eexists. split; [reflexivity | lra]. }
    split.
    { eapply Forall_impl; [exact Hphase |].
      intros x [j ->]. cbn [Num.mul Num.lift2 fin Math_PI].
      eexists. reflexivity. }
    split.
    { eapply Forall_impl; [exact Hplaced |].
      intros d (k1 & k2 & k3 & k4 & k5 & ->).
      cbn [obj_position Num.sub Num.mul Num.lift2 fin].
      repeat split; eexists; reflexivity. }
    intros j p Hp.
    pose proof (vertex_in_range _ _ _ Hp) as Hj. rewrite Hvlen in Hj.
    destruct (Hbox j ltac:(lia)) as (x & y & z & Hxyz & _ & Hy & _).
    rewrite Hp in Hxyz. injection Hxyz as ->.
    split; [repeat split; eexists; reflexivity |].
    exists y. split; [reflexivity | lra]. }
  exists m, n'. split; [exact Hrun |]. split; [exact Hwf |].
  rewrite Hu. unfold RichInputs.finite_uniforms.
  cbn [Rich.uTime Rich.uWindSpeed Rich.uWindDirection Rich.uWindNoiseFactor
       Rich.uWindTurbulence Rich.uWindIntensity Rich.uBladeHeight
       Rich.uGustFrequency Rich.uGustIntensity Rich.uMicroMovement
       Rich.uWavePropagation].
  split; [eexists; reflexivity |]. split; [exact Hws |].
  split; [split; [exact Hdx | split; [exact Hdy | exact Hdz]] |].
  split; [eexists; reflexivity |]. split; [exact Hwt |].
  split; [exact Hwi |]. split; [rewrite Hh; eexists; reflexivity |].
  split; [exact Hgf |]. split; [exact Hgi |]. split; [exact Hmm | exact Hwp].
Qed.

(** ** Every frame *)

(** A frame of [animate] with finite parameters at a finite time keeps the
    mesh well formed and leaves finite uniforms. *)
Lemma animate_keeps_well_formed (rand : nat -> R) (elapsed : R)
    (this : App.state) (n : nat) :
  RichMesh.well_formed (App.grass this) ->
  App.finite_wind (App.params this) ->
  exists s,
    App.animate rand (fin elapsed) this n = Ok (s, S n)
    /\ App.params s = App.params this
    /\ RichMesh.well_formed (App.grass s)
    /\ RichInputs.finite_uniforms (Rich.mesh_uniforms (App.grass s))
    /\ Rich.uWindDirection (Rich.mesh_uniforms (App.grass s)) = Vec3 1 0 1.
Proof.
  intros Hwf (Hws & Hwi & Hwt & Hmm & Hwp).
  destruct (mesh_updateWind_run rand (App.grass this) (fin elapsed)
              (App.as_wind_options (App.params this)) n _ _ eq_refl eq_refl)
    as (u' & Hu & Hrun).
  rewrite rich_updateWind_run
    with (mm := App.microMovement (App.params this))
         (wp := App.wavePropagation (App.params this)) in Hu
    by reflexivity.
  injection Hu as <-.
  eexists. split.
  { unfold App.animate. rewrite (bind_ok _ _ _ _ _ Hrun). reflexivity. }
  cbn [App.grass App.params].
  destruct Hwf as ((H & HH & Hpos) & Hgf & Hgi & Hrest).
  split; [reflexivity |]. split.
  { unfold RichMesh.well_formed.
    cbn [Rich.mesh_uniforms Rich.mesh_geometry Rich.mesh_instanceMatrix
         Rich.closure_windGustFrequency Rich.closure_windGustIntensity
         Rich.uBladeHeight].
    split; [exists H; split; assumption |].
    split; [exact Hgf |]. split; [exact Hgi | exact Hrest]. }
  split; [| reflexivity].
  unfold RichInputs.finite_uniforms.
  cbn [Rich.mesh_uniforms Rich.uTime Rich.uWindSpeed Rich.uWindDirection
       Rich.uWindNoiseFactor Rich.uWindTurbulence Rich.uWindIntensity
       Rich.uBladeHeight Rich.uGustFrequency Rich.uGustIntensity
       Rich.uMicroMovement Rich.uWavePropagation App.as_wind_options
       Rich.upd_windSpeed Rich.upd_windDirection Rich.upd_windIntensity
       Rich.upd_windTurbulence Rich.upd_gustFrequency Rich.upd_gustIntensity
       dflt].
  split; [eexists; reflexivity |]. split; [exact Hws |].
  split; [repeat split; eexists; reflexivity |].
  split; [eexists; reflexivity |]. split; [exact Hwt |].
  split; [exact Hwi |]. split; [rewrite HH; eexists; reflexivity |].
  split; [exact Hgf |]. split; [exact Hgi |]. split; [exact Hmm | exact Hwp].
Qed.

(** X23.  From the start of the application: [loadStage] builds a
    well-formed mesh of 100000 blades and finite wind parameters, so the
    first frame of [animate] computes a finite sway at every vertex of
    every instance. *)
Theorem loadStage_then_animate (rand : nat -> R) (elapsed : R) (n : nat) :
  (forall k, 0 <= rand k < 1) ->
  exists grass n' s,
    App.loadStage rand n = Ok ((grass, App.initial_grassParams), n')
    /\ Rich.mesh_count grass = 100000%Z
    /\ RichMesh.well_formed grass
    /\ App.animate rand (fin elapsed)
         {| App.grass := grass; App.time := fin elapsed;
            App.params := App.initial_grassParams |} n'
       = Ok (s, S n')
    /\ RichMesh.well_formed (App.grass s)
    /\ forall a,
        RichMesh.invocation (App.grass s) a ->
        finite (Rich.Shader.sway (Rich.mesh_uniforms (App.grass s)) a).
Proof.
  intros Hrand.
  destruct (rich_createGrassMesh_well_formed rand Rich.no_options n 15 0.4
              0.5)
    as (m & n' & Hrun & Hwf & _);
    try reflexivity; try (eexists; reflexivity); try (cbn; lia); try lra;
    try exact Hrand.
  destruct (rich_createGrassMesh_run rand Rich.no_options n
              ltac:(cbn; lia) ltac:(cbn; lia))
    as (m2 & n2 & Hrun2 & Hcount & _).
  rewrite Hrun in Hrun2. apply ok_inj in Hrun2 as [<- <-].
  destruct (animate_keeps_well_formed rand elapsed
              {| App.grass := m; App.time := fin elapsed;
                 App.params := App.initial_grassParams |} n' Hwf)
    as (s & Hframe & _ & Hwf' & Hu & _).
  { repeat split; eexists; reflexivity. }
  exists m, n', s. split.
  { unfold App.loadStage. rewrite (bind_ok _ _ _ _ _ Hrun). reflexivity. }
  split; [exact Hcount |]. split; [exact Hwf |]. split; [exact Hframe |].
  split; [exact Hwf' |].
  intros a Ha. exact (well_formed_sway_finite _ a Hwf' Hu Ha).
Qed.

Lemma loadStage_then_animate_witness :
  exists grass n' s,
    App.loadStage (fun _ => 0.5) 0%nat
    = Ok ((grass, App.initial_grassParams), n')
    /\ Rich.mesh_count grass = 100000%Z
    /\ RichMesh.well_formed grass
    /\ App.animate (fun _ => 0.5) (fin 2)
         {| App.grass := grass; App.time := fin 2;
            App.params := App.initial_grassParams |} n'
       = Ok (s, S n')
    /\ RichMesh.well_formed (App.grass s)
    /\ forall a,
        RichMesh.invocation (App.grass s) a ->
        finite (Rich.Shader.sway (Rich.mesh_uniforms (App.grass s)) a).
Proof.
  apply (loadStage_then_animate (fun _ => 0.5) 2 0%nat).
  intros k. lra.
Defined.

(** * The values as the code stores them *)

(** ** Powers of two and logarithms *)

Lemma pow2_pos (e : Z) : 0 < IEEE.pow2 e.
Proof. apply powerRZ_lt. lra. Qed.

Lemma pow2_add (a b : Z) : IEEE.pow2 (a + b) = IEEE.pow2 a * IEEE.pow2 b.
Proof. apply powerRZ_add. lra. Qed.

Lemma pow2_0 : IEEE.pow2 0 = 1.
Proof. reflexivity. Qed.

Lemma pow2_succ (a : Z) : IEEE.pow2 (a + 1) = 2 * IEEE.pow2 a.
Proof. rewrite pow2_add. unfold IEEE.pow2 at 2. simpl. lra. Qed.

Lemma pow2_exp (e : Z) : IEEE.pow2 e = exp (IZR e * ln 2).
Proof. unfold IEEE.pow2. rewrite powerRZ_Rpower by lra. reflexivity. Qed.

Lemma ln2_pos : 0 < ln 2.
Proof. rewrite <- ln_1. apply ln_increasing; lra. Qed.

Lemma pow2_lt (a b : Z) : (a < b)%Z -> IEEE.pow2 a < IEEE.pow2 b.
Proof.
  intros H. rewrite !pow2_exp. apply exp_increasing.
  apply Rmult_lt_compat_r; [apply ln2_pos | now apply IZR_lt].
Qed.

Lemma pow2_le (a b : Z) : (a <= b)%Z -> IEEE.pow2 a <= IEEE.pow2 b.
Proof.
  intros H. destruct (Z.eq_dec a b) as [-> | Hne]; [lra |].
  left. apply pow2_lt. lia.
Qed.

Lemma pow2_lt_inv (a b : Z) : IEEE.pow2 a < IEEE.pow2 b -> (a < b)%Z.
Proof.
  intros H. destruct (Z.lt_ge_cases a b) as [Hlt | Hge]; [exact Hlt |].
  pose proof (pow2_le b a Hge). lra.
Qed.

(** A power of two with a non-negative exponent is an integer. *)
Lemma pow2_IZR (e : Z) : (0 <= e)%Z -> IEEE.pow2 e = IZR (2 ^ e).
Proof.
  intros He. unfold IEEE.pow2.
  destruct e as [| p | p]; [reflexivity | | lia].
  cbn [powerRZ]. rewrite pow_IZR, positive_nat_Z. reflexivity.
Qed.

Lemma ilog2_bounds (x : R) :
  0 < x -> IEEE.pow2 (IEEE.ilog2 x) <= x < IEEE.pow2 (IEEE.ilog2 x + 1).
Proof.
  intros Hx. unfold IEEE.ilog2.
  pose proof (base_Int_part (ln x / ln 2)) as [Hlo Hhi].
  pose proof ln2_pos as Hln.
  set (k := Int_part (ln x / ln 2)) in *.
  assert (Hk : IZR k * ln 2 <= ln x).
  { apply Rmult_le_reg_r with (/ ln 2); [now apply Rinv_0_lt_compat |].
    rewrite Rmult_assoc, Rinv_r by lra. unfold Rdiv in Hlo. lra. }
  assert (Hk1 : ln x < IZR (k + 1) * ln 2).
  { rewrite plus_IZR.
    apply Rmult_lt_reg_r with (/ ln 2); [now apply Rinv_0_lt_compat |].
    rewrite Rmult_assoc, Rinv_r by lra. unfold Rdiv in Hhi. lra. }
  rewrite !pow2_exp. split.
  - rewrite <- (exp_ln x Hx) at 1.
    destruct Hk as [Hk | Hk];
      [left; now apply exp_increasing | rewrite Hk; lra].
  - rewrite <- (exp_ln x Hx) at 1. now apply exp_increasing.
Qed.

Lemma ilog2_unique (x : R) (k : Z) :
  IEEE.pow2 k <= x < IEEE.pow2 (k + 1) -> IEEE.ilog2 x = k.
Proof.
  intros [Hlo Hhi].
  assert (Hx : 0 < x) by (pose proof (pow2_pos k); lra).
  destruct (ilog2_bounds x Hx) as [Hlo' Hhi'].
  assert (k < IEEE.ilog2 x + 1)%Z by (apply pow2_lt_inv; lra).
  assert (IEEE.ilog2 x < k + 1)%Z by (apply pow2_lt_inv; lra).
  lia.
Qed.

Lemma ilog2_le (x : R) (k : Z) :
  0 < x -> x < IEEE.pow2 (k + 1) -> (IEEE.ilog2 x <= k)%Z.
Proof.
  intros Hx Hlt. destruct (ilog2_bounds x Hx) as [Hlo _].
  assert (IEEE.ilog2 x < k + 1)%Z by (apply pow2_lt_inv; lra). lia.
Qed.

Lemma ilog2_ge (x : R) (k : Z) :
  IEEE.pow2 k <= x -> (k <= IEEE.ilog2 x)%Z.
Proof.
  intros Hle.
  assert (Hx : 0 < x) by (pose proof (pow2_pos k); lra).
  destruct (ilog2_bounds x Hx) as [_ Hhi].
  assert (k < IEEE.ilog2 x + 1)%Z by (apply pow2_lt_inv; lra). lia.
Qed.

(** ** The nearest integer *)

Lemma nearest_even_error (t : R) :
  Rabs (IZR (IEEE.nearest_even t) - t) <= 1 / 2.
Proof.
  unfold IEEE.nearest_even.
  pose proof (base_Int_part t) as [Hlo Hhi].
  set (f := Int_part t) in *.
  destruct (Rlt_dec (t - IZR f) (1 / 2)) as [Hd | Hd].
  - unfold Rabs. destruct (Rcase_abs _); lra.
  - assert (Hup : Rabs (IZR (f + 1) - t) <= 1 / 2).
    { rewrite plus_IZR. unfold Rabs. destruct (Rcase_abs _); lra. }
    destruct (Rlt_dec (1 / 2) (t - IZR f)) as [Hd' | Hd']; [exact Hup |].
    destruct (Z.even f); [| exact Hup].
    unfold Rabs. destruct (Rcase_abs _); lra.
Qed.

Lemma nearest_even_eval (t : R) (m : Z) :
  Rabs (t - IZR m) < 1 / 2 -> IEEE.nearest_even t = m.
Proof.
  intros H. unfold IEEE.nearest_even.
  pose proof (base_Int_part t) as [Hlo Hhi].
  set (f := Int_part t) in *.
  assert (Habs : -(1 / 2) < t - IZR m < 1 / 2).
  { unfold Rabs in H. destruct (Rcase_abs _); lra. }
  assert (Hcases : (m = f \/ m = f + 1)%Z).
  { assert (IZR f < IZR m + 1) by lra.
    assert (IZR m < IZR f + 2) by lra.
    assert (f < m + 1)%Z by (apply lt_IZR; rewrite plus_IZR; lra).
    assert (m < f + 2)%Z by (apply lt_IZR; rewrite plus_IZR; lra).
    lia. }
  destruct Hcases as [-> | ->].
  - destruct (Rlt_dec (t - IZR f) (1 / 2)); [reflexivity | lra].
  - rewrite plus_IZR in Habs.
    destruct (Rlt_dec (t - IZR f) (1 / 2)); [lra |].
    destruct (Rlt_dec (1 / 2) (t - IZR f)); [reflexivity | lra].
Qed.

Lemma nearest_even_IZR (m : Z) : IEEE.nearest_even (IZR m) = m.
Proof.
  apply nearest_even_eval. rewrite Rminus_diag, Rabs_R0. lra.
Qed.

(** On a tie the even neighbour is taken. *)
Lemma nearest_even_tie (m : Z) :
  IEEE.nearest_even (IZR m + 1 / 2) = if Z.even m then m else (m + 1)%Z.
Proof.
  unfold IEEE.nearest_even.
  assert (Hf : Int_part (IZR m + 1 / 2) = m).
  { symmetry. apply Int_part_spec. lra. }
  rewrite Hf.
  destruct (Rlt_dec (IZR m + 1 / 2 - IZR m) (1 / 2)); [lra |].
  destruct (Rlt_dec (1 / 2) (IZR m + 1 / 2 - IZR m)); [lra |].
  reflexivity.
Qed.

(** Rounding to an integer does not cross an integer. *)
Lemma nearest_even_le (t : R) (b : Z) :
  t <= IZR b -> (IEEE.nearest_even t <= b)%Z.
Proof.
  intros H. pose proof (nearest_even_error t) as He.
  assert (IZR (IEEE.nearest_even t) < IZR b + 1).
  { unfold Rabs in He. destruct (Rcase_abs _); lra. }
  assert (IEEE.nearest_even t < b + 1)%Z
    by (apply lt_IZR; rewrite plus_IZR; lra).
  lia.
Qed.

Lemma nearest_even_ge (t : R) (a : Z) :
  IZR a <= t -> (a <= IEEE.nearest_even t)%Z.
Proof.
  intros H. pose proof (nearest_even_error t) as He.
  assert (IZR a - 1 < IZR (IEEE.nearest_even t)).
  { unfold Rabs in He. destruct (Rcase_abs _); lra. }
  assert (a - 1 < IEEE.nearest_even t)%Z
    by (apply lt_IZR; rewrite minus_IZR; lra).
  lia.
Qed.

(** ** Rounding *)

Lemma round_unbounded_0 (f : IEEE.format) : IEEE.round_unbounded f 0 = 0.
Proof.
  unfold IEEE.round_unbounded. destruct (Req_dec_T 0 0); [reflexivity | lra].
Qed.

Lemma round_0 (f : IEEE.format) : IEEE.round f 0 = Some 0.
Proof.
  unfold IEEE.round. rewrite round_unbounded_0, Rabs_R0.
  destruct (Rlt_dec 0 (IEEE.pow2 (IEEE.emax f))) as [_ | H];
    [reflexivity |].
  destruct H. apply pow2_pos.
Qed.

Lemma round_unbounded_error (f : IEEE.format) (x : R) :
  Rabs (IEEE.round_unbounded f x - x) <= IEEE.pow2 (IEEE.cexp f x) / 2.
Proof.
  pose proof (pow2_pos (IEEE.cexp f x)) as Hc.
  unfold IEEE.round_unbounded. destruct (Req_dec_T x 0) as [-> | Hx].
  - rewrite Rminus_diag, Rabs_R0. lra.
  - set (c := IEEE.cexp f x) in *.
    pose proof (nearest_even_error (x / IEEE.pow2 c)) as He.
    set (m := IZR (IEEE.nearest_even (x / IEEE.pow2 c))) in *.
    replace (m * IEEE.pow2 c - x)
      with ((m - x / IEEE.pow2 c) * IEEE.pow2 c) by (field; lra).
    rewrite Rabs_mult, (Rabs_pos_eq (IEEE.pow2 c)) by lra.
    apply Rle_trans with (1 / 2 * IEEE.pow2 c); [| lra].
    apply Rmult_le_compat_r; lra.
Qed.

Lemma ilog2_abs_le (x : R) (k : Z) :
  x <> 0 -> Rabs x <= IEEE.pow2 k -> (IEEE.ilog2 (Rabs x) <= k)%Z.
Proof.
  intros Hx Hle. apply ilog2_le; [now apply Rabs_pos_lt |].
  pose proof (pow2_lt k (k + 1) ltac:(lia)). lra.
Qed.

Lemma cexp_le (f : IEEE.format) (x : R) (k : Z) :
  x <> 0 -> Rabs x <= IEEE.pow2 k ->
  (IEEE.emin f <= k - IEEE.prec f + 1)%Z ->
  (IEEE.cexp f x <= k - IEEE.prec f + 1)%Z.
Proof.
  intros Hx Hle Hmin. pose proof (ilog2_abs_le x k Hx Hle).
  unfold IEEE.cexp. lia.
Qed.

(** The error of a rounding below [2 ^ k], subnormal numbers included. *)
Lemma round_unbounded_abs_error (f : IEEE.format) (x : R) (k : Z) :
  Rabs x <= IEEE.pow2 k ->
  (IEEE.emin f <= k - IEEE.prec f + 1)%Z ->
  Rabs (IEEE.round_unbounded f x - x) <= IEEE.pow2 (k - IEEE.prec f).
Proof.
  intros Hle Hmin. destruct (Req_dec_T x 0) as [-> | Hx].
  - rewrite round_unbounded_0, Rminus_diag, Rabs_R0.
    left. apply pow2_pos.
  - pose proof (round_unbounded_error f x) as He.
    pose proof (cexp_le f x k Hx Hle Hmin) as Hc.
    pose proof (pow2_le _ _ Hc) as Hp.
    rewrite pow2_succ in Hp. lra.
Qed.

(** The relative error of a rounding in the normal range. *)
Lemma round_unbounded_rel_error (f : IEEE.format) (x : R) :
  IEEE.pow2 (IEEE.emin f + IEEE.prec f - 1) <= Rabs x ->
  Rabs (IEEE.round_unbounded f x - x)
  <= IEEE.pow2 (- IEEE.prec f) * Rabs x.
Proof.
  intros Hnormal.
  pose proof (round_unbounded_error f x) as He.
  pose proof (ilog2_ge _ _ Hnormal) as Hge.
  assert (Hx : 0 < Rabs x)
    by (pose proof (pow2_pos (IEEE.emin f + IEEE.prec f - 1)); lra).
  destruct (ilog2_bounds (Rabs x) Hx) as [Hlo _].
  assert (Hc : IEEE.cexp f x
               = (IEEE.ilog2 (Rabs x) + (- IEEE.prec f) + 1)%Z)
    by (unfold IEEE.cexp; lia).
  rewrite Hc, pow2_succ, pow2_add in He.
  pose proof (pow2_pos (- IEEE.prec f)).
  apply Rle_trans with (1 := He).
  replace (2 * (IEEE.pow2 (IEEE.ilog2 (Rabs x)) * IEEE.pow2 (- IEEE.prec f))
           / 2)
    with (IEEE.pow2 (- IEEE.prec f) * IEEE.pow2 (IEEE.ilog2 (Rabs x)))
    by lra.
  apply Rmult_le_compat_l; lra.
Qed.

(** Rounding does not cross a power of two. *)
Lemma round_unbounded_le_pow2 (f : IEEE.format) (x : R) (k : Z) :
  (1 <= IEEE.prec f)%Z ->
  Rabs x <= IEEE.pow2 k ->
  (IEEE.emin f <= k - IEEE.prec f + 1)%Z ->
  Rabs (IEEE.round_unbounded f x) <= IEEE.pow2 k.
Proof.
  intros Hprec Hle Hmin. destruct (Req_dec_T x 0) as [-> | Hx].
  - rewrite round_unbounded_0, Rabs_R0. left. apply pow2_pos.
  - pose proof (cexp_le f x k Hx Hle Hmin) as Hc.
    unfold IEEE.round_unbounded.
    destruct (Req_dec_T x 0) as [| _]; [contradiction |].
    set (c := IEEE.cexp f x) in *.
    pose proof (pow2_pos c) as Hpc.
    assert (Hk : IEEE.pow2 k = IZR (2 ^ (k - c)) * IEEE.pow2 c).
    { rewrite <- pow2_IZR by lia. rewrite <- pow2_add. f_equal. lia. }
    assert (Hq : Rabs (x / IEEE.pow2 c) <= IZR (2 ^ (k - c))).
    { unfold Rdiv. rewrite Rabs_mult, (Rabs_pos_eq (/ IEEE.pow2 c))
        by (left; now apply Rinv_0_lt_compat).
      apply Rmult_le_reg_r with (IEEE.pow2 c); [exact Hpc |].
      rewrite Rmult_assoc, Rinv_l by lra. lra. }
    set (q := x / IEEE.pow2 c) in *.
    assert (Hq' : - IZR (2 ^ (k - c)) <= q <= IZR (2 ^ (k - c))).
    { unfold Rabs in Hq. destruct (Rcase_abs q); lra. }
    pose proof (nearest_even_le q (2 ^ (k - c)) (proj2 Hq')) as Hup.
    assert (Hdown : (- 2 ^ (k - c) <= IEEE.nearest_even q)%Z).
    { apply nearest_even_ge. rewrite opp_IZR. lra. }
    apply IZR_le in Hup. apply IZR_le in Hdown. rewrite opp_IZR in Hdown.
    rewrite Rabs_mult, (Rabs_pos_eq (IEEE.pow2 c)) by lra.
    rewrite Hk. apply Rmult_le_compat_r; [lra |].
    unfold Rabs. destruct (Rcase_abs _); lra.
Qed.

Lemma round_unbounded_nonneg (f : IEEE.format) (x : R) :
  0 <= x -> 0 <= IEEE.round_unbounded f x.
Proof.
  intros Hx. unfold IEEE.round_unbounded.
  destruct (Req_dec_T x 0); [lra |].
  pose proof (pow2_pos (IEEE.cexp f x)) as Hc.
  apply Rmult_le_pos; [| lra].
  apply IZR_le. apply nearest_even_ge.
  apply Rmult_le_pos; [lra | left; now apply Rinv_0_lt_compat].
Qed.

Lemma round_unbounded_ge_pow2 (f : IEEE.format) (x : R) (k : Z) :
  (1 <= IEEE.prec f)%Z ->
  IEEE.pow2 k <= x -> (IEEE.emin f <= k)%Z ->
  IEEE.pow2 k <= IEEE.round_unbounded f x.
Proof.
  intros Hprec Hle Hmin.
  assert (Hx : 0 < x) by (pose proof (pow2_pos k); lra).
  pose proof (ilog2_ge _ _ Hle) as Hlog.
  destruct (ilog2_bounds x Hx) as [Hlo _].
  unfold IEEE.round_unbounded. destruct (Req_dec_T x 0); [lra |].
  unfold IEEE.cexp. rewrite (Rabs_pos_eq x) by lra.
  set (l := IEEE.ilog2 x) in *.
  set (c := Z.max (l - (IEEE.prec f - 1)) (IEEE.emin f)).
  pose proof (pow2_pos c) as Hpc.
  (* the largest power of two below [x] that is on the grid of [x] *)
  set (j := Z.max k c).
  assert (Hj : (c <= j /\ k <= j /\ j <= l)%Z) by (unfold j, c; lia).
  assert (Hjx : IEEE.pow2 j <= x).
  { apply Rle_trans with (IEEE.pow2 l); [apply pow2_le; lia | exact Hlo]. }
  assert (Hgrid : IEEE.pow2 j = IZR (2 ^ (j - c)) * IEEE.pow2 c).
  { rewrite <- pow2_IZR by lia. rewrite <- pow2_add. f_equal. lia. }
  assert (Hq : IZR (2 ^ (j - c)) <= x / IEEE.pow2 c).
  { apply Rmult_le_reg_r with (IEEE.pow2 c); [exact Hpc |].
    unfold Rdiv. rewrite Rmult_assoc, Rinv_l by lra. lra. }
  apply nearest_even_ge in Hq. apply IZR_le in Hq.
  apply Rle_trans with (IEEE.pow2 j); [apply pow2_le; lia |].
  rewrite Hgrid. apply Rmult_le_compat_r; lra.
Qed.

(** Below [2 ^ (emax - 1)] nothing overflows. *)
Lemma round_finite (f : IEEE.format) (x : R) (k : Z) :
  (1 <= IEEE.prec f)%Z ->
  Rabs x <= IEEE.pow2 k ->
  (IEEE.emin f <= k - IEEE.prec f + 1)%Z -> (k < IEEE.emax f)%Z ->
  IEEE.round f x = Some (IEEE.round_unbounded f x).
Proof.
  intros Hprec Hle Hmin Hmax. unfold IEEE.round.
  pose proof (round_unbounded_le_pow2 f x k Hprec Hle Hmin).
  pose proof (pow2_lt k (IEEE.emax f) Hmax).
  destruct (Rlt_dec _ _); [reflexivity | lra].
Qed.

(** The value of a rounding, from the exponent and the mantissa. *)
Lemma round_eval (f : IEEE.format) (x : R) (m e : Z) :
  IEEE.pow2 (e + IEEE.prec f - 1) <= Rabs x < IEEE.pow2 (e + IEEE.prec f) ->
  (IEEE.emin f <= e)%Z ->
  Rabs (x / IEEE.pow2 e - IZR m) < 1 / 2 ->
  Rabs (IZR m * IEEE.pow2 e) < IEEE.pow2 (IEEE.emax f) ->
  IEEE.round f x = Some (IZR m * IEEE.pow2 e).
Proof.
  intros Hx Hmin Hm Hmax.
  assert (Hlog : IEEE.ilog2 (Rabs x) = (e + IEEE.prec f - 1)%Z).
  { apply ilog2_unique.
    replace (e + IEEE.prec f - 1 + 1)%Z with (e + IEEE.prec f)%Z by lia.
    exact Hx. }
  assert (Hc : IEEE.cexp f x = e) by (unfold IEEE.cexp; lia).
  assert (Hne : x <> 0).
  { intros ->. rewrite Rabs_R0 in Hx.
    pose proof (pow2_pos (e + IEEE.prec f - 1)). lra. }
  unfold IEEE.round, IEEE.round_unbounded.
  destruct (Req_dec_T x 0); [contradiction |].
  rewrite Hc, (nearest_even_eval _ m Hm).
  destruct (Rlt_dec _ _); [reflexivity | contradiction].
Qed.

(** The same on a tie. *)
Lemma round_eval_tie (f : IEEE.format) (x : R) (m e : Z) :
  IEEE.pow2 (e + IEEE.prec f - 1) <= Rabs x < IEEE.pow2 (e + IEEE.prec f) ->
  (IEEE.emin f <= e)%Z ->
  x / IEEE.pow2 e = IZR m + 1 / 2 ->
  let m' := if Z.even m then m else (m + 1)%Z in
  Rabs (IZR m' * IEEE.pow2 e) < IEEE.pow2 (IEEE.emax f) ->
  IEEE.round f x = Some (IZR m' * IEEE.pow2 e).
Proof.
  intros Hx Hmin Hm m' Hmax.
  assert (Hlog : IEEE.ilog2 (Rabs x) = (e + IEEE.prec f - 1)%Z).
  { apply ilog2_unique.
    replace (e + IEEE.prec f - 1 + 1)%Z with (e + IEEE.prec f)%Z by lia.
    exact Hx. }
  assert (Hc : IEEE.cexp f x = e) by (unfold IEEE.cexp; lia).
  assert (Hne : x <> 0).
  { intros ->. rewrite Rabs_R0 in Hx.
    pose proof (pow2_pos (e + IEEE.prec f - 1)). lra. }
  unfold IEEE.round, IEEE.round_unbounded.
  destruct (Req_dec_T x 0); [contradiction |].
  rewrite Hc, Hm, nearest_even_tie. fold m'.
  destruct (Rlt_dec _ _); [reflexivity | contradiction].
Qed.

(** ** Rounding a number of known size *)

(** A positive number between two powers of two: the rounding stays between
    them and is off by at most [2 ^ -prec] of the number. *)
Lemma round_positive (f : IEEE.format) (x : R) (lo hi : Z) :
  (1 <= IEEE.prec f)%Z ->
  (IEEE.emin f + IEEE.prec f - 1 <= lo)%Z -> (hi < IEEE.emax f)%Z ->
  IEEE.pow2 lo <= x <= IEEE.pow2 hi ->
  exists y : R,
    IEEE.round f x = Some y
    /\ IEEE.pow2 lo <= y <= IEEE.pow2 hi
    /\ Rabs (y - x) <= IEEE.pow2 (- IEEE.prec f) * x.
Proof.
  intros Hprec Hlo Hhi [Hx1 Hx2].
  assert (Hx : 0 < x) by (pose proof (pow2_pos lo); lra).
  assert (Hlohi : (lo <= hi)%Z).
  { destruct (Z.le_gt_cases lo hi) as [H | H]; [exact H |].
    pose proof (pow2_lt hi lo ltac:(lia)). lra. }
  exists (IEEE.round_unbounded f x).
  assert (Habs : Rabs x <= IEEE.pow2 hi) by (rewrite Rabs_pos_eq; lra).
  split; [apply (round_finite f x hi); try assumption; lia |].
  split; [split |].
  - apply round_unbounded_ge_pow2; try assumption. lia.
  - pose proof (round_unbounded_le_pow2 f x hi Hprec Habs ltac:(lia)) as H.
    unfold Rabs in H. destruct (Rcase_abs _); lra.
  - pose proof (round_unbounded_rel_error f x) as Herr.
    rewrite (Rabs_pos_eq x) in Herr by lra. apply Herr.
    apply Rle_trans with (IEEE.pow2 lo); [apply pow2_le; lia | exact Hx1].
Qed.

(** A number below a power of two, of either sign and possibly tiny. *)
Lemma round_small (f : IEEE.format) (x : R) (k : Z) :
  (1 <= IEEE.prec f)%Z ->
  (IEEE.emin f + IEEE.prec f - 1 <= k)%Z -> (k < IEEE.emax f)%Z ->
  Rabs x <= IEEE.pow2 k ->
  exists y : R,
    IEEE.round f x = Some y
    /\ Rabs y <= IEEE.pow2 k
    /\ Rabs (y - x) <= IEEE.pow2 (k - IEEE.prec f)
    /\ (0 <= x -> 0 <= y).
Proof.
  intros Hprec Hlo Hhi Hx.
  exists (IEEE.round_unbounded f x).
  split; [apply (round_finite f x k); try assumption; lia |].
  split; [apply round_unbounded_le_pow2; try assumption; lia |].
  split; [apply round_unbounded_abs_error; [assumption | lia] |].
  apply round_unbounded_nonneg.
Qed.

(** A power of two is a number of the format. *)
Lemma round_pow2 (f : IEEE.format) (k : Z) :
  (1 <= IEEE.prec f)%Z ->
  (IEEE.emin f + IEEE.prec f - 1 <= k)%Z -> (k < IEEE.emax f)%Z ->
  IEEE.round f (IEEE.pow2 k) = Some (IEEE.pow2 k).
Proof.
  intros Hprec Hlo Hhi.
  pose proof (pow2_pos k) as Hk.
  assert (Hval : IZR (2 ^ (IEEE.prec f - 1))
                 * IEEE.pow2 (k - IEEE.prec f + 1)
                 = IEEE.pow2 k).
  { rewrite <- pow2_IZR by lia. rewrite <- pow2_add. f_equal. lia. }
  rewrite <- Hval at 2.
  apply round_eval.
  - rewrite Rabs_pos_eq by lra.
    replace (k - IEEE.prec f + 1 + IEEE.prec f - 1)%Z with k by lia.
    replace (k - IEEE.prec f + 1 + IEEE.prec f)%Z with (k + 1)%Z by lia.
    pose proof (pow2_lt k (k + 1) ltac:(lia)). lra.
  - lia.
  - rewrite <- Hval at 1.
    pose proof (pow2_pos (k - IEEE.prec f + 1)).
    replace (IZR (2 ^ (IEEE.prec f - 1)) * IEEE.pow2 (k - IEEE.prec f + 1)
             / IEEE.pow2 (k - IEEE.prec f + 1)
             - IZR (2 ^ (IEEE.prec f - 1)))
      with 0 by (field; lra).
    rewrite Rabs_R0. lra.
  - rewrite Hval, Rabs_pos_eq by lra. now apply pow2_lt.
Qed.

(** ** JavaScript numbers *)

Lemma number_0 : JS.number 0 = Some 0.
Proof. apply round_0. Qed.

Lemma number_pow2 (k : Z) :
  (-1022 <= k < 1024)%Z -> JS.number (IEEE.pow2 k) = Some (IEEE.pow2 k).
Proof. intros H. apply round_pow2; cbn; lia. Qed.

Lemma number_1 : JS.number 1 = Some 1.
Proof. exact (number_pow2 0 ltac:(lia)). Qed.

Lemma number_2 : JS.number 2 = Some 2.
Proof.
  replace 2 with (IEEE.pow2 1) by (unfold IEEE.pow2; simpl; lra).
  apply number_pow2. lia.
Qed.

Lemma number_half : JS.number 0.5 = Some 0.5.
Proof.
  replace 0.5 with (IEEE.pow2 (-1)) by (unfold IEEE.pow2; simpl; lra).
  apply number_pow2. lia.
Qed.

Lemma number_positive (x : R) (lo hi : Z) :
  (-1022 <= lo)%Z -> (hi < 1024)%Z ->
  IEEE.pow2 lo <= x <= IEEE.pow2 hi ->
  exists y : R,
    JS.number x = Some y
    /\ IEEE.pow2 lo <= y <= IEEE.pow2 hi
    /\ Rabs (y - x) <= IEEE.pow2 (-53) * x.
Proof.
  intros Hlo Hhi Hx.
  apply (round_positive IEEE.binary64 x lo hi); cbn; try lia. exact Hx.
Qed.

Lemma number_small (x : R) (k : Z) :
  (-1022 <= k < 1024)%Z ->
  Rabs x <= IEEE.pow2 k ->
  exists y : R,
    JS.number x = Some y
    /\ Rabs y <= IEEE.pow2 k
    /\ Rabs (y - x) <= IEEE.pow2 (k - 53)
    /\ (0 <= x -> 0 <= y).
Proof.
  intros Hk Hx.
  apply (round_small IEEE.binary64 x k); cbn; try lia. exact Hx.
Qed.

(** ** Elements of a [Float32Array] *)

Lemma fround_0 : fround (Some 0) = Some 0.
Proof. apply round_0. Qed.

Lemma fround_positive (x : R) (lo hi : Z) :
  (-126 <= lo)%Z -> (hi < 128)%Z ->
  IEEE.pow2 lo <= x <= IEEE.pow2 hi ->
  exists y : R,
    fround (Some x) = Some y
    /\ IEEE.pow2 lo <= y <= IEEE.pow2 hi
    /\ Rabs (y - x) <= IEEE.pow2 (-24) * x.
Proof.
  intros Hlo Hhi Hx.
  apply (round_positive IEEE.binary32 x lo hi); cbn; try lia. exact Hx.
Qed.

Lemma fround_small (x : R) (k : Z) :
  (-126 <= k < 128)%Z ->
  Rabs x <= IEEE.pow2 k ->
  exists y : R,
    fround (Some x) = Some y
    /\ Rabs y <= IEEE.pow2 k
    /\ Rabs (y - x) <= IEEE.pow2 (k - 24)
    /\ (0 <= x -> 0 <= y).
Proof.
  intros Hk Hx.
  apply (round_small IEEE.binary32 x k); cbn; try lia. exact Hx.
Qed.

(** ** Numbers of the format are not changed *)

Lemma round_unbounded_fix (f : IEEE.format) (m e : Z) :
  (1 <= IEEE.prec f)%Z -> (IEEE.emin f <= e)%Z ->
  (Z.abs m <= 2 ^ IEEE.prec f)%Z ->
  IEEE.round_unbounded f (IZR m * IEEE.pow2 e) = IZR m * IEEE.pow2 e.
Proof.
  intros Hprec Hmin Hm.
  set (y := IZR m * IEEE.pow2 e).
  pose proof (pow2_pos e) as He.
  unfold IEEE.round_unbounded. destruct (Req_dec_T y 0) as [Hy | Hy];
    [now rewrite Hy |].
  assert (Hm0 : m <> 0%Z).
  { intros ->. apply Hy. unfold y. lra. }
  assert (Habs : Rabs y = IZR (Z.abs m) * IEEE.pow2 e).
  { unfold y. rewrite Rabs_mult, (Rabs_pos_eq (IEEE.pow2 e)) by lra.
    now rewrite abs_IZR. }
  assert (Hle : Rabs y <= IEEE.pow2 (IEEE.prec f + e)).
  { rewrite Habs, pow2_add, (pow2_IZR (IEEE.prec f)) by lia.
    apply Rmult_le_compat_r; [lra | now apply IZR_le]. }
  pose proof (ilog2_abs_le y _ Hy Hle) as Hlog.
  set (c := IEEE.cexp f y).
  assert (Hc : (c <= e + 1)%Z) by (unfold c, IEEE.cexp; lia).
  pose proof (pow2_pos c) as Hpc.
  destruct (Z.le_gt_cases c e) as [Hce | Hce].
  - assert (Hq : y / IEEE.pow2 c = IZR (m * 2 ^ (e - c))).
    { rewrite mult_IZR, <- pow2_IZR by lia. unfold y.
      replace e with (e - c + c)%Z at 1 by lia. rewrite pow2_add.
      field. lra. }
    rewrite Hq, nearest_even_IZR, <- Hq. field. lra.
  - assert (Hc1 : c = (e + 1)%Z) by lia.
    assert (Hl : IEEE.ilog2 (Rabs y) = (IEEE.prec f + e)%Z)
      by (unfold c, IEEE.cexp in Hc1; lia).
    assert (Hy0 : 0 < Rabs y) by now apply Rabs_pos_lt.
    destruct (ilog2_bounds (Rabs y) Hy0) as [Hlo _].
    rewrite Hl, Habs, pow2_add, (pow2_IZR (IEEE.prec f)) in Hlo by lia.
    assert (Hge : (2 ^ IEEE.prec f <= Z.abs m)%Z).
    { apply le_IZR. apply Rmult_le_reg_r with (IEEE.pow2 e); lra. }
    assert (Hm2 : (m = 2 * (m / 2))%Z).
    { assert (Hpow : (2 ^ IEEE.prec f = 2 * 2 ^ (IEEE.prec f - 1))%Z).
      { rewrite <- Z.pow_succ_r by lia. f_equal. lia. }
      assert (Hj : exists j, (m = j * 2)%Z).
      { destruct (Z.abs_spec m) as [[_ Hp] | [_ Hp]].
        - exists (2 ^ (IEEE.prec f - 1))%Z. lia.
        - exists (- 2 ^ (IEEE.prec f - 1))%Z. lia. }
      destruct Hj as [j ->]. rewrite Z.div_mul by lia. lia. }
    assert (Hq : y / IEEE.pow2 c = IZR (m / 2)).
    { unfold y. rewrite Hc1, pow2_succ. rewrite Hm2 at 1.
      rewrite mult_IZR. field. lra. }
    rewrite Hq, nearest_even_IZR, <- Hq. field. lra.
Qed.

(** The mantissa of a rounding has at most [prec] bits, or is the next
    power of two. *)
Lemma round_unbounded_mantissa (f : IEEE.format) (x : R) :
  (1 <= IEEE.prec f)%Z -> x <> 0 ->
  (Z.abs (IEEE.nearest_even (x / IEEE.pow2 (IEEE.cexp f x)))
   <= 2 ^ IEEE.prec f)%Z.
Proof.
  intros Hprec Hx.
  set (c := IEEE.cexp f x).
  pose proof (pow2_pos c) as Hpc.
  assert (Hx0 : 0 < Rabs x) by now apply Rabs_pos_lt.
  destruct (ilog2_bounds (Rabs x) Hx0) as [_ Hhi].
  assert (Hc : (IEEE.ilog2 (Rabs x) + 1 <= IEEE.prec f + c)%Z)
    by (unfold c, IEEE.cexp; lia).
  assert (Hle : Rabs x <= IEEE.pow2 (IEEE.prec f + c)).
  { pose proof (pow2_le _ _ Hc). lra. }
  rewrite pow2_add, (pow2_IZR (IEEE.prec f)) in Hle by lia.
  assert (Hq : Rabs (x / IEEE.pow2 c) <= IZR (2 ^ IEEE.prec f)).
  { unfold Rdiv. rewrite Rabs_mult, (Rabs_pos_eq (/ IEEE.pow2 c))
      by (left; now apply Rinv_0_lt_compat).
    apply Rmult_le_reg_r with (IEEE.pow2 c); [exact Hpc |].
    rewrite Rmult_assoc, Rinv_l by lra. lra. }
  set (q := x / IEEE.pow2 c) in *.
  assert (Hq' : - IZR (2 ^ IEEE.prec f) <= q <= IZR (2 ^ IEEE.prec f)).
  { unfold Rabs in Hq. destruct (Rcase_abs q); lra. }
  pose proof (nearest_even_le q _ (proj2 Hq')).
  assert (- 2 ^ IEEE.prec f <= IEEE.nearest_even q)%Z.
  { apply nearest_even_ge. rewrite opp_IZR. lra. }
  lia.
Qed.

(** Rounding twice is rounding once. *)
Lemma round_idempotent (f : IEEE.format) (x y : R) :
  (1 <= IEEE.prec f)%Z ->
  IEEE.round f x = Some y -> IEEE.round f y = Some y.
Proof.
  intros Hprec. unfold IEEE.round.
  destruct (Rlt_dec (Rabs (IEEE.round_unbounded f x)) _) as [Hlt |];
    [| discriminate].
  intros [= <-].
  assert (Hfix : IEEE.round_unbounded f (IEEE.round_unbounded f x)
                 = IEEE.round_unbounded f x).
  { unfold IEEE.round_unbounded at 2 3.
    destruct (Req_dec_T x 0) as [_ | Hx]; [apply round_unbounded_0 |].
    apply round_unbounded_fix; [assumption | unfold IEEE.cexp; lia |].
    now apply round_unbounded_mantissa. }
  rewrite Hfix. destruct (Rlt_dec _ _); [reflexivity | contradiction].
Qed.

Lemma fround_idempotent (a : num) : fround (fround a) = fround a.
Proof.
  destruct a as [x |]; [| reflexivity]. cbn [fround].
  destruct (IEEE.round IEEE.binary32 x) as [y |] eqn:E; [| reflexivity].
  cbn [fround]. apply (round_idempotent _ x y); [cbn; lia | exact E].
Qed.

(** ** The constants of the error bounds *)

Lemma pow2_m53 : IEEE.pow2 (-53) = / 9007199254740992.
Proof. unfold IEEE.pow2. simpl. f_equal. lra. Qed.

Lemma pow2_m54 : IEEE.pow2 (-54) = / 18014398509481984.
Proof. unfold IEEE.pow2. simpl. f_equal. lra. Qed.

Lemma pow2_m24 : IEEE.pow2 (-24) = / 16777216.
Proof. unfold IEEE.pow2. simpl. f_equal. lra. Qed.

Lemma pow2_m23 : IEEE.pow2 (-23) = / 8388608.
Proof. unfold IEEE.pow2. simpl. f_equal. lra. Qed.

Lemma pow2_m22 : IEEE.pow2 (-22) = / 4194304.
Proof. unfold IEEE.pow2. simpl. f_equal. lra. Qed.

Lemma pow2_m1 : IEEE.pow2 (-1) = / 2.
Proof. unfold IEEE.pow2. simpl. f_equal. lra. Qed.

Lemma pow2_1 : IEEE.pow2 1 = 2.
Proof. unfold IEEE.pow2. simpl. lra. Qed.

Lemma pow2_2 : IEEE.pow2 2 = 4.
Proof. unfold IEEE.pow2. simpl. lra. Qed.

Lemma pow2_3 : IEEE.pow2 3 = 8.
Proof. unfold IEEE.pow2. simpl. lra. Qed.

Lemma Rabs_bounds (x e : R) : Rabs x <= e -> - e <= x <= e.
Proof. intros H. unfold Rabs in H. destruct (Rcase_abs x); lra. Qed.

(** ** The expressions of the generator, with their error bounds *)

Ltac js_step :=
  cbn [JS.add JS.sub JS.mul JS.div Num.neg Num.abs Num.lift1 fround].

Ltac js_div2 :=
  match goal with
  | |- context [Req_dec_T 2 0] =>
      destruct (Req_dec_T 2 0) as [Habsurd | _]; [exfalso; lra |]
  end.

(** [baseBladeHeight * (1 - bladeHeightVariation/2 + r * bladeHeightVariation)]
    as an element of a [Float32Array]. *)
Lemma actualBladeHeight_stored (h v r : R) :
  IEEE.pow2 (-100) <= h <= IEEE.pow2 100 ->
  0 <= v <= 1 -> 0 <= r <= 1 ->
  exists y : R,
    fround (RichIEEE.actualBladeHeight (fin h) (fin v) (fin r)) = Some y
    /\ h * (1 - v / 2) * (1 - IEEE.pow2 (-23)) <= y
       <= h * (1 + v / 2) * (1 + IEEE.pow2 (-23))
    /\ 0 < y.
Proof.
  intros Hh Hv Hr.
  pose proof (pow2_pos (-100)) as Hp100.
  pose proof (pow2_succ (-101)) as Hm101.
  pose proof (pow2_succ 100) as H101.
  change (-101 + 1)%Z with (-100)%Z in Hm101.
  change (100 + 1)%Z with 101%Z in H101.
  assert (Hh0 : 0 < h) by lra.
  unfold RichIEEE.actualBladeHeight, fin.
  rewrite number_1, number_2. js_step. js_div2.
  destruct (number_small (v / 2) (-1) ltac:(lia)) as (q & -> & Hq1 & Hq2 & Hq3).
  { rewrite pow2_m1, Rabs_pos_eq; lra. }
  change (-1 - 53)%Z with (-54)%Z in Hq2. rewrite pow2_m54 in Hq2.
  rewrite pow2_m1 in Hq1.
  apply Rabs_bounds in Hq1, Hq2. specialize (Hq3 ltac:(lra)).
  js_step.
  destruct (number_positive (1 - q) (-1) 0 ltac:(lia) ltac:(lia))
    as (a & -> & Ha1 & Ha2).
  { rewrite pow2_m1, pow2_0. lra. }
  rewrite pow2_m1, pow2_0 in Ha1. rewrite pow2_m53 in Ha2.
  apply Rabs_bounds in Ha2.
  assert (Hrv : 0 <= r * v <= v).
  { split; [apply Rmult_le_pos; lra |].
    rewrite <- (Rmult_1_l v) at 2. apply Rmult_le_compat_r; lra. }
  destruct (number_small (r * v) 0 ltac:(lia)) as (b & -> & Hb1 & Hb2 & Hb3).
  { rewrite pow2_0, Rabs_pos_eq; lra. }
  change (0 - 53)%Z with (-53)%Z in Hb2. rewrite pow2_m53 in Hb2.
  rewrite pow2_0 in Hb1.
  apply Rabs_bounds in Hb1, Hb2. specialize (Hb3 ltac:(lra)).
  js_step.
  destruct (number_positive (a + b) (-1) 1 ltac:(lia) ltac:(lia))
    as (c & -> & Hc1 & Hc2).
  { rewrite pow2_m1, pow2_1. lra. }
  rewrite pow2_m1, pow2_1 in Hc1. rewrite pow2_m53 in Hc2.
  apply Rabs_bounds in Hc2.
  js_step.
  assert (Hhc : h * / 2 <= h * c <= h * 2).
  { split; apply Rmult_le_compat_l; lra. }
  destruct (number_positive (h * c) (-101) 101 ltac:(lia) ltac:(lia))
    as (d & -> & Hd1 & Hd2).
  { lra. }
  rewrite pow2_m53 in Hd2. apply Rabs_bounds in Hd2.
  js_step.
  destruct (fround_positive d (-101) 101 ltac:(lia) ltac:(lia) Hd1)
    as (y & Hy & Hy1 & Hy2).
  change (IEEE.round IEEE.binary32 d) with (fround (Some d)).
  rewrite Hy. rewrite pow2_m24 in Hy2. apply Rabs_bounds in Hy2.
  exists y. split; [reflexivity |].
  rewrite pow2_m23.
  assert (Hhv : 0 <= h * v <= h).
  { split; [apply Rmult_le_pos; lra |].
    rewrite <- (Rmult_1_r h) at 2. apply Rmult_le_compat_l; lra. }
  assert (Hlow : h * ((1 - 9 / 9007199254740992) * (1 - v / 2)) <= h * c).
  { apply Rmult_le_compat_l; lra. }
  assert (Hupp : h * c <= h * ((1 + 9 / 9007199254740992) * (1 + v / 2))).
  { apply Rmult_le_compat_l; lra. }
  repeat split; lra.
Qed.

(** ** Rounding is symmetric *)

Lemma Int_part_spec' (t : R) :
  IZR (Int_part t) <= t < IZR (Int_part t) + 1.
Proof.
  destruct (base_Int_part t) as [H1 H2]. lra.
Qed.

Lemma nearest_even_opp (t : R) :
  IEEE.nearest_even (- t) = (- IEEE.nearest_even t)%Z.
Proof.
  pose proof (Int_part_spec' t) as Hf.
  set (k := Int_part t) in *.
  assert (Hcases : t - IZR k < 1 / 2 \/ 1 / 2 < t - IZR k
                   \/ t = IZR k + 1 / 2) by lra.
  destruct Hcases as [Hlt | [Hgt | Heq]].
  - assert (Hm : IEEE.nearest_even t = k).
    { apply nearest_even_eval. rewrite Rabs_pos_eq; lra. }
    rewrite Hm. apply nearest_even_eval. rewrite opp_IZR.
    unfold Rabs. destruct (Rcase_abs _); lra.
  - assert (Hm : IEEE.nearest_even t = (k + 1)%Z).
    { apply nearest_even_eval. rewrite plus_IZR.
      unfold Rabs. destruct (Rcase_abs _); lra. }
    rewrite Hm. apply nearest_even_eval. rewrite opp_IZR, plus_IZR.
    unfold Rabs. destruct (Rcase_abs _); lra.
  - rewrite Heq at 2. rewrite nearest_even_tie.
    replace (- t) with (IZR (- k - 1) + 1 / 2)
      by (rewrite minus_IZR, opp_IZR; lra).
    rewrite nearest_even_tie.
    replace (- k - 1)%Z with (- (k + 1))%Z by lia.
    rewrite Z.even_opp, Z.even_add.
    destruct (Z.even k); cbn; lia.
Qed.

Lemma round_unbounded_opp (f : IEEE.format) (x : R) :
  IEEE.round_unbounded f (- x) = - IEEE.round_unbounded f x.
Proof.
  unfold IEEE.round_unbounded.
  destruct (Req_dec_T x 0) as [Hx | Hx], (Req_dec_T (- x) 0) as [Hy | Hy];
    try lra.
  assert (Hc : IEEE.cexp f (- x) = IEEE.cexp f x)
    by (unfold IEEE.cexp; now rewrite Rabs_Ropp).
  rewrite Hc.
  replace (- x / IEEE.pow2 (IEEE.cexp f x))
    with (- (x / IEEE.pow2 (IEEE.cexp f x)))
    by (unfold Rdiv; ring).
  rewrite nearest_even_opp, opp_IZR. ring.
Qed.

Lemma round_opp (f : IEEE.format) (x : R) :
  IEEE.round f (- x) = Num.neg (IEEE.round f x).
Proof.
  unfold IEEE.round. rewrite round_unbounded_opp, Rabs_Ropp.
  destruct (Rlt_dec _ _); reflexivity.
Qed.

Lemma fround_neg (a : num) : fround (Num.neg a) = Num.neg (fround a).
Proof.
  destruct a as [x |]; [| reflexivity].
  cbn [Num.neg Num.lift1 fround]. apply round_opp.
Qed.

(** [bladeWidth / 2] and [-bladeWidth / 2] as elements of a
    [Float32Array]: opposite numbers, off the half width by at most
    [2 ^ -23] of it. *)
Lemma half_width_stored (w : R) :
  IEEE.pow2 (-100) <= w <= IEEE.pow2 100 ->
  exists y : R,
    fround (fin w / JS.number 2)%js = Some y
    /\ fround (- fin w / JS.number 2)%js = Some (- y)
    /\ Rabs (y - w / 2) <= IEEE.pow2 (-23) * (w / 2)
    /\ 0 < y.
Proof.
  intros Hw.
  pose proof (pow2_pos (-100)) as Hp100.
  pose proof (pow2_succ (-101)) as Hm101.
  change (-101 + 1)%Z with (-100)%Z in Hm101.
  pose proof (pow2_le 99 100 ltac:(lia)) as H99.
  pose proof (pow2_succ 99) as H100. change (99 + 1)%Z with 100%Z in H100.
  unfold fin. rewrite number_2. js_step. js_div2.
  replace (- w / 2) with (- (w / 2)) by (unfold Rdiv; ring).
  change (JS.number (- (w / 2))) with (IEEE.round IEEE.binary64 (- (w / 2))).
  rewrite (round_opp IEEE.binary64 (w / 2)). fold (JS.number (w / 2)).
  destruct (number_positive (w / 2) (-101) 99 ltac:(lia) ltac:(lia))
    as (q & -> & Hq1 & Hq2); [lra |].
  rewrite pow2_m53 in Hq2. apply Rabs_bounds in Hq2.
  rewrite (fround_neg (Some q)).
  destruct (fround_positive q (-101) 99 ltac:(lia) ltac:(lia) Hq1)
    as (y & Hy & Hy1 & Hy2).
  rewrite Hy. rewrite pow2_m24 in Hy2. apply Rabs_bounds in Hy2.
  exists y. split; [reflexivity |]. split; [reflexivity |].
  pose proof (pow2_pos (-101)).
  split; [| lra].
  rewrite pow2_m23. unfold Rabs. destruct (Rcase_abs _); lra.
Qed.

(** [0.7 + Math.random() * 0.6] as an element of a [Float32Array]. *)
Lemma stiffness_stored (r : R) :
  0 <= r <= 1 ->
  exists y : R,
    fround (JS.number 0.7 + fin r * JS.number 0.6)%js = Some y
    /\ 0.7 * (1 - IEEE.pow2 (-23)) <= y <= 1.3 * (1 + IEEE.pow2 (-23)).
Proof.
  intros Hr. unfold fin.
  destruct (number_positive 0.7 (-1) 0 ltac:(lia) ltac:(lia))
    as (s7 & -> & Hs71 & Hs72); [rewrite pow2_m1, pow2_0; lra |].
  destruct (number_positive 0.6 (-1) 0 ltac:(lia) ltac:(lia))
    as (s6 & -> & Hs61 & Hs62); [rewrite pow2_m1, pow2_0; lra |].
  rewrite pow2_m1, pow2_0 in Hs71, Hs61. rewrite pow2_m53 in Hs72, Hs62.
  apply Rabs_bounds in Hs72, Hs62.
  js_step.
  assert (Hrs : 0 <= r * s6 <= s6).
  { split; [apply Rmult_le_pos; lra |].
    rewrite <- (Rmult_1_l s6) at 2. apply Rmult_le_compat_r; lra. }
  assert (Hrs' : r * 0.6 * (1 - / 9007199254740992) <= r * s6
                 <= r * 0.6 * (1 + / 9007199254740992)).
  { rewrite !Rmult_assoc. split; apply Rmult_le_compat_l; lra. }
  destruct (number_small (r * s6) 0 ltac:(lia)) as (p & -> & Hp1 & Hp2 & Hp3).
  { rewrite pow2_0, Rabs_pos_eq; lra. }
  change (0 - 53)%Z with (-53)%Z in Hp2. rewrite pow2_m53 in Hp2.
  rewrite pow2_0 in Hp1. apply Rabs_bounds in Hp1, Hp2.
  specialize (Hp3 ltac:(lra)). js_step.
  destruct (number_positive (s7 + p) (-1) 1 ltac:(lia) ltac:(lia))
    as (t & -> & Ht1 & Ht2); [rewrite pow2_m1, pow2_1; lra |].
  rewrite pow2_m53 in Ht2. apply Rabs_bounds in Ht2.
  js_step.
  destruct (fround_positive t (-1) 1 ltac:(lia) ltac:(lia) Ht1)
    as (y & Hy & Hy1 & Hy2).
  change (IEEE.round IEEE.binary32 t) with (fround (Some t)).
  rewrite Hy. rewrite pow2_m24 in Hy2. apply Rabs_bounds in Hy2.
  rewrite pow2_m1, pow2_1 in Ht1.
  exists y. split; [reflexivity |]. rewrite pow2_m23.
  assert (0 <= r * 0.6 <= 0.6) by lra.
  split; lra.
Qed.

Lemma pow2_m51 : IEEE.pow2 (-51) = 4 * / 9007199254740992.
Proof.
  replace (-51)%Z with (2 + -53)%Z by lia.
  rewrite pow2_add, pow2_2, pow2_m53. reflexivity.
Qed.

Lemma pow2_m50 : IEEE.pow2 (-50) = 8 * / 9007199254740992.
Proof.
  replace (-50)%Z with (3 + -53)%Z by lia.
  rewrite pow2_add, pow2_3, pow2_m53. reflexivity.
Qed.

Lemma pow2_m21 : IEEE.pow2 (-21) = 8 * / 16777216.
Proof.
  replace (-21)%Z with (3 + -24)%Z by lia.
  rewrite pow2_add, pow2_3, pow2_m24. reflexivity.
Qed.

(** [Math.PI] is a number between 2 and 4, off pi by at most [2 ^ -53] of
    it. *)
Lemma Math_PI_value :
  exists p : R,
    JS.Math_PI = Some p /\ 2 <= p <= 4
    /\ - (/ 9007199254740992 * PI) <= p - PI <= / 9007199254740992 * PI.
Proof.
  pose proof PI2_3_2 as Hlo. pose proof PI_4 as Hhi.
  destruct (number_positive PI 1 2 ltac:(lia) ltac:(lia))
    as (p & Hp & Hp1 & Hp2); [rewrite pow2_1, pow2_2; lra |].
  rewrite pow2_1, pow2_2 in Hp1. rewrite pow2_m53 in Hp2.
  apply Rabs_bounds in Hp2. exists p. repeat split; try lra. exact Hp.
Qed.

(** [Math.random() * Math.PI * 2] as an element of a [Float32Array]. *)
Lemma phase_stored (r : R) :
  0 <= r <= 1 ->
  exists y : R,
    fround (fin r * JS.Math_PI * JS.number 2)%js = Some y
    /\ 0 <= y <= 2 * PI * (1 + IEEE.pow2 (-23)).
Proof.
  intros Hr. unfold fin.
  pose proof PI2_3_2 as Hlo. pose proof PI_4 as Hhi.
  destruct Math_PI_value as (p & -> & Hp1 & Hp2).
  rewrite number_2. js_step.
  assert (Hrp : 0 <= r * p <= p).
  { split; [apply Rmult_le_pos; lra |].
    rewrite <- (Rmult_1_l p) at 2. apply Rmult_le_compat_r; lra. }
  destruct (number_small (r * p) 2 ltac:(lia)) as (a & -> & Ha1 & Ha2 & Ha3).
  { rewrite pow2_2, Rabs_pos_eq; lra. }
  change (2 - 53)%Z with (-51)%Z in Ha2. rewrite pow2_m51 in Ha2.
  rewrite pow2_2 in Ha1. apply Rabs_bounds in Ha1, Ha2.
  specialize (Ha3 ltac:(lra)). js_step.
  destruct (number_small (a * 2) 3 ltac:(lia)) as (b & -> & Hb1 & Hb2 & Hb3).
  { rewrite pow2_3, Rabs_pos_eq; lra. }
  change (3 - 53)%Z with (-50)%Z in Hb2. rewrite pow2_m50 in Hb2.
  specialize (Hb3 ltac:(lra)). js_step.
  destruct (fround_small b 3 ltac:(lia) Hb1) as (y & Hy & Hy1 & Hy2 & Hy3).
  change (3 - 24)%Z with (-21)%Z in Hy2. rewrite pow2_m21 in Hy2.
  apply Rabs_bounds in Hb2, Hy2. specialize (Hy3 Hb3).
  change (IEEE.round IEEE.binary32 b) with (fround (Some b)).
  rewrite Hy. exists y. split; [reflexivity |]. rewrite pow2_m23.
  split; lra.
Qed.

(** [(Math.random() - 0.5) * grassPatchSize] as an element of the instance
    matrix. *)
Lemma position_stored (size r : R) :
  IEEE.pow2 (-100) <= size <= IEEE.pow2 100 ->
  0 <= r <= 1 ->
  exists y : R,
    fround ((fin r - JS.number 0.5) * fin size)%js = Some y
    /\ - (size / 2) * (1 + IEEE.pow2 (-22)) <= y
       <= size / 2 * (1 + IEEE.pow2 (-22)).
Proof.
  intros Hsize Hr. unfold fin.
  pose proof (pow2_pos (-100)) as Hp100.
  assert (Hpos : 0 < size) by lra.
  set (k := IEEE.ilog2 size).
  destruct (ilog2_bounds size Hpos) as [Hk1 Hk2]. fold k in Hk1, Hk2.
  assert (Hk : (-100 <= k <= 100)%Z).
  { split; [apply ilog2_ge; lra |].
    destruct (Z.le_gt_cases k 100) as [? | Hgt]; [assumption | exfalso].
    pose proof (pow2_le 101 k ltac:(lia)).
    pose proof (pow2_lt 100 101 ltac:(lia)). lra. }
  rewrite pow2_succ in Hk2. pose proof (pow2_pos k) as HK.
  rewrite number_half. js_step.
  destruct (number_small (r - 0.5) (-1) ltac:(lia))
    as (a & -> & Ha1 & _).
  { rewrite pow2_m1. unfold Rabs. destruct (Rcase_abs _); lra. }
  rewrite pow2_m1 in Ha1. apply Rabs_bounds in Ha1. js_step.
  assert (Hprod : - (size / 2) <= a * size <= size / 2).
  { split.
    - replace (- (size / 2)) with (- / 2 * size) by lra.
      apply Rmult_le_compat_r; lra.
    - replace (size / 2) with (/ 2 * size) by lra.
      apply Rmult_le_compat_r; lra. }
  destruct (number_small (a * size) k ltac:(lia)) as (b & -> & Hb1 & Hb2 & _).
  { unfold Rabs. destruct (Rcase_abs _); lra. }
  js_step.
  destruct (fround_small b k ltac:(lia) Hb1) as (y & Hy & _ & Hy2 & _).
  change (IEEE.round IEEE.binary32 b) with (fround (Some b)).
  rewrite Hy. exists y. split; [reflexivity |].
  replace (k - 53)%Z with (k + -53)%Z in Hb2 by lia.
  replace (k - 24)%Z with (k + -24)%Z in Hy2 by lia.
  rewrite pow2_add, pow2_m53 in Hb2. rewrite pow2_add, pow2_m24 in Hy2.
  apply Rabs_bounds in Hb2, Hy2. rewrite pow2_m22.
  split; lra.
Qed.

(** [0.5 + Math.random() * 0.5]: no rounding takes it out of [0.5, 1], and
    the largest draw is rounded up to 1. *)
Lemma noise_factor_value (r : R) :
  0 <= r <= 1 ->
  exists k : R,
    (JS.number 0.5 + fin r * JS.number 0.5)%js = Some k /\ 0.5 <= k <= 1.
Proof.
  intros Hr. unfold fin. rewrite number_half. js_step.
  destruct (number_small (r * 0.5) (-1) ltac:(lia))
    as (a & -> & Ha1 & _ & Ha3).
  { rewrite pow2_m1, Rabs_pos_eq; lra. }
  rewrite pow2_m1 in Ha1. apply Rabs_bounds in Ha1.
  specialize (Ha3 ltac:(lra)). js_step.
  destruct (number_positive (0.5 + a) (-1) 0 ltac:(lia) ltac:(lia))
    as (k & -> & Hk & _); [rewrite pow2_m1, pow2_0; lra |].
  rewrite pow2_m1, pow2_0 in Hk. exists k. split; [reflexivity | lra].
Qed.

Lemma pow2_m2 : IEEE.pow2 (-2) = / 4.
Proof. unfold IEEE.pow2. simpl. f_equal. lra. Qed.

Lemma pow2_large (k : Z) : (0 < k)%Z -> 1 < IEEE.pow2 k.
Proof. intros Hk. rewrite <- pow2_0. now apply pow2_lt. Qed.

Lemma noise_factor_at_largest_draw :
  (JS.number 0.5 + fin (1 - IEEE.pow2 (-53)) * JS.number 0.5)%js = Some 1.
Proof.
  unfold fin. rewrite number_half. js_step.
  pose proof (pow2_large 1024 ltac:(lia)) as Hmax.
  assert (Hhalf : JS.number ((1 - IEEE.pow2 (-53)) * 0.5)
                  = Some (IZR 9007199254740991 * IEEE.pow2 (-54))).
  { apply round_eval; cbn [IEEE.prec IEEE.emin IEEE.emax IEEE.binary64].
    - change (-54 + 53 - 1)%Z with (-2)%Z. change (-54 + 53)%Z with (-1)%Z.
      rewrite pow2_m2, pow2_m1, pow2_m53, Rabs_pos_eq; lra.
    - lia.
    - rewrite pow2_m53, pow2_m54.
      replace ((1 - / 9007199254740992) * 0.5 / / 18014398509481984
               - 9007199254740991) with 0 by lra.
      rewrite Rabs_R0. lra.
    - rewrite pow2_m54, Rabs_pos_eq; lra. }
  rewrite Hhalf. js_step.
  replace (Some 1) with (Some (IZR 9007199254740992 * IEEE.pow2 (-53)))
    by (rewrite pow2_m53; f_equal; lra).
  apply (round_eval_tie IEEE.binary64 _ 9007199254740991 (-53));
    cbn [IEEE.prec IEEE.emin IEEE.emax IEEE.binary64].
  - change (-53 + 53 - 1)%Z with (-1)%Z. change (-53 + 53)%Z with 0%Z.
    rewrite pow2_m1, pow2_0, pow2_m54, Rabs_pos_eq; lra.
  - lia.
  - rewrite pow2_m53, pow2_m54. lra.
  - match goal with
    | |- Rabs (IZR ?m * _) < _ =>
        let v := eval vm_compute in m in change m with v
    end.
    rewrite pow2_m53, Rabs_pos_eq; lra.
Qed.

(** ** Two stored values that are not the numbers written in the code *)

Lemma pow2_m28 : IEEE.pow2 (-28) = / 268435456.
Proof. unfold IEEE.pow2. simpl. f_equal. lra. Qed.

Lemma pow2_m5 : IEEE.pow2 (-5) = / 32.
Proof. unfold IEEE.pow2. simpl. f_equal. lra. Qed.

Lemma pow2_m4 : IEEE.pow2 (-4) = / 16.
Proof. unfold IEEE.pow2. simpl. f_equal. lra. Qed.

Lemma pow2_m3 : IEEE.pow2 (-3) = / 8.
Proof. unfold IEEE.pow2. simpl. f_equal. lra. Qed.

(** The stiffness stored at a draw of 0 is the binary32 number next below
    0.7. *)
Lemma stiffness_at_zero_draw :
  fround (JS.number 0.7 + fin 0 * JS.number 0.6)%js
  = Some (IZR 11744051 * IEEE.pow2 (-24)).
Proof.
  unfold fin.
  destruct (number_positive 0.7 (-1) 0 ltac:(lia) ltac:(lia))
    as (s7 & -> & Hs71 & Hs72); [rewrite pow2_m1, pow2_0; lra |].
  destruct (number_positive 0.6 (-1) 0 ltac:(lia) ltac:(lia))
    as (s6 & -> & _ & _); [rewrite pow2_m1, pow2_0; lra |].
  rewrite pow2_m1, pow2_0 in Hs71. rewrite pow2_m53 in Hs72.
  apply Rabs_bounds in Hs72.
  js_step. rewrite Rmult_0_l, number_0. js_step.
  destruct (number_positive (s7 + 0) (-1) 0 ltac:(lia) ltac:(lia))
    as (t & -> & Ht1 & Ht2); [rewrite pow2_m1, pow2_0; lra |].
  rewrite pow2_m1, pow2_0 in Ht1. rewrite pow2_m53 in Ht2.
  apply Rabs_bounds in Ht2. js_step.
  pose proof (pow2_large 128 ltac:(lia)) as Hmax.
  apply round_eval; cbn [IEEE.prec IEEE.emin IEEE.emax IEEE.binary32].
  - change (-24 + 24 - 1)%Z with (-1)%Z. change (-24 + 24)%Z with 0%Z.
    rewrite pow2_m1, pow2_0, Rabs_pos_eq by lra.
    split; lra.
  - lia.
  - rewrite pow2_m24. unfold Rabs. destruct (Rcase_abs _); lra.
  - rewrite pow2_m24, Rabs_pos_eq; lra.
Qed.

(** The default blade width of the simple generator, 0.1: the [x] stored
    for the base vertex is not minus half of it. *)
Lemma base_x_at_default_width :
  exists w : R,
    JS.number 0.1 = Some w
    /\ fround (- fin w / JS.number 2)%js
       = Some (- (IZR 13421773 * IEEE.pow2 (-28)))
    /\ fround (fin w / JS.number 2)%js
       = Some (IZR 13421773 * IEEE.pow2 (-28))
    /\ - (IZR 13421773 * IEEE.pow2 (-28)) <> - w / 2.
Proof.
  destruct (number_positive 0.1 (-4) (-3) ltac:(lia) ltac:(lia))
    as (w & Hw & Hw1 & Hw2); [rewrite pow2_m4, pow2_m3; lra |].
  rewrite pow2_m4, pow2_m3 in Hw1. rewrite pow2_m53 in Hw2.
  apply Rabs_bounds in Hw2.
  exists w. split; [exact Hw |].
  assert (Hhalf : fround (fin w / JS.number 2)%js
                  = Some (IZR 13421773 * IEEE.pow2 (-28))).
  { unfold fin. rewrite number_2. js_step. js_div2.
    destruct (number_positive (w / 2) (-5) (-4) ltac:(lia) ltac:(lia))
      as (q & -> & Hq1 & Hq2); [rewrite pow2_m5, pow2_m4; lra |].
    rewrite pow2_m5, pow2_m4 in Hq1. rewrite pow2_m53 in Hq2.
    apply Rabs_bounds in Hq2. js_step.
    pose proof (pow2_large 128 ltac:(lia)) as Hmax.
    apply round_eval; cbn [IEEE.prec IEEE.emin IEEE.emax IEEE.binary32].
    - change (-28 + 24 - 1)%Z with (-5)%Z. change (-28 + 24)%Z with (-4)%Z.
      rewrite pow2_m5, pow2_m4, Rabs_pos_eq by lra. lra.
    - lia.
    - rewrite pow2_m28. unfold Rabs. destruct (Rcase_abs _); lra.
    - rewrite pow2_m28, Rabs_pos_eq; lra. }
  split; [| split; [exact Hhalf |]].
  - unfold fin in *. rewrite number_2 in *. revert Hhalf. js_step. js_div2.
    intros Hhalf.
    replace (- w / 2) with (- (w / 2)) by (unfold Rdiv; ring).
    change (JS.number (- (w / 2)))
      with (IEEE.round IEEE.binary64 (- (w / 2))).
    rewrite (round_opp IEEE.binary64 (w / 2)). fold (JS.number (w / 2)).
    rewrite fround_neg, Hhalf. reflexivity.
  - rewrite pow2_m28. lra.
Qed.

(** ** Running the generators *)

(** The interior loop of [generateBladeVertices] writes the elements
    [3 .. 3 * (verticesCount - 1) - 1] only, whatever [Math.sin] returns. *)
Lemma rich_generateBladeVertices_stored (rand : nat -> R)
    (Math_sin : num -> num) (variation height width : num)
    (verticesCount : Z) (n : nat) :
  (2 <= verticesCount)%Z ->
  let actual :=
    RichIEEE.actualBladeHeight height variation (fin (rand n)) in
  let init :=
    store_float32 (store_float32 (store_float32 (store_float32
      (store_float32 (store_float32
        (replicate (Z.to_nat (verticesCount * 3)) (fin 0))
        0%Z (- width / JS.number 2)%js) 1%Z (JS.number 0))
        2%Z (JS.number 0))
        ((verticesCount - 1) * 3)%Z (width / JS.number 2)%js)
        ((verticesCount - 1) * 3 + 1)%Z actual)
        ((verticesCount - 1) * 3 + 2)%Z (JS.number 0) in
  exists vertices,
    RichIEEE.generateBladeVertices rand Math_sin variation height width
      verticesCount n
    = Ok (vertices, (n + 1 + 2 * Z.to_nat (verticesCount - 2))%nat)
    /\ keeps init 3 (Z.to_nat ((verticesCount - 1) * 3)) vertices.
Proof.
  intros Hvc actual init. unfold RichIEEE.generateBladeVertices.
  rewrite (bind_ok (Math_random rand) _ n (S n) (fin (rand n)) eq_refl).
  run_new_array. fold actual. cbv zeta. fold init.
  match goal with
  | |- context [for_range ?lo ?hi ?body ?s0 ?k0] =>
      destruct (for_range_inv
                  (fun (j : Z) (a : list num) (k : nat) =>
                     k = (n + 1 + 2 * Z.to_nat (j - 1))%nat
                     /\ keeps init 3 (Z.to_nat ((verticesCount - 1) * 3)) a)
                  body lo hi s0 k0)
        as (vertices & n' & Hrun & -> & Hkeeps)
  end.
  - lia.
  - split; [lia | apply keeps_refl].
  - intros j a k Hj (-> & Hkeeps).
    cbv beta zeta delta [ret bind Math_random].
    eexists _, _. split; [reflexivity |]. split; [lia |].
    unfold store_float32.
    repeat apply keeps_store; try assumption; lia.
  - exists vertices. split; [| assumption].
    rewrite Hrun. do 2 f_equal. lia.
Qed.

Lemma simple_generateBladeVertices_stored (rand : nat -> R)
    (Math_sin : num -> num) (height width : num) (verticesCount : Z)
    (n : nat) :
  (2 <= verticesCount)%Z ->
  let init :=
    store_float32 (store_float32 (store_float32 (store_float32
      (store_float32 (store_float32
        (replicate (Z.to_nat (verticesCount * 3)) (fin 0))
        0%Z (- width / JS.number 2)%js) 1%Z (JS.number 0))
        2%Z (JS.number 0))
        ((verticesCount - 1) * 3)%Z (width / JS.number 2)%js)
        ((verticesCount - 1) * 3 + 1)%Z height)
        ((verticesCount - 1) * 3 + 2)%Z (JS.number 0) in
  exists vertices,
    SimpleIEEE.generateBladeVertices rand Math_sin height width
      verticesCount n
    = Ok (vertices, (n + 2 * Z.to_nat (verticesCount - 2))%nat)
    /\ keeps init 3 (Z.to_nat ((verticesCount - 1) * 3)) vertices.
Proof.
  intros Hvc init. unfold SimpleIEEE.generateBladeVertices.
  run_new_array. cbv zeta. fold init.
  match goal with
  | |- context [for_range ?lo ?hi ?body ?s0 ?k0] =>
      destruct (for_range_inv
                  (fun (j : Z) (a : list num) (k : nat) =>
                     k = (n + 2 * Z.to_nat (j - 1))%nat
                     /\ keeps init 3 (Z.to_nat ((verticesCount - 1) * 3)) a)
                  body lo hi s0 k0)
        as (vertices & n' & Hrun & -> & Hkeeps)
  end.
  - lia.
  - split; [lia | apply keeps_refl].
  - intros j a k Hj (-> & Hkeeps).
    cbv beta zeta delta [ret bind Math_random].
    eexists _, _. split; [reflexivity |]. split; [lia |].
    unfold store_float32.
    repeat apply keeps_store; try assumption; lia.
  - exists vertices. split; [| assumption].
    rewrite Hrun. do 2 f_equal. lia.
Qed.

(** The first and the last vertex of a blade whose interior the loop has
    filled. *)
Lemma blade_ends (width tip : num) (verticesCount : Z)
    (vertices : list num) :
  (3 <= verticesCount)%Z ->
  let init :=
    store_float32 (store_float32 (store_float32 (store_float32
      (store_float32 (store_float32
        (replicate (Z.to_nat (verticesCount * 3)) (fin 0))
        0%Z (- width / JS.number 2)%js) 1%Z (JS.number 0))
        2%Z (JS.number 0))
        ((verticesCount - 1) * 3)%Z (width / JS.number 2)%js)
        ((verticesCount - 1) * 3 + 1)%Z tip)
        ((verticesCount - 1) * 3 + 2)%Z (JS.number 0) in
  keeps init 3 (Z.to_nat ((verticesCount - 1) * 3)) vertices ->
  Z.of_nat (vertex_count vertices) = verticesCount
  /\ vertex vertices 0
     = Some (Vec3 (fround (- width / JS.number 2)%js) 0 0)
  /\ vertex vertices (Z.to_nat (verticesCount - 1))
     = Some (Vec3 (fround (width / JS.number 2)%js) (fround tip) 0).
Proof.
  intros Hvc init Hkeeps.
  assert (Hzero : fround (JS.number 0) = fin 0)
    by (rewrite number_0; apply fround_0).
  split; [| split].
  - rewrite (vertex_count_keeps _ _ _ _ Hkeeps). unfold vertex_count, init.
    unfold store_float32. rewrite !length_store, length_replicate.
    rewrite Nat2Z.inj_div, Z2Nat.id by lia.
    change (Z.of_nat 3) with 3%Z. now rewrite Z.div_mul by lia.
  - rewrite (vertex_keeps _ _ _ _ 0 Hkeeps) by lia.
    unfold vertex, init, store_float32. cbn [Nat.mul Nat.add].
    solve_lookup. now rewrite Hzero.
  - rewrite (vertex_keeps _ _ _ _ _ Hkeeps) by lia.
    unfold vertex, init, store_float32. solve_lookup. now rewrite Hzero.
Qed.

Lemma Forall_fround (Q : num -> Prop) (a : list num) (i : Z) :
  Forall (fun x => Q (fround x)) a -> (0 <= i < Z.of_nat (length a))%Z ->
  Q (fround (to_float (load a i))).
Proof. intros Ha Hi. now apply (load_Forall (fun x => Q (fround x))). Qed.

(** The rich [createGrassMesh] with its roundings, on a non-negative number
    of blades and at least two vertices per blade: the instance attributes
    and the instance positions are the drawn values as the [Float32Array]s
    hold them. *)
Lemma rich_createGrassMesh_stored (rand : nat -> R) (Math_sin : num -> num)
    (uuid_draws : nat) (o : Rich.options) (n : nat) :
  let N := dflt 100000%Z (Rich.grassBlades o) in
  let vc := dflt 3%Z (Rich.verticesPerBlade o) in
  let h := dflt (JS.number 15) (Rich.bladeHeight o) in
  let v := dflt (JS.number 0.4) (Rich.bladeHeightVariation o) in
  let patch := dflt (JS.number 200) (Rich.grassPatchSize o) in
  (0 <= N)%Z -> (2 <= vc)%Z ->
  exists m n',
    RichIEEE.createGrassMesh rand Math_sin uuid_draws o n = Ok (m, n')
    /\ Rich.mesh_count m = N
    /\ length (Rich.geo_aBladeHeight (Rich.mesh_geometry m)) = Z.to_nat N
    /\ length (Rich.geo_aStiffness (Rich.mesh_geometry m)) = Z.to_nat N
    /\ length (Rich.geo_aPhaseOffset (Rich.mesh_geometry m)) = Z.to_nat N
    /\ length (Rich.mesh_instanceMatrix m) = Z.to_nat N
    /\ Forall (fun x => exists k,
                   x = fround (fround (RichIEEE.actualBladeHeight h v
                                         (fin (rand k)))))
         (Rich.geo_aBladeHeight (Rich.mesh_geometry m))
    /\ Forall (fun x => exists k,
                   x = fround (fround (JS.number 0.7
                                       + fin (rand k) * JS.number 0.6)%js))
         (Rich.geo_aStiffness (Rich.mesh_geometry m))
    /\ Forall (fun x => exists k,
                   x = fround (fin (rand k) * JS.Math_PI * JS.number 2)%js)
         (Rich.geo_aPhaseOffset (Rich.mesh_geometry m))
    /\ Forall (fun d => exists k1 k2,
                   obj_position d
                   = Vec3 (fround ((fin (rand k1) - JS.number 0.5)
                                   * patch)%js)
                       (fin 0)
                       (fround ((fin (rand k2) - JS.number 0.5)
                                * patch)%js))
         (Rich.mesh_instanceMatrix m).
Proof.
  intros N vc h v patch HN Hvc.
  unfold RichIEEE.createGrassMesh. cbv zeta.
  fold N vc h v patch.
  do 2 run_new_array.
  set (Qh := fun x : num => exists k,
                 x = fround (fround (RichIEEE.actualBladeHeight h v
                                       (fin (rand k))))).
  set (Qs := fun x : num => exists k,
                 x = fround (fround (JS.number 0.7
                                     + fin (rand k) * JS.number 0.6)%js)).
  set (Qp := fun x : num => exists k,
                 x = fround (fin (rand k) * JS.Math_PI * JS.number 2)%js).
  set (Qd := fun d : Object3D => exists k1 k2,
                   obj_position d
                   = Vec3 (fround ((fin (rand k1) - JS.number 0.5)
                                   * patch)%js)
                       (fin 0)
                       (fround ((fin (rand k2) - JS.number 0.5)
                                * patch)%js)).
  run_loop (fun (j : Z) (s : list num * list num) (_ : nat) =>
              length (fst s) = Z.to_nat N /\ length (snd s) = Z.to_nat N
              /\ filled (fun x => Qh (fround x)) j (fst s)
              /\ filled (fun x => Qs (fround x)) j (snd s)).
  - lia.
  - cbn. rewrite !length_replicate. repeat split; apply filled_start.
  - intros j [bh bs] k Hj (Hl1 & Hl2 & Hf1 & Hf2). cbn in Hl1, Hl2, Hf1, Hf2.
    cbv beta iota zeta delta [ret bind Math_random store_float32].
    eexists _, _. split; [reflexivity |]. cbn [fst snd].
    rewrite !length_store. repeat split; try assumption.
    + apply filled_store; [assumption | eexists; reflexivity].
    + apply filled_store; [assumption | eexists; reflexivity].
  - destruct s as [bladeHeights bladeStiffness].
    cbn [fst snd] in HP. destruct HP as (Hl1 & Hl2 & Hf1 & Hf2).
    apply filled_Forall in Hf1; [| lia]. apply filled_Forall in Hf2; [| lia].
    destruct (rich_generateBladeVertices_stored rand Math_sin v h
                (dflt (JS.number 0.5) (Rich.bladeWidth o)) vc c Hvc)
      as (vertices & Hvert & _).
    rewrite (bind_ok _ _ _ _ _ Hvert).
    destruct (rich_generateBladeIndices_fan vc
                (c + 1 + 2 * Z.to_nat (vc - 2)) Hvc)
      as (indices & Hind & _).
    rewrite (bind_ok _ _ _ _ _ Hind).
    rewrite (bind_ok (RichIEEE.THREE_object uuid_draws) _ _ _ tt eq_refl).
    do 3 run_new_array.
    run_loop (fun (j : Z) (s : list num * list num * list num)
                (_ : nat) =>
                let '(hs, ss, ps) := s in
                length hs = Z.to_nat N /\ length ss = Z.to_nat N
                /\ length ps = Z.to_nat N
                /\ filled Qh j hs /\ filled Qs j ss /\ filled Qp j ps).
    + lia.
    + rewrite !length_replicate. repeat split; apply filled_start.
    + intros j [[hs ss] ps] k Hj (Hh & Hs & Hp & Hfh & Hfs & Hfp).
      cbv beta iota zeta delta [ret bind Math_random store_float32].
      eexists _, _. split; [reflexivity |]. cbv beta iota.
      rewrite !length_store. repeat split; try assumption.
      * apply filled_store; [assumption |].
        apply Forall_fround; [assumption | lia].
      * apply filled_store; [assumption |].
        apply Forall_fround; [assumption | lia].
      * apply filled_store; [assumption | eexists; reflexivity].
    + destruct s as [[hs ss] ps].
      destruct HP as (Hh & Hs & Hp & Hfh & Hfs & Hfp).
      do 3 rewrite (bind_ok (RichIEEE.THREE_object uuid_draws) _ _ _ tt
                      eq_refl).
      rewrite (bind_ok _ _ _ _ _ (new_matrix_array_ok N _ HN)).
      run_loop (fun (j : Z) (s : list Object3D) (_ : nat) =>
                  length s = Z.to_nat N /\ filled Qd j s).
      * lia.
      * rewrite length_replicate. split; [reflexivity | apply filled_start].
      * intros j im k Hj (Him & Hfd).
        cbv beta iota zeta delta [ret bind Math_random].
        eexists _, _. split; [reflexivity |].
        rewrite length_store. split; [assumption |].
        apply filled_store; [assumption |]. eexists _, _.
        cbn [obj_position vx vy vz]. rewrite number_0, fround_0.
        reflexivity.
      * destruct HP as (Him & Hfd).
        eexists _, _. split; [reflexivity |]. cbn.
        repeat split; try assumption;
          (eapply filled_Forall; [| eassumption]); lia.
Qed.

(** ** The blade as the [Float32Array] holds it *)

Lemma pow2_10 : IEEE.pow2 10 = 1024.
Proof. rewrite pow2_IZR by lia. reflexivity. Qed.

Lemma pow2_m10 : IEEE.pow2 (-10) = / 1024.
Proof. unfold IEEE.pow2. simpl. f_equal. lra. Qed.

(** The sizes of a scene are well inside the range the bounds are proved
    for. *)
Lemma in_wide_range (x : R) :
  / 1024 <= x <= 1024 -> IEEE.pow2 (-100) <= x <= IEEE.pow2 100.
Proof.
  intros Hx.
  pose proof (pow2_le (-100) (-10) ltac:(lia)) as Hlo.
  pose proof (pow2_le 10 100 ltac:(lia)) as Hhi.
  rewrite pow2_m10 in Hlo. rewrite pow2_10 in Hhi. lra.
Qed.

(** C5, as stated, fails on the stored vertices: with the blade width 0.1,
    the default of the simple generator, the base vertex of either
    generator is stored at x = -13421773 * 2^-28 (-0.05000000074505806),
    which is not minus half the width. *)
Lemma blade_base_off_half_width :
  exists w x0 : R,
    JS.number 0.1 = Some w
    /\ x0 = - (IZR 13421773 * IEEE.pow2 (-28))
    /\ x0 <> - w / 2
    /\ (forall Math_sin : num -> num,
           exists vertices n',
             SimpleIEEE.generateBladeVertices (fun _ => 0) Math_sin
               (JS.number 15) (JS.number 0.1) 3 0%nat
             = Ok (vertices, n')
             /\ vertex vertices 0 = Some (Vec3 (fin x0) 0 0))
    /\ (forall Math_sin : num -> num,
           exists vertices n',
             RichIEEE.generateBladeVertices (fun _ => 0) Math_sin
               (JS.number 0.4) (JS.number 15) (JS.number 0.1) 3 0%nat
             = Ok (vertices, n')
             /\ vertex vertices 0 = Some (Vec3 (fin x0) 0 0)).
Proof.
  destruct base_x_at_default_width as (w & Hw & Hneg & Hhalf & Hne).
  exists w, (- (IZR 13421773 * IEEE.pow2 (-28))).
  split; [exact Hw |]. split; [reflexivity |]. split; [exact Hne |].
  rewrite Hw. split.
  - intros Math_sin.
    destruct (simple_generateBladeVertices_stored (fun _ => 0) Math_sin
                (JS.number 15) (Some w) 3 0%nat ltac:(lia))
      as (vertices & Hrun & Hkeeps).
    eexists vertices, _. split; [exact Hrun |].
    destruct (blade_ends (Some w) (JS.number 15) 3 vertices ltac:(lia)
                Hkeeps) as (_ & Hbase & _).
    rewrite Hbase. unfold fin in Hneg. now rewrite Hneg.
  - intros Math_sin.
    destruct (rich_generateBladeVertices_stored (fun _ => 0) Math_sin
                (JS.number 0.4) (JS.number 15) (Some w) 3 0%nat ltac:(lia))
      as (vertices & Hrun & Hkeeps).
    eexists vertices, _. split; [exact Hrun |].
    destruct (blade_ends (Some w) _ 3 vertices ltac:(lia) Hkeeps)
      as (_ & Hbase & _).
    rewrite Hbase. unfold fin in Hneg. now rewrite Hneg.
Qed.

(** C5, amended.  For a height and a width between 2^-100 and 2^100, a
    variation in [0, 1), between 3 and 1024 vertices and a first draw in
    [0, 1), [generateBladeVertices] of the rich generator returns exactly
    [verticesCount] vertices.  The first is (-x, 0, 0) and the last is
    (x, y, 0), with y = 0 and z = 0 exactly, where x is the stored half
    width, within 2^-23 of width/2 relatively, and y is the stored
    height * (1 - variation/2 + r * variation), which lies between
    height * (1 - variation/2) * (1 - 2^-23) and
    height * (1 + variation/2) * (1 + 2^-23).  The simple generator has no
    variation: its tip is at the stored height itself. *)
Theorem blade_base_and_tip_as_stored (rand : nat -> R)
    (Math_sin : num -> num) (height width variation : R)
    (verticesCount : Z) (n : nat) :
  IEEE.pow2 (-100) <= height <= IEEE.pow2 100 ->
  IEEE.pow2 (-100) <= width <= IEEE.pow2 100 ->
  0 <= variation < 1 ->
  (3 <= verticesCount <= 1024)%Z ->
  0 <= rand n < 1 ->
  (exists vertices n' (x y : R),
      RichIEEE.generateBladeVertices rand Math_sin variation height width
        verticesCount n
      = Ok (vertices, n')
      /\ Z.of_nat (vertex_count vertices) = verticesCount
      /\ vertex vertices 0 = Some (Vec3 (fin (- x)) 0 0)
      /\ vertex vertices (Z.to_nat (verticesCount - 1))
         = Some (Vec3 (fin x) (fin y) 0)
      /\ Rabs (x - width / 2) <= IEEE.pow2 (-23) * (width / 2)
      /\ fround (RichIEEE.actualBladeHeight height variation (rand n))
         = fin y
      /\ height * (1 - variation / 2) * (1 - IEEE.pow2 (-23)) <= y
         <= height * (1 + variation / 2) * (1 + IEEE.pow2 (-23)))
  /\ (exists vertices n' (x y : R),
         SimpleIEEE.generateBladeVertices rand Math_sin height width
           verticesCount n
         = Ok (vertices, n')
         /\ Z.of_nat (vertex_count vertices) = verticesCount
         /\ vertex vertices 0 = Some (Vec3 (fin (- x)) 0 0)
         /\ vertex vertices (Z.to_nat (verticesCount - 1))
            = Some (Vec3 (fin x) (fin y) 0)
         /\ Rabs (x - width / 2) <= IEEE.pow2 (-23) * (width / 2)
         /\ Rabs (y - height) <= IEEE.pow2 (-24) * height).
Proof.
  intros Hh Hw Hv Hvc Hr.
  destruct (half_width_stored width Hw) as (x & Hx & Hnx & Hxerr & _).
  split.
  - destruct (actualBladeHeight_stored height variation (rand n) Hh
                ltac:(lra) ltac:(lra)) as (y & Hy & Hyrange & _).
    destruct (rich_generateBladeVertices_stored rand Math_sin variation
                height width verticesCount n ltac:(lia))
      as (vertices & Hrun & Hkeeps).
    destruct (blade_ends width _ verticesCount vertices ltac:(lia) Hkeeps)
      as (Hcount & Hbase & Htip).
    eexists vertices, _, x, y. split; [exact Hrun |].
    split; [exact Hcount |].
    rewrite Hbase, Htip, Hx, Hnx, Hy.
    split; [reflexivity |]. split; [reflexivity |].
    split; [exact Hxerr |]. split; [reflexivity | exact Hyrange].
  - destruct (fround_positive height (-100) 100 ltac:(lia) ltac:(lia) Hh)
      as (y & Hy & _ & Hyerr).
    destruct (simple_generateBladeVertices_stored rand Math_sin height
                width verticesCount n ltac:(lia))
      as (vertices & Hrun & Hkeeps).
    destruct (blade_ends width height verticesCount vertices ltac:(lia)
                Hkeeps) as (Hcount & Hbase & Htip).
    eexists vertices, _, x, y. split; [exact Hrun |].
    split; [exact Hcount |].
    change (fin height) with (Some height) in Htip. rewrite Hy in Htip.
    rewrite Hbase, Htip, Hx, Hnx.
    split; [reflexivity |]. split; [reflexivity |].
    split; [exact Hxerr | exact Hyerr].
Qed.

Lemma blade_base_and_tip_as_stored_witness :
  exists vertices n' (x y : R),
    RichIEEE.generateBladeVertices (fun _ => 0.5) Num.sin 0.4 15 0.5 3 0%nat
    = Ok (vertices, n')
    /\ Z.of_nat (vertex_count vertices) = 3%Z
    /\ vertex vertices 0 = Some (Vec3 (fin (- x)) 0 0)
    /\ vertex vertices (Z.to_nat (3 - 1)) = Some (Vec3 (fin x) (fin y) 0)
    /\ Rabs (x - 0.5 / 2) <= IEEE.pow2 (-23) * (0.5 / 2)
    /\ fround (RichIEEE.actualBladeHeight 15 0.4 0.5) = fin y
    /\ 15 * (1 - 0.4 / 2) * (1 - IEEE.pow2 (-23)) <= y
       <= 15 * (1 + 0.4 / 2) * (1 + IEEE.pow2 (-23)).
Proof.
  apply (proj1 (blade_base_and_tip_as_stored (fun _ => 0.5) Num.sin 15 0.5
                  0.4 3 0%nat
                  ltac:(apply in_wide_range; lra)
                  ltac:(apply in_wide_range; lra)
                  ltac:(lra) ltac:(lia) ltac:(cbv beta; lra))).
Defined.

(** ** The instances as the [Float32Array]s hold them *)

(** C6, as stated, fails on the stored attributes: with one blade and
    draws of 0 the stiffness 0.7 + 0 * 0.6 is stored as
    11744051 * 2^-24 (0.699999988079071), below 0.7. *)
Lemma instance_stiffness_below_range :
  exists s : R,
    s = IZR 11744051 * IEEE.pow2 (-24)
    /\ s < 0.7
    /\ forall (Math_sin : num -> num) (uuid_draws : nat),
         exists m n',
           RichIEEE.createGrassMesh (fun _ => 0) Math_sin uuid_draws
             (Rich.mkOptions None None None (Some 1%Z) None None None None
                None None None None None None None None None None) 0%nat
           = Ok (m, n')
           /\ Rich.mesh_count m = 1%Z
           /\ Rich.geo_aStiffness (Rich.mesh_geometry m) = [fin s].
Proof.
  exists (IZR 11744051 * IEEE.pow2 (-24)).
  split; [reflexivity |]. split; [rewrite pow2_m24; lra |].
  intros Math_sin uuid_draws.
  destruct (rich_createGrassMesh_stored (fun _ => 0) Math_sin uuid_draws
              (Rich.mkOptions None None None (Some 1%Z) None None None None
                 None None None None None None None None None None) 0%nat
              ltac:(cbn; lia) ltac:(cbn; lia))
    as (m & n' & Hrun & Hcount & _ & Hlen & _ & _ & _ & Hs & _).
  exists m, n'. split; [exact Hrun |]. split; [exact Hcount |].
  destruct (Rich.geo_aStiffness (Rich.mesh_geometry m)) as [| s [| ? ?]];
    try discriminate Hlen.
  apply Forall_cons in Hs as [[k ->] _].
  rewrite fround_idempotent. f_equal. apply stiffness_at_zero_draw.
Qed.

Lemma stored_twice (a : num) (Q : R -> Prop) :
  (exists y : R, fround a = Some y /\ Q y) ->
  exists y : R, fround (fround a) = fin y /\ Q y.
Proof.
  intros (y & Hy & HQ). exists y. rewrite fround_idempotent.
  split; assumption.
Qed.

(** C6, amended.  For 1 to 500000 blades, 2 to 1024 vertices per blade, a
    patch size between 2^-100 and 2^100 and draws in [0, 1), the rich
    [createGrassMesh] produces exactly [grassBlades] instances.  Each
    stands at (x, 0, z) with y = 0 exactly and the stored x and z within
    patchSize/2 * (1 + 2^-22) of 0; its stored stiffness lies between
    0.7 * (1 - 2^-23) and 1.3 * (1 + 2^-23), and its stored phase offset
    between 0 and 2 pi * (1 + 2^-23). *)
Theorem instance_attributes_as_stored (rand : nat -> R)
    (Math_sin : num -> num) (uuid_draws : nat) (o : Rich.options) (n : nat)
    (patchSize : R) :
  let N := dflt 100000%Z (Rich.grassBlades o) in
  (forall k, 0 <= rand k < 1) ->
  (1 <= N <= 500000)%Z ->
  (2 <= dflt 3%Z (Rich.verticesPerBlade o) <= 1024)%Z ->
  dflt (JS.number 200) (Rich.grassPatchSize o) = fin patchSize ->
  IEEE.pow2 (-100) <= patchSize <= IEEE.pow2 100 ->
  exists m n',
    RichIEEE.createGrassMesh rand Math_sin uuid_draws o n = Ok (m, n')
    /\ Rich.mesh_count m = N
    /\ length (Rich.mesh_instanceMatrix m) = Z.to_nat N
    /\ length (Rich.geo_aBladeHeight (Rich.mesh_geometry m)) = Z.to_nat N
    /\ length (Rich.geo_aStiffness (Rich.mesh_geometry m)) = Z.to_nat N
    /\ length (Rich.geo_aPhaseOffset (Rich.mesh_geometry m)) = Z.to_nat N
    /\ Forall (fun d => exists x z : R,
                   obj_position d = Vec3 (fin x) 0 (fin z)
                   /\ - (patchSize / 2) * (1 + IEEE.pow2 (-22)) <= x
                      <= patchSize / 2 * (1 + IEEE.pow2 (-22))
                   /\ - (patchSize / 2) * (1 + IEEE.pow2 (-22)) <= z
                      <= patchSize / 2 * (1 + IEEE.pow2 (-22)))
         (Rich.mesh_instanceMatrix m)
    /\ Forall (fun s => exists r : R,
                   s = fin r
                   /\ 0.7 * (1 - IEEE.pow2 (-23)) <= r
                      <= 1.3 * (1 + IEEE.pow2 (-23)))
         (Rich.geo_aStiffness (Rich.mesh_geometry m))
    /\ Forall (fun p => exists r : R,
                   p = fin r /\ 0 <= r <= 2 * PI * (1 + IEEE.pow2 (-23)))
         (Rich.geo_aPhaseOffset (Rich.mesh_geometry m)).
Proof.
  intros N Hrand HN Hvc Hpatch Hsize.
  destruct (rich_createGrassMesh_stored rand Math_sin uuid_draws o n
              ltac:(fold N; lia) ltac:(lia))
    as (m & n' & Hrun & Hcount & Hlh & Hls & Hlp & Hlm & _ & Hs & Hp & Hd).
  exists m, n'. split; [exact Hrun |]. split; [exact Hcount |].
  split; [exact Hlm |]. split; [exact Hlh |]. split; [exact Hls |].
  split; [exact Hlp |].
  rewrite Hpatch in Hd. split; [| split].
  - eapply Forall_impl; [exact Hd |].
    intros d (k1 & k2 & ->).
    destruct (position_stored patchSize (rand k1) Hsize)
      as (x & -> & Hx); [specialize (Hrand k1); lra |].
    destruct (position_stored patchSize (rand k2) Hsize)
      as (z & -> & Hz); [specialize (Hrand k2); lra |].
    exists x, z. split; [reflexivity |]. split; assumption.
  - eapply Forall_impl; [exact Hs |].
    intros s (k & ->). apply stored_twice, stiffness_stored.
    specialize (Hrand k). lra.
  - eapply Forall_impl; [exact Hp |].
    intros p (k & ->). apply phase_stored.
    specialize (Hrand k). lra.
Qed.

Lemma number_integer (m : Z) :
  (Z.abs m <= 2 ^ 53)%Z -> JS.number (IZR m) = Some (IZR m).
Proof.
  intros Hm. unfold JS.number, IEEE.round.
  pose proof (round_unbounded_fix IEEE.binary64 m 0 ltac:(cbn; lia)
                ltac:(cbn; lia) Hm) as Hfix.
  rewrite pow2_0, Rmult_1_r in Hfix. rewrite Hfix.
  destruct (Rlt_dec _ _) as [_ | Hbig]; [reflexivity |].
  exfalso. apply Hbig. rewrite <- abs_IZR.
  apply Rle_lt_trans with (IEEE.pow2 53).
  - rewrite pow2_IZR by lia. now apply IZR_le.
  - apply pow2_lt. cbn. lia.
Qed.

Lemma instance_attributes_as_stored_witness :
  exists m n',
    RichIEEE.createGrassMesh (fun _ => 0.5) Num.sin 4
      (Rich.mkOptions None None None (Some 2%Z) None None None None None
         None None None None None None None None None) 0%nat
    = Ok (m, n')
    /\ Rich.mesh_count m = 2%Z
    /\ length (Rich.mesh_instanceMatrix m) = 2%nat
    /\ length (Rich.geo_aBladeHeight (Rich.mesh_geometry m)) = 2%nat
    /\ length (Rich.geo_aStiffness (Rich.mesh_geometry m)) = 2%nat
    /\ length (Rich.geo_aPhaseOffset (Rich.mesh_geometry m)) = 2%nat
    /\ Forall (fun d => exists x z : R,
                   obj_position d = Vec3 (fin x) 0 (fin z)
                   /\ - (200 / 2) * (1 + IEEE.pow2 (-22)) <= x
                      <= 200 / 2 * (1 + IEEE.pow2 (-22))
                   /\ - (200 / 2) * (1 + IEEE.pow2 (-22)) <= z
                      <= 200 / 2 * (1 + IEEE.pow2 (-22)))
         (Rich.mesh_instanceMatrix m)
    /\ Forall (fun s => exists r : R,
                   s = fin r
                   /\ 0.7 * (1 - IEEE.pow2 (-23)) <= r
                      <= 1.3 * (1 + IEEE.pow2 (-23)))
         (Rich.geo_aStiffness (Rich.mesh_geometry m))
    /\ Forall (fun p => exists r : R,
                   p = fin r /\ 0 <= r <= 2 * PI * (1 + IEEE.pow2 (-23)))
         (Rich.geo_aPhaseOffset (Rich.mesh_geometry m)).
Proof.
  apply (instance_attributes_as_stored (fun _ => 0.5) Num.sin 4
           (Rich.mkOptions None None None (Some 2%Z) None None None None
              None None None None None None None None None None) 0%nat 200
           ltac:(intros k; cbv beta; lra) ltac:(cbn; lia) ltac:(cbn; lia)
           ltac:(exact (number_integer 200 ltac:(lia)))
           ltac:(apply in_wide_range; lra)).
Defined.

(** X5.  For a base height between 2^-100 and 2^100, a height variation
    between 0 and 1, up to 500000 blades and draws in [0, 1), every
    instance height of the rich mesh, as the attribute holds it, is positive
    and lies between height * (1 - variation/2) * (1 - 2^-23) and
    height * (1 + variation/2) * (1 + 2^-23). *)
Theorem rich_instance_heights_as_stored (rand : nat -> R)
    (Math_sin : num -> num) (uuid_draws : nat) (o : Rich.options) (n : nat)
    (height variation : R) :
  dflt (JS.number 15) (Rich.bladeHeight o) = fin height ->
  dflt (JS.number 0.4) (Rich.bladeHeightVariation o) = fin variation ->
  IEEE.pow2 (-100) <= height <= IEEE.pow2 100 ->
  0 <= variation <= 1 ->
  (0 <= dflt 100000%Z (Rich.grassBlades o) <= 500000)%Z ->
  (2 <= dflt 3%Z (Rich.verticesPerBlade o) <= 1024)%Z ->
  (forall k, 0 <= rand k < 1) ->
  exists m n',
    RichIEEE.createGrassMesh rand Math_sin uuid_draws o n = Ok (m, n')
    /\ Rich.uBladeHeight (Rich.mesh_uniforms m) = fin height
    /\ Forall (fun x => exists r : R,
                   x = fin r
                   /\ (height * (1 - variation / 2) * (1 - IEEE.pow2 (-23))
                       <= r
                       <= height * (1 + variation / 2)
                          * (1 + IEEE.pow2 (-23)))
                   /\ 0 < r)
         (Rich.geo_aBladeHeight (Rich.mesh_geometry m)).
Proof.
  intros Hh Hv Hrange Hvar HN Hvc Hrand.
  destruct (rich_createGrassMesh_stored rand Math_sin uuid_draws o n
              ltac:(lia) ltac:(lia))
    as (m & n' & Hrun & _ & _ & _ & _ & _ & Hheights & _).
  rewrite Hh, Hv in Hheights.
  exists m, n'. split; [exact Hrun |]. split.
  - unfold RichIEEE.createGrassMesh in Hrun.
    revert Hrun. cbv zeta. rewrite Hh.
    unfold bind.
    repeat match goal with
           | |- context [match ?c with Ok _ => _ | Throw _ => _ end] =>
               destruct c as [[? ?] |]; [| discriminate]
           | |- context [let (_, _) := ?p in _] => destruct p
           end.
    intros [= <- _]. reflexivity.
  - eapply Forall_impl; [exact Hheights |].
    intros x (k & ->). apply stored_twice, actualBladeHeight_stored;
      [exact Hrange | exact Hvar | specialize (Hrand k); lra].
Qed.

Lemma rich_instance_heights_as_stored_witness :
  exists m n',
    RichIEEE.createGrassMesh (fun _ => 0.5) Num.sin 4
      (Rich.mkOptions (Some (fin 20)) (Some (fin 0.5)) None (Some 2%Z) None
         None None None None None None None None None None None None None)
      0%nat
    = Ok (m, n')
    /\ Rich.uBladeHeight (Rich.mesh_uniforms m) = fin 20
    /\ Forall (fun x => exists r : R,
                   x = fin r
                   /\ (20 * (1 - 0.5 / 2) * (1 - IEEE.pow2 (-23)) <= r
                       <= 20 * (1 + 0.5 / 2) * (1 + IEEE.pow2 (-23)))
                   /\ 0 < r)
         (Rich.geo_aBladeHeight (Rich.mesh_geometry m)).
Proof.
  apply (rich_instance_heights_as_stored (fun _ => 0.5) Num.sin 4
           (Rich.mkOptions (Some (fin 20)) (Some (fin 0.5)) None (Some 2%Z)
              None None None None None None None None None None None None
              None None) 0%nat 20 0.5
           eq_refl eq_refl ltac:(apply in_wide_range; lra) ltac:(lra)
           ltac:(cbn; lia) ltac:(cbn; lia)
           ltac:(intros k; cbv beta; lra)).
Defined.

(** ** The noise factor as a JavaScript number *)

Lemma rich_updateWind_noise (rand : nat -> R) (gf gi time : num)
    (o : Rich.wind_options) (u : Rich.uniforms) (n : nat) :
  is_Some (Rich.upd_microMovement o) ->
  is_Some (Rich.upd_wavePropagation o) ->
  exists u',
    RichIEEE.updateWind rand gf gi time o u n = Ok (u', S n)
    /\ Rich.uWindNoiseFactor u'
       = (JS.number 0.5 + fin (rand n) * JS.number 0.5)%js.
Proof.
  destruct o as [ws wd wi wt f i m w].
  cbn [Rich.upd_microMovement Rich.upd_wavePropagation].
  intros [mm ->] [wp ->].
  destruct ws, wd, wi, wt, f, i; eexists; (split; reflexivity).
Qed.

Lemma simple_updateWind_noise (rand : nat -> R) (time : num)
    (o : Simple.wind_options) (u : Simple.uniforms) (n : nat) :
  exists u',
    SimpleIEEE.updateWind rand time o u n = Ok (u', S n)
    /\ Simple.uWindNoiseFactor u'
       = (JS.number 0.5 + fin (rand n) * JS.number 0.5)%js.
Proof.
  destruct o as [ws wd wi wt].
  destruct ws, wd, wi, wt; eexists; (split; reflexivity).
Qed.

(** X8.  When the random source stays in [0, 1), the noise factor a
    completed [updateWind] writes lies in the closed interval [0.5, 1]: the
    simple update always completes, the rich one when given [microMovement]
    and [wavePropagation].  The upper end is reached: at the largest draw,
    1 - 2^-53, the sum 0.5 + r * 0.5 is rounded to 1. *)
Theorem updateWind_noise_factor_closed_range (rand : nat -> R) (time : num)
    (n : nat) :
  (forall k, 0 <= rand k < 1) ->
  (forall (o : Simple.wind_options) (u : Simple.uniforms),
      exists u' (k : R),
        SimpleIEEE.updateWind rand time o u n = Ok (u', S n)
        /\ Simple.uWindNoiseFactor u' = fin k /\ 0.5 <= k <= 1
        /\ (rand n = 1 - IEEE.pow2 (-53) -> k = 1))
  /\ (forall (gf gi : num) (o : Rich.wind_options) (u : Rich.uniforms),
         is_Some (Rich.upd_microMovement o) ->
         is_Some (Rich.upd_wavePropagation o) ->
         exists u' (k : R),
           RichIEEE.updateWind rand gf gi time o u n = Ok (u', S n)
           /\ Rich.uWindNoiseFactor u' = fin k /\ 0.5 <= k <= 1
           /\ (rand n = 1 - IEEE.pow2 (-53) -> k = 1)).
Proof.
  intros Hrand.
  destruct (noise_factor_value (rand n) ltac:(specialize (Hrand n); lra))
    as (k & Hk & Hrange).
  assert (Htop : rand n = 1 - IEEE.pow2 (-53) -> k = 1).
  { intros Hr. rewrite Hr, noise_factor_at_largest_draw in Hk.
    now injection Hk. }
  split.
  - intros o u.
    destruct (simple_updateWind_noise rand time o u n) as (u' & Hrun & Hn).
    exists u', k. rewrite Hn, Hk. auto.
  - intros gf gi o u Hm Hw.
    destruct (rich_updateWind_noise rand gf gi time o u n Hm Hw)
      as (u' & Hrun & Hn).
    exists u', k. rewrite Hn, Hk. auto.
Qed.

Lemma updateWind_noise_factor_closed_range_witness :
  exists u' (k : R),
    RichIEEE.updateWind (fun _ => 1 - IEEE.pow2 (-53)) 0.15 0.35 1
      (Rich.mkWindOptions None None None None None None (Some (fin 0.2))
         (Some (fin 0.05)))
      (Rich.mkUniforms 0 3 (Vec3 1 0 1) (mkColor 0) (mkColor 0) 1 0.7 1.4
         15 0.5 0.15 0.35 0.2 0.05) 0%nat
    = Ok (u', 1%nat)
    /\ Rich.uWindNoiseFactor u' = fin k /\ 0.5 <= k <= 1
    /\ (1 - IEEE.pow2 (-53) = 1 - IEEE.pow2 (-53) -> k = 1).
Proof.
  apply (proj2 (updateWind_noise_factor_closed_range
                  (fun _ => 1 - IEEE.pow2 (-53)) 1 0%nat
                  ltac:(intros j; cbv beta; rewrite pow2_m53; lra)));
    eexists; reflexivity.
Defined.

(** X24.  The number of draws from [Math.random] is fixed by the sizes: the
    rich [createGrassMesh] makes 8 draws per blade instance (height,
    stiffness, phase, two coordinates, three angles),
    1 + 2 * (verticesPerBlade - 2) for the blade, and the draws three.js
    makes for the identifiers of the four objects constructed on the way
    (geometry, material, instanced mesh and the dummy object). *)
Theorem rich_createGrassMesh_draw_count (rand : nat -> R)
    (Math_sin : num -> num) (uuid_draws : nat) (o : Rich.options) (n : nat) :
  let N := dflt 100000%Z (Rich.grassBlades o) in
  let vc := dflt 3%Z (Rich.verticesPerBlade o) in
  (0 <= N <= 500000)%Z -> (2 <= vc <= 1024)%Z ->
  exists m,
    RichIEEE.createGrassMesh rand Math_sin uuid_draws o n
    = Ok (m, (n + 8 * Z.to_nat N + 1 + 2 * Z.to_nat (vc - 2)
              + 4 * uuid_draws)%nat).
Proof.
  intros N vc HN Hvc.
  unfold RichIEEE.createGrassMesh. cbv zeta. fold N vc.
  do 2 run_new_array.
  run_loop (fun (j : Z) (_ : list num * list num) (k : nat) =>
              k = (n + 2 * Z.to_nat j)%nat).
  - lia.
  - cbn. lia.
  - intros j [bh bs] k Hj ->.
    cbv beta iota zeta delta [ret bind Math_random].
    eexists _, _. split; [reflexivity |]. lia.
  - subst c. destruct s as [bladeHeights bladeStiffness].
    match goal with
    | |- context [RichIEEE.generateBladeVertices rand Math_sin ?v ?h ?w vc] =>
        destruct (rich_generateBladeVertices_stored rand Math_sin v h w vc
                    (n + 2 * Z.to_nat N) ltac:(lia))
          as (vertices & Hvert & _)
    end.
    rewrite (bind_ok _ _ _ _ _ Hvert).
    destruct (rich_generateBladeIndices_fan vc
                (n + 2 * Z.to_nat N + 1 + 2 * Z.to_nat (vc - 2))
                ltac:(lia))
      as (indices & Hind & _).
    rewrite (bind_ok _ _ _ _ _ Hind).
    rewrite (bind_ok (RichIEEE.THREE_object uuid_draws) _ _ _ tt eq_refl).
    do 3 run_new_array.
    run_loop (fun (j : Z) (_ : list num * list num * list num)
                (k : nat) =>
                k = (n + 2 * Z.to_nat N + 1 + 2 * Z.to_nat (vc - 2)
                     + uuid_draws + Z.to_nat j)%nat).
    + lia.
    + cbn. lia.
    + intros j [[hs ss] ps] k Hj ->.
      cbv beta iota zeta delta [ret bind Math_random].
      eexists _, _. split; [reflexivity |]. lia.
    + subst c. destruct s as [[hs ss] ps].
      do 3 rewrite (bind_ok (RichIEEE.THREE_object uuid_draws) _ _ _ tt
                      eq_refl).
      rewrite (bind_ok _ _ _ _ _ (new_matrix_array_ok N _ ltac:(lia))).
      run_loop (fun (j : Z) (_ : list Object3D) (k : nat) =>
                  k = (n + 2 * Z.to_nat N + 1 + 2 * Z.to_nat (vc - 2)
                       + uuid_draws + Z.to_nat N + 3 * uuid_draws
                       + 5 * Z.to_nat j)%nat).
      * lia.
      * cbn. lia.
      * intros j im k Hj ->.
        cbv beta iota zeta delta [ret bind Math_random].
        eexists _, _. split; [reflexivity |]. lia.
      * subst c. eexists. cbv beta iota zeta delta [ret].
        do 2 f_equal. lia.
Qed.

Lemma rich_createGrassMesh_draw_count_witness :
  exists m,
    RichIEEE.createGrassMesh (fun _ => 0.5) Num.sin 4
      (Rich.mkOptions None None None (Some 2%Z) None None None None None
         None None None None None None None None None) 0%nat
    = Ok (m, 35%nat).
Proof.
  apply (rich_createGrassMesh_draw_count (fun _ => 0.5) Num.sin 4
           (Rich.mkOptions None None None (Some 2%Z) None None None None
              None None None None None None None None None None) 0%nat
           ltac:(cbn; lia) ltac:(cbn; lia)).
Defined.
